(** * Credential providers of the Teleport API client (api/client/credentials.go)

    A shallow embedding of the credential loaders of [credentials.go]:
    the static identity-file credentials, [configureTLS], and the reloadable
    [DynamicIdentityFileCreds] with the callbacks it installs in the TLS and
    SSH client configurations.

    Go objects that are shared and mutated live in explicit stores indexed by
    locations: providers ([ProvHeap]), [tls.Config] structs and the backing
    arrays of string slices ([ObjHeap]).  A closure that captures a pointer is
    a function of the store it is run against.  The lock of the provider is a
    no-op in the sequential part and is modelled by an interleaving semantics
    in the last part of the file. *)

From stdpp Require Import base option list gmap strings fin_maps.

Local Open Scope string_scope.
Local Open Scope list_scope.
Local Open Scope nat_scope.

(** ** Errors of the [trace] package *)

Module trace.

(** The error classes the code builds or inspects. [Raw] is an error that
    carries no [trace] class (a plain Go error). *)
Inductive Kind := Raw | BadParameter | NotFound | NotImplemented | AccessDenied.

#[global] Instance Kind_eq_dec : EqDecision Kind.
Proof. solve_decision. Defined.

(** [frames] counts the stack frames recorded by [trace.Wrap]. *)
Record Error := mkError { kind : Kind; message : string; frames : nat }.

#[global] Instance Error_eq_dec : EqDecision Error.
Proof. solve_decision. Defined.

(** [trace.Wrap(err)]: same class and message, one more recorded frame. *)
Definition Wrap (e : Error) : Error :=
  mkError (kind e) (message e) (S (frames e)).

(** [trace.BadParameter(format, args...)] with the message already
    formatted. *)
Definition NewBadParameter (msg : string) : Error := mkError BadParameter msg 1.

Definition NewNotImplemented (msg : string) : Error := mkError NotImplemented msg 1.

End trace.

Export trace.

(** ** Results *)

(** A Go call returning [(T, error)]. *)
Inductive result (A : Type) :=
| Ok (a : A)
| Err (e : Error).
Arguments Ok {A} a.
Arguments Err {A} e.

(** The same, for code that can also panic (nil dereference, slice bounds). *)
Inductive outcome (A : Type) :=
| Ret (a : A)
| Fail (e : Error)
| Panic.
Arguments Ret {A} a.
Arguments Fail {A} e.
Arguments Panic {A}.

(** ** Constants *)

(** [constants.APIDomain]; the source comments name its value. *)
Definition APIDomain : string := "teleport.cluster.local".

(** [http2.NextProtoTLS]. *)
Definition NextProtoTLS : string := "h2".

(** [[]byte] *)
Definition bytes := string.

(** ** Locations, slices and backing arrays *)

Definition loc := positive.

(** A Go slice header: backing array, offset in it, length and capacity. The
    nil slice has length and capacity 0. *)
Record Slice := mkSlice { base : loc; off : nat; len : nat; cap : nat }.

Definition nilSlice : Slice := mkSlice 1%positive 0 0 0.

Definition slice_elems (a : gmap loc (list string)) (s : Slice) : list string :=
  match a !! base s with
  | Some arr => take (len s) (drop (off s) arr)
  | None => []
  end.

(** ** Library types the code handles but never inspects *)

Class GoTypes := {
  Certificate : Type;            (* tls.Certificate *)
  CertificateRequestInfo : Type; (* tls.CertificateRequestInfo *)
  X509Cert : Type;               (* x509.Certificate *)
  SSHCertificate : Type;         (* ssh.Certificate *)
  PrivateKey : Type;             (* crypto.Signer, here keys.PrivateKey *)
  SSHSignerT : Type;             (* ssh.Signer *)
  PublicKey : Type;              (* ssh.PublicKey *)
  SSHStaticConfig : Type;        (* ssh.ClientConfig built by the identity file *)
}.

(** [identityfile.IdentityFile], with the fields the code reads. *)
Record IdentityFile := mkIdentityFile {
  id_PrivateKey : bytes;
  id_Certs_SSH : bytes;
  id_Certs_TLS : bytes;
  id_CACerts_SSH : list bytes;
  id_CACerts_TLS : list bytes;
}.

Section Model.
Context `{GoTypes}.

(** [x509.CertPool]: the certificates added so far, in order. The library
    drops a certificate that the pool already holds; the pool is only handed
    to [Verify] here, so the repetition is kept. *)
Definition CertPool := list X509Cert.

Definition NewCertPool : CertPool := [].

Definition AddCert (pool : CertPool) (c : X509Cert) : CertPool := pool ++ [c].

(** [tls.ConnectionState], with the fields the code reads. *)
Record ConnectionState := mkConnectionState {
  cs_ServerName : string;
  cs_PeerCertificates : list X509Cert;
}.

(** [x509.VerifyOptions] *)
Record VerifyOptions := mkVerifyOptions {
  vo_DNSName : string;
  vo_Intermediates : CertPool;
  vo_Roots : option CertPool;
}.

(** [DynamicIdentityFileCreds]: the five reloadable fields and [Path]. A
    pointer field is [None] when nil; a nil slice is the empty list. *)
Record DynamicIdentityFileCreds_t := mkDyn {
  tlsCert : option Certificate;
  tlsRootCAs : option CertPool;
  sshCert : option SSHCertificate;
  sshKey : option PrivateKey;
  sshKnownHosts : list PublicKey;
  Path : string;
}.

(** [tls.Config], with the fields the code reads or writes. The two
    callbacks are closures: they run against the provider store of the
    moment they are called. *)
Record Config := mkConfig {
  NextProtos : Slice;
  ServerName : string;
  Certificates : list Certificate;
  GetClientCertificate :
    option (gmap loc DynamicIdentityFileCreds_t → CertificateRequestInfo →
            outcome (option Certificate));
  RootCAs : option CertPool;
  InsecureSkipVerify : bool;
  VerifyConnection :
    option (gmap loc DynamicIdentityFileCreds_t → ConnectionState → outcome unit);
}.

(** [ssh.HostKeyCallback], a function of the host name, the remote address
    and the key the server presents. It is a closure too: it runs against
    the provider store of the moment of the check. *)
Definition HostKeyCallback :=
  gmap loc DynamicIdentityFileCreds_t → string → string → PublicKey → outcome unit.

(** The store of [tls.Config] structs and of string arrays. *)
Record ObjHeap := mkObjHeap {
  cfgs : gmap loc Config;
  arrs : gmap loc (list string);
}.

End Model.

Abbreviation ProvHeap := (gmap loc DynamicIdentityFileCreds_t).
Abbreviation FS := (gmap string bytes).

(** The file system and the log of the paths that were opened. *)
Record World := mkWorld { fs : FS; reads : list string }.

(** ** Collaborators outside this file

    Functions of other packages that [credentials.go] calls. *)

Class Externals `{GoTypes} := {
  (* identityfile.ReadFile *)
  ReadFile : string → FS → result IdentityFile;
  (* identityfile.FromString *)
  FromString : string → result IdentityFile;
  (* IdentityFile.TLSConfig *)
  IdentityFile_TLSConfig : IdentityFile → ObjHeap → ObjHeap * result loc;
  (* IdentityFile.SSHClientConfig *)
  IdentityFile_SSHClientConfig : IdentityFile → result SSHStaticConfig;
  (* keys.X509KeyPair *)
  X509KeyPair : bytes → bytes → result Certificate;
  (* the certificates that CertPool.AppendCertsFromPEM finds in a PEM text *)
  CertsFromPEM : bytes → list X509Cert;
  (* sshutils.ParseCertificate *)
  ParseCertificate : bytes → result SSHCertificate;
  (* keys.ParsePrivateKey *)
  ParsePrivateKey : bytes → result PrivateKey;
  (* sshutils.ParseKnownHosts *)
  ParseKnownHosts : list bytes → result (list PublicKey);
  (* sshutils.SSHSigner *)
  SSHSigner : option SSHCertificate → option PrivateKey → result SSHSignerT;
  (* x509 Certificate.Verify, its error result *)
  Verify : X509Cert → VerifyOptions → option Error;
  (* sshutils.NewHostKeyCallback, given the GetHostCheckers closure *)
  NewHostKeyCallback :
    (ProvHeap → outcome (list PublicKey)) → result HostKeyCallback;
  (* what the host-key check of sshutils decides on the result of a call of
     GetHostCheckers: host name, remote address, presented key *)
  CheckHostKey :
    outcome (list PublicKey) → string → string → PublicKey → outcome unit;
  (* utils.Deduplicate on a string slice *)
  Deduplicate : gmap loc (list string) → Slice → gmap loc (list string) * Slice;
  (* capacity chosen by the runtime when append has to grow: old capacity,
     needed length *)
  growslice : nat → nat → nat;
  (* defaults.DefaultIOTimeout, in nanoseconds *)
  DefaultIOTimeout : Z;
}.

(** ** Slices: [append] *)

Section Append.
Context `{Externals}.

(** [append(s, x)]: in place when the capacity allows, which writes the
    shared backing array just past [len s]; otherwise into a new array. *)
Definition append (a : gmap loc (list string)) (s : Slice) (x : string)
  : gmap loc (list string) * Slice :=
  if decide (len s < cap s) then
    (alter (λ arr, <[off s + len s := x]> arr) (base s) a,
     mkSlice (base s) (off s) (S (len s)) (cap s))
  else
    let l := fresh (dom a) in
    let n := growslice (cap s) (S (len s)) in
    (<[l := slice_elems a s ++ x :: replicate (n - S (len s)) ""]> a,
     mkSlice l 0 (S (len s)) n).

(** [CertPool.AppendCertsFromPEM]: adds the certificates found and
    reports whether there was one. *)
Definition AppendCertsFromPEM (pool : CertPool) (pem : bytes) : CertPool * bool :=
  match CertsFromPEM pem with
  | [] => (pool, false)
  | cs => (pool ++ cs, true)
  end.

End Append.


(** ** [configureTLS] *)

Section ConfigureTLS.
Context `{Externals}.

Definition set_NextProtos (s : Slice) (c : Config) : Config :=
  mkConfig s (ServerName c) (Certificates c) (GetClientCertificate c)
           (RootCAs c) (InsecureSkipVerify c) (VerifyConnection c).

Definition set_ServerName (n : string) (c : Config) : Config :=
  mkConfig (NextProtos c) n (Certificates c) (GetClientCertificate c)
           (RootCAs c) (InsecureSkipVerify c) (VerifyConnection c).

Definition set_Certificates (l : list Certificate) (c : Config) : Config :=
  mkConfig (NextProtos c) (ServerName c) l (GetClientCertificate c)
           (RootCAs c) (InsecureSkipVerify c) (VerifyConnection c).

Definition set_GetClientCertificate
    (f : option (ProvHeap → CertificateRequestInfo → outcome (option Certificate)))
    (c : Config) : Config :=
  mkConfig (NextProtos c) (ServerName c) (Certificates c) f
           (RootCAs c) (InsecureSkipVerify c) (VerifyConnection c).

(** [configureTLS(c)]. [c.Clone()] copies the struct to a new location (the
    slice header of [NextProtos] is copied, its backing array is shared); a
    nil [c] clones to nil and the first field access panics. The local
    [tlsConfig] is the clone, stored at [t] when the function returns. *)
Definition configureTLS (c : loc) (o : ObjHeap) : ObjHeap * outcome loc :=
  match cfgs o !! c with
  | None => (o, Panic)
  | Some orig =>
    let t := fresh (dom (cfgs o)) in
    let tlsConfig := orig in
    (* tlsConfig.NextProtos = utils.Deduplicate(append(tlsConfig.NextProtos, "h2")) *)
    let '(a1, s1) := append (arrs o) (NextProtos tlsConfig) NextProtoTLS in
    let '(a2, s2) := Deduplicate a1 s1 in
    let tlsConfig := set_NextProtos s2 tlsConfig in
    (* if tlsConfig.ServerName == "" { tlsConfig.ServerName = constants.APIDomain } *)
    let tlsConfig :=
      if decide (ServerName tlsConfig = "") then set_ServerName APIDomain tlsConfig
      else tlsConfig in
    (* if len(tlsConfig.Certificates) > 0 { ... } *)
    let tlsConfig :=
      match Certificates tlsConfig with
      | cert :: _ =>
        set_GetClientCertificate (Some (λ _ _, Ret (Some cert)))
          (set_Certificates [] tlsConfig)
      | [] => tlsConfig
      end in
    (mkObjHeap (<[t := tlsConfig]> (cfgs o)) a2, Ret t)
  end.

End ConfigureTLS.

(** ** Static identity-file credentials *)

Module identityCredsFile.
Section Defs.
Context `{Externals}.

Record t := mk { identityFile : option IdentityFile; path : string }.

(** [LoadIdentityFile(path)] *)
Definition LoadIdentityFile (p : string) : t := mk None p.

(** [load]: reads the file only while [identityFile] is nil. The assignment
    [c.identityFile, err = identityfile.ReadFile(c.path)] stores the nil
    pointer that comes with an error. *)
Definition load (c : t) (w : World) : t * World * option Error :=
  match identityFile c with
  | Some _ => (c, w, None)
  | None =>
    let w1 := mkWorld (fs w) (path c :: reads w) in
    match ReadFile (path c) (fs w) with
    | Ok id => (mk (Some id) (path c), w1, None)
    | Err err =>
      (mk None (path c), w1,
       Some (NewBadParameter
               (String.append "identity file could not be decoded: " (message err))))
    end
  end.

Definition TLSConfig (c : t) (o : ObjHeap) (w : World)
  : t * ObjHeap * World * outcome loc :=
  match load c w with
  | (c1, w1, Some err) => (c1, o, w1, Fail (Wrap err))
  | (c1, w1, None) =>
    match identityFile c1 with
    | None => (c1, o, w1, Panic)
    | Some id =>
      match IdentityFile_TLSConfig id o with
      | (o1, Err err) => (c1, o1, w1, Fail (Wrap err))
      | (o1, Ok tlsConfig) =>
        let '(o2, r) := configureTLS tlsConfig o1 in (c1, o2, w1, r)
      end
    end
  end.

Definition SSHClientConfig (c : t) (w : World)
  : t * World * outcome SSHStaticConfig :=
  match load c w with
  | (c1, w1, Some err) => (c1, w1, Fail (Wrap err))
  | (c1, w1, None) =>
    match identityFile c1 with
    | None => (c1, w1, Panic)
    | Some id =>
      match IdentityFile_SSHClientConfig id with
      | Err err => (c1, w1, Fail (Wrap err))
      | Ok sshConfig => (c1, w1, Ret sshConfig)
      end
    end
  end.

End Defs.
End identityCredsFile.

Module identityCredsString.
Section Defs.
Context `{Externals}.

Record t := mk { identityFile : option IdentityFile; content : string }.

(** [LoadIdentityFileFromString(content)] *)
Definition LoadIdentityFileFromString (s : string) : t := mk None s.

(** [load]: parses the string only while [identityFile] is nil. *)
Definition load (c : t) : t * option Error :=
  match identityFile c with
  | Some _ => (c, None)
  | None =>
    match FromString (content c) with
    | Ok id => (mk (Some id) (content c), None)
    | Err err =>
      (mk None (content c),
       Some (NewBadParameter
               (String.append "identity file could not be decoded: " (message err))))
    end
  end.

Definition TLSConfig (c : t) (o : ObjHeap) : t * ObjHeap * outcome loc :=
  match load c with
  | (c1, Some err) => (c1, o, Fail (Wrap err))
  | (c1, None) =>
    match identityFile c1 with
    | None => (c1, o, Panic)
    | Some id =>
      match IdentityFile_TLSConfig id o with
      | (o1, Err err) => (c1, o1, Fail (Wrap err))
      | (o1, Ok tlsConfig) =>
        let '(o2, r) := configureTLS tlsConfig o1 in (c1, o2, r)
      end
    end
  end.

Definition SSHClientConfig (c : t) : t * outcome SSHStaticConfig :=
  match load c with
  | (c1, Some err) => (c1, Fail (Wrap err))
  | (c1, None) =>
    match identityFile c1 with
    | None => (c1, Panic)
    | Some id =>
      match IdentityFile_SSHClientConfig id with
      | Err err => (c1, Fail (Wrap err))
      | Ok sshConfig => (c1, Ret sshConfig)
      end
    end
  end.

End Defs.
End identityCredsString.


(** ** The reloadable provider *)

Module DynamicIdentityFileCreds.
Section Defs.
Context `{Externals}.

(** The loop of [Reload] over [id.CACerts.TLS]: [None] is the early return
    on a PEM text without certificate. *)
Fixpoint appendAll (pool : CertPool) (pems : list bytes) : option CertPool :=
  match pems with
  | [] => Some pool
  | caCerts :: rest =>
    match AppendCertsFromPEM pool caCerts with
    | (pool1, true) => appendAll pool1 rest
    | (_, false) => None
    end
  end.

(** One assignment to a field of the provider. *)
Inductive Assign :=
| Set_tlsRootCAs (pool : CertPool)
| Set_tlsCert (cert : Certificate)
| Set_sshCert (c : SSHCertificate)
| Set_sshKey (k : PrivateKey)
| Set_sshKnownHosts (ks : list PublicKey).

Definition assign (d : DynamicIdentityFileCreds_t) (a : Assign)
  : DynamicIdentityFileCreds_t :=
  match a with
  | Set_tlsRootCAs pool =>
    mkDyn (tlsCert d) (Some pool) (sshCert d) (sshKey d) (sshKnownHosts d) (Path d)
  | Set_tlsCert cert =>
    mkDyn (Some cert) (tlsRootCAs d) (sshCert d) (sshKey d) (sshKnownHosts d) (Path d)
  | Set_sshCert c =>
    mkDyn (tlsCert d) (tlsRootCAs d) (Some c) (sshKey d) (sshKnownHosts d) (Path d)
  | Set_sshKey k =>
    mkDyn (tlsCert d) (tlsRootCAs d) (sshCert d) (Some k) (sshKnownHosts d) (Path d)
  | Set_sshKnownHosts ks =>
    mkDyn (tlsCert d) (tlsRootCAs d) (sshCert d) (sshKey d) ks (Path d)
  end.

(** What one successful load produces: a generation of material. *)
Record Material := mkMaterial {
  m_pool : CertPool;
  m_cert : Certificate;
  m_sshCert : SSHCertificate;
  m_sshKey : PrivateKey;
  m_knownHosts : list PublicKey;
}.

(** The five assignments at the end of [Reload], in the order of the
    source. *)
Definition swap (m : Material) : list Assign :=
  [ Set_tlsRootCAs (m_pool m); Set_tlsCert (m_cert m); Set_sshCert (m_sshCert m);
    Set_sshKey (m_sshKey m); Set_sshKnownHosts (m_knownHosts m) ].

(** [Reload]. Every read and parse comes before the lock is taken; the lock
    itself does nothing in a sequential run. A nil receiver panics at
    [d.Path]. *)
Definition Reload (d : loc) (h : ProvHeap) (w : World)
  : ProvHeap * World * outcome unit :=
  match h !! d with
  | None => (h, w, Panic)
  | Some st =>
    let w1 := mkWorld (fs w) (Path st :: reads w) in
    match ReadFile (Path st) (fs w) with
    | Err err => (h, w1, Fail (Wrap err))
    | Ok id =>
      match X509KeyPair (id_Certs_TLS id) (id_PrivateKey id) with
      | Err err => (h, w1, Fail (Wrap err))
      | Ok cert =>
        match appendAll NewCertPool (id_CACerts_TLS id) with
        | None => (h, w1, Fail (NewBadParameter "invalid CA cert PEM"))
        | Some pool =>
          match ParseCertificate (id_Certs_SSH id) with
          | Err err => (h, w1, Fail (Wrap err))
          | Ok sshCert =>
            match ParsePrivateKey (id_PrivateKey id) with
            | Err err => (h, w1, Fail (Wrap err))
            | Ok sshPrivateKey =>
              match ParseKnownHosts (id_CACerts_SSH id) with
              | Err err => (h, w1, Fail (Wrap err))
              | Ok knownHosts =>
                let m := mkMaterial pool cert sshCert sshPrivateKey knownHosts in
                (<[d := foldl assign st (swap m)]> h, w1, Ret tt)
              end
            end
          end
        end
      end
    end
  end.

(** [NewDynamicIdentityFileCreds(path)]: a new provider with only [Path] set,
    then [Reload]. On an error the result is [nil, err]. *)
Definition NewDynamicIdentityFileCreds (p : string) (h : ProvHeap) (w : World)
  : ProvHeap * World * outcome loc :=
  let d := fresh (dom h) in
  let h0 := <[d := mkDyn None None None None [] p]> h in
  match Reload d h0 w with
  | (h1, w1, Fail err) => (h1, w1, Fail (Wrap err))
  | (h1, w1, Panic) => (h1, w1, Panic)
  | (h1, w1, Ret _) => (h1, w1, Ret d)
  end.

(** The [GetClientCertificate] closure of [TLSConfig]. *)
Definition getClientCertificate (d : loc)
  : ProvHeap → CertificateRequestInfo → outcome (option Certificate) :=
  λ h _,
    match h !! d with
    | None => Panic
    | Some st => Ret (tlsCert st)
    end.

(** The [VerifyConnection] closure of [TLSConfig]. [state.PeerCertificates[1:]]
    and [state.PeerCertificates[0]] panic on an empty slice. *)
Definition verifyConnection (d : loc) : ProvHeap → ConnectionState → outcome unit :=
  λ h state,
    match h !! d with
    | None => Panic
    | Some st =>
      match cs_PeerCertificates state with
      | [] => Panic
      | leaf :: rest =>
        let opts :=
          mkVerifyOptions (cs_ServerName state) (foldl AddCert NewCertPool rest)
                          (tlsRootCAs st) in
        match Verify leaf opts with
        | None => Ret tt
        | Some err => Fail err
        end
      end
    end.

(** [TLSConfig]: a new [tls.Config] whose callbacks capture the pointer [d]. *)
Definition TLSConfig (d : loc) (o : ObjHeap) : ObjHeap * outcome loc :=
  let a := fresh (dom (arrs o)) in
  let c := fresh (dom (cfgs o)) in
  let cfg :=
    mkConfig (mkSlice a 0 1 1) APIDomain []
             (Some (getClientCertificate d)) None true
             (Some (verifyConnection d)) in
  (mkObjHeap (<[c := cfg]> (cfgs o)) (<[a := [NextProtoTLS]]> (arrs o)), Ret c).

(** [ssh.ClientConfig], with the fields [SSHClientConfig] sets. *)
Record ClientConfig := mkClientConfig {
  Auth : list (ProvHeap → outcome (list SSHSignerT));
  HostKeyCallback_ : HostKeyCallback;
  Timeout : Z;
  User : string;
}.

(** The [GetHostCheckers] closure handed to [sshutils.NewHostKeyCallback]. *)
Definition getHostCheckers (d : loc) : ProvHeap → outcome (list PublicKey) :=
  λ h,
    match h !! d with
    | None => Panic
    | Some st => Ret (sshKnownHosts st)
    end.

(** The closure given to [ssh.PublicKeysCallback]. *)
Definition publicKeysCallback (d : loc) : ProvHeap → outcome (list SSHSignerT) :=
  λ h,
    match h !! d with
    | None => Panic
    | Some st =>
      match SSHSigner (sshCert st) (sshKey st) with
      | Err err => Fail (Wrap err)
      | Ok sshSigner => Ret [sshSigner]
      end
    end.

Definition SSHClientConfig (d : loc) : outcome ClientConfig :=
  match NewHostKeyCallback (getHostCheckers d) with
  | Err err => Fail (Wrap err)
  | Ok hostKeyCallback =>
    Ret (mkClientConfig [publicKeysCallback d] hostKeyCallback DefaultIOTimeout
                        "-teleport-internal-join")
  end.

(** A run of reloads of the provider [d], the environment rewriting the file
    system before each of them: the final store when every one succeeds. *)
Fixpoint reloads (d : loc) (h : ProvHeap) (w : World) (fss : list FS)
  : option (ProvHeap * World) :=
  match fss with
  | [] => Some (h, w)
  | fs1 :: rest =>
    match Reload d h (mkWorld fs1 (reads w)) with
    | (h1, w1, Ret _) => reloads d h1 w1 rest
    | _ => None
    end
  end.

End Defs.
End DynamicIdentityFileCreds.


(** ** Notions the properties are stated with *)

Section SpecDefs.
Context `{Externals}.
Import DynamicIdentityFileCreds.

(** A slice is well formed in an array store: within its capacity, and the
    capacity within the backing array. The nil slice is well formed. *)
Definition slice_wf (a : gmap loc (list string)) (s : Slice) : Prop :=
  len s ≤ cap s ∧
  (cap s = 0 ∨ ∃ arr, a !! base s = Some arr ∧ off s + cap s ≤ length arr).


(** The identity file at [p] cannot be read, or one of its five pieces does
    not parse. *)
Inductive load_fails (p : string) (f : FS) : Prop :=
| fails_read err :
    ReadFile p f = Err err → load_fails p f
| fails_x509_keypair id err :
    ReadFile p f = Ok id →
    X509KeyPair (id_Certs_TLS id) (id_PrivateKey id) = Err err → load_fails p f
| fails_root_pem id pem :
    ReadFile p f = Ok id →
    pem ∈ id_CACerts_TLS id → CertsFromPEM pem = [] → load_fails p f
| fails_ssh_certificate id err :
    ReadFile p f = Ok id →
    ParseCertificate (id_Certs_SSH id) = Err err → load_fails p f
| fails_ssh_private_key id err :
    ReadFile p f = Ok id →
    ParsePrivateKey (id_PrivateKey id) = Err err → load_fails p f
| fails_known_hosts id err :
    ReadFile p f = Ok id →
    ParseKnownHosts (id_CACerts_SSH id) = Err err → load_fails p f.

(** The identity [id] parses to the material [m]. *)
Definition parses_to (id : IdentityFile) (m : Material) : Prop :=
  X509KeyPair (id_Certs_TLS id) (id_PrivateKey id) = Ok (m_cert m) ∧
  appendAll NewCertPool (id_CACerts_TLS id) = Some (m_pool m) ∧
  ParseCertificate (id_Certs_SSH id) = Ok (m_sshCert m) ∧
  ParsePrivateKey (id_PrivateKey id) = Ok (m_sshKey m) ∧
  ParseKnownHosts (id_CACerts_SSH id) = Ok (m_knownHosts m).

(** The provider holding exactly the generation [m]. *)
Definition of_material (p : string) (m : Material) : DynamicIdentityFileCreds_t :=
  mkDyn (Some (m_cert m)) (Some (m_pool m)) (Some (m_sshCert m))
        (Some (m_sshKey m)) (m_knownHosts m) p.

(** The verdict of a verification with the given options. *)
Definition verdict (leaf : X509Cert) (opts : VerifyOptions) : outcome unit :=
  match Verify leaf opts with
  | None => Ret tt
  | Some err => Fail err
  end.

(** What the static credentials build from a parsed identity:
    [id.TLSConfig()] passed through [configureTLS], and
    [id.SSHClientConfig()]. *)
Definition tls_from_identity (id : IdentityFile) (o : ObjHeap)
  : ObjHeap * outcome loc :=
  match IdentityFile_TLSConfig id o with
  | (o1, Err err) => (o1, Fail (Wrap err))
  | (o1, Ok tlsConfig) => configureTLS tlsConfig o1
  end.

Definition ssh_from_identity (id : IdentityFile) : outcome SSHStaticConfig :=
  match IdentityFile_SSHClientConfig id with
  | Err err => Fail (Wrap err)
  | Ok sshConfig => Ret sshConfig
  end.

(** A call of [TLSConfig] or [SSHClientConfig] on the static file
    credentials [c] succeeds and leaves the credentials [c1] and the world
    [w1]. *)
Inductive file_call_succeeds (c : identityCredsFile.t) (w : World)
    (c1 : identityCredsFile.t) (w1 : World) : Prop :=
| file_tls_succeeds o o1 t :
    identityCredsFile.TLSConfig c o w = (c1, o1, w1, Ret t) →
    file_call_succeeds c w c1 w1
| file_ssh_succeeds s :
    identityCredsFile.SSHClientConfig c w = (c1, w1, Ret s) →
    file_call_succeeds c w c1 w1.

(** The same for the credentials made from a string. *)
Inductive string_call_succeeds (c c1 : identityCredsString.t) : Prop :=
| string_tls_succeeds o o1 t :
    identityCredsString.TLSConfig c o = (c1, o1, Ret t) →
    string_call_succeeds c c1
| string_ssh_succeeds s :
    identityCredsString.SSHClientConfig c = (c1, Ret s) →
    string_call_succeeds c c1.

(** The reading of the error contract that tells an unavailable input from
    a malformed one by the class of the surfaced error, for the static file
    credentials: a missing file and an unparsable one surface in different
    classes. *)
Definition static_file_errors_tell_apart : Prop :=
  ∀ (p : string) (o : ObjHeap) (w1 w2 : World) (e1 e2 s1 s2 : Error),
    ReadFile p (fs w1) = Err e1 → kind e1 = NotFound →
    ReadFile p (fs w2) = Err e2 → kind e2 = BadParameter →
    (identityCredsFile.TLSConfig (identityCredsFile.LoadIdentityFile p) o w1).2
      = Fail s1 →
    (identityCredsFile.TLSConfig (identityCredsFile.LoadIdentityFile p) o w2).2
      = Fail s2 →
    kind s1 ≠ kind s2.

(** The connection states that [crypto/tls] hands to the [VerifyConnection]
    callback of a client using the configuration [cfg]. A client sends the
    [ServerName] of its configuration to the server and reports it as the
    [ServerName] of the connection state, whatever address was dialled; and
    it runs the callback only once the server has presented its
    certificates. [crypto/tls] is the standard library, outside this
    repository. *)
Definition handshake_state (cfg : Config) (state : ConnectionState) : Prop :=
  cs_ServerName state = ServerName cfg ∧ cs_PeerCertificates state ≠ [].

(** Modelled from the spec: [sshutils.NewHostKeyCallback] is not under src.
    The host-key callback it returns reads the known hosts through the
    [GetHostCheckers] closure it was given, at the time of each
    verification, and decides on what that call returns. *)
Definition NewHostKeyCallback_reads_at_verification : Prop :=
  ∀ get cb, NewHostKeyCallback get = Ok cb →
    ∀ h host remote key,
      cb h host remote key = CheckHostKey (get h) host remote key.

End SpecDefs.


(** ** The provider under concurrent use

    [Reload], once its material is parsed, takes the write lock, assigns the
    five fields and unlocks; every callback takes the read lock, reads its
    fields and unlocks. Threads running these sections against one provider
    interleave instruction by instruction.

    The lock is a [sync.RWMutex] of the Go standard library. [Lock] has two
    moments: the writer first passes the mutex of the writers and announces
    itself to the readers, then waits until the readers that hold the lock
    have left. From the announcement until [Unlock] a call of [RLock]
    blocks, so that readers that keep arriving cannot keep the writer out. *)

Module Concurrent.
Section Defs.
Context `{Externals}.
Import DynamicIdentityFileCreds.

Inductive Field := F_tlsRootCAs | F_tlsCert | F_sshCert | F_sshKey | F_sshKnownHosts.

(** The value a read of a field yields. *)
Inductive Val :=
| V_tlsRootCAs (v : option CertPool)
| V_tlsCert (v : option Certificate)
| V_sshCert (v : option SSHCertificate)
| V_sshKey (v : option PrivateKey)
| V_sshKnownHosts (v : list PublicKey).

Definition read (f : Field) (d : DynamicIdentityFileCreds_t) : Val :=
  match f with
  | F_tlsRootCAs => V_tlsRootCAs (tlsRootCAs d)
  | F_tlsCert => V_tlsCert (tlsCert d)
  | F_sshCert => V_sshCert (sshCert d)
  | F_sshKey => V_sshKey (sshKey d)
  | F_sshKnownHosts => V_sshKnownHosts (sshKnownHosts d)
  end.

Inductive Instr :=
| Lock_announce (* d.mu.Lock(): past the writers' mutex, announced to readers *)
| Lock_wait     (* d.mu.Lock(): the wait for the readers holding the lock *)
| Unlock        (* d.mu.Unlock() *)
| RLock         (* d.mu.RLock() *)
| RUnlock       (* d.mu.RUnlock() *)
| Store (a : Assign)
| Load (f : Field).

(** [d.mu.Lock()] *)
Definition Lock : list Instr := [Lock_announce; Lock_wait].

(** The tail of [Reload] for the parsed material [m]: lock, the five
    assignments of [swap], deferred unlock. *)
Definition Reload_locked (m : Material) : list Instr :=
  Lock ++ (Store <$> swap m) ++ [Unlock].

Inductive Callback :=
| GetClientCertificate_cb
| VerifyConnection_cb
| GetHostCheckers_cb
| PublicKeysCallback_cb.

(** The fields each callback reads while it holds the read lock. *)
Definition callback_loads (cb : Callback) : list Field :=
  match cb with
  | GetClientCertificate_cb => [F_tlsCert]
  | VerifyConnection_cb => [F_tlsRootCAs]
  | GetHostCheckers_cb => [F_sshKnownHosts]
  | PublicKeysCallback_cb => [F_sshCert; F_sshKey]
  end.

Definition callback_code (cb : Callback) : list Instr :=
  RLock :: (Load <$> callback_loads cb) ++ [RUnlock].

(** [sync.RWMutex]: whether a writer holds it, whether a writer has
    announced itself and waits for the readers to leave, and how many
    readers hold it. *)
Record RWMutex := mkRW { writer : bool; pending : bool; readers : nat }.

(** What one read section saw. [began] is the number of reloads that had
    completed when the read lock was taken, which is the index in [history]
    of the generation current at that moment. *)
Record ReadSection := mkSec { began : nat; seen : list (Field * Val) }.

(** A thread: the instructions left to run and the read sections so far,
    the latest first. *)
Record Thread := mkThread { code : list Instr; log : list ReadSection }.

(** The provider, its lock, the threads, and the record of generations: the
    initial fields followed by the fields at each release of the write lock.
    No step depends on [history] or on a [log]; they record the run. *)
Record Conf := mkConf {
  store : DynamicIdentityFileCreds_t;
  mu : RWMutex;
  threads : list Thread;
  history : list DynamicIdentityFileCreds_t;
}.

Definition note (now : nat) (f : Field) (v : Val) (l : list ReadSection)
  : list ReadSection :=
  match l with
  | [] => [mkSec now [(f, v)]]
  | sec :: rest => mkSec (began sec) (seen sec ++ [(f, v)]) :: rest
  end.

(** Thread [n], at instruction [i] with [k] left after it, takes a step if
    the lock lets it. A writer announces itself when no other writer has
    the lock or has announced itself, and then has the lock once no reader
    holds it; [RLock] waits while a writer holds the lock or has announced
    itself; unlocking a lock that is not held is fatal in Go and has no step
    here. *)
Definition run_instr (n : nat) (t : Thread) (i : Instr) (k : list Instr)
    (c : Conf) : option Conf :=
  let now := pred (length (history c)) in
  match i with
  | Lock_announce =>
    if writer (mu c) || pending (mu c) then None
    else
      Some (mkConf (store c) (mkRW false true (readers (mu c)))
                   (<[n := mkThread k (log t)]> (threads c)) (history c))
  | Lock_wait =>
    match readers (mu c) with
    | 0 =>
      Some (mkConf (store c) (mkRW true false 0)
                   (<[n := mkThread k (log t)]> (threads c)) (history c))
    | S _ => None
    end
  | Unlock =>
    if writer (mu c) then
      Some (mkConf (store c) (mkRW false false (readers (mu c)))
                   (<[n := mkThread k (log t)]> (threads c))
                   (history c ++ [store c]))
    else None
  | RLock =>
    if writer (mu c) || pending (mu c) then None
    else
      Some (mkConf (store c) (mkRW false false (S (readers (mu c))))
                   (<[n := mkThread k (mkSec now [] :: log t)]> (threads c))
                   (history c))
  | RUnlock =>
    match readers (mu c) with
    | 0 => None
    | S r =>
      Some (mkConf (store c) (mkRW (writer (mu c)) (pending (mu c)) r)
                   (<[n := mkThread k (log t)]> (threads c)) (history c))
    end
  | Store a =>
    Some (mkConf (assign (store c) a) (mu c)
                 (<[n := mkThread k (log t)]> (threads c)) (history c))
  | Load f =>
    Some (mkConf (store c) (mu c)
                 (<[n := mkThread k (note now f (read f (store c)) (log t))]>
                    (threads c))
                 (history c))
  end.

Definition step_thread (n : nat) (c : Conf) : option Conf :=
  match threads c !! n with
  | Some t =>
    match code t with
    | i :: k => run_instr n t i k c
    | [] => None
    end
  | None => None
  end.

(** One step of some thread. *)
Definition step (c c' : Conf) : Prop := ∃ n, step_thread n c = Some c'.

(** The start: the provider holds [st0], nobody holds the lock; one thread
    per reload, each with its parsed material, and one thread per
    connection, each calling a sequence of callbacks. *)
Definition init (st0 : DynamicIdentityFileCreds_t) (ms : list Material)
    (conns : list (list Callback)) : Conf :=
  mkConf st0 (mkRW false false 0)
         (((λ m, mkThread (Reload_locked m) []) <$> ms) ++
          ((λ cbs, mkThread (concat (callback_code <$> cbs)) []) <$> conns))
         [st0].

(** A schedule: the thread to step at each turn; a turn of a thread that
    cannot move is skipped. *)
Fixpoint run (sched : list nat) (c : Conf) : Conf :=
  match sched with
  | [] => c
  | n :: rest =>
    match step_thread n c with
    | Some c' => run rest c'
    | None => run rest c
    end
  end.

(** *** Notions for the invariant *)

Inductive Mode := Unlocked | Reading | Waiting | Writing.

#[global] Instance Mode_eq_dec : EqDecision Mode.
Proof. solve_decision. Defined.

(** Which lock a thread holds, read off the code it has left; [Waiting]
    is the writer that has announced itself. *)
Fixpoint mode_of (k : list Instr) : Mode :=
  match k with
  | Load _ :: k' => mode_of k'
  | Store _ :: k' => mode_of k'
  | RUnlock :: _ => Reading
  | Unlock :: _ => Writing
  | Lock_wait :: _ => Waiting
  | _ => Unlocked
  end.

Definition weight (M : Mode) (t : Thread) : nat :=
  if decide (mode_of (code t) = M) then 1 else 0.

Fixpoint count (M : Mode) (ts : list Thread) : nat :=
  match ts with
  | [] => 0
  | t :: rest => weight M t + count M rest
  end.

Inductive Role := Reloader (m : Material) | Connection.

Definition roles (ms : list Material) (conns : list (list Callback)) : list Role :=
  (Reloader <$> ms) ++ ((λ _, Connection) <$> conns).

(** A read section saw one generation only: the one with index [began]. *)
Definition section_ok (hist : list DynamicIdentityFileCreds_t)
    (sec : ReadSection) : Prop :=
  ∃ g, hist !! began sec = Some g ∧ ∀ f v, (f, v) ∈ seen sec → v = read f g.

Definition thread_inv (p : string) (s : DynamicIdentityFileCreds_t)
    (hist : list DynamicIdentityFileCreds_t) (r : Role) (t : Thread) : Prop :=
  Forall (section_ok hist) (log t) ∧
  match r with
  | Reloader m =>
    code t = Reload_locked m ∨
    code t = Lock_wait :: (Store <$> swap m) ++ [Unlock] ∨
    (∃ k, k ≤ 5 ∧ code t = (Store <$> drop k (swap m)) ++ [Unlock] ∧
          foldl assign s (take k (swap m)) = s) ∨
    (code t = [] ∧ of_material p m ∈ hist)
  | Connection =>
    (∃ cbs, code t = concat (callback_code <$> cbs)) ∨
    (∃ fs cbs sec rest,
        code t = (Load <$> fs) ++ RUnlock :: concat (callback_code <$> cbs) ∧
        log t = sec :: rest ∧ began sec = pred (length hist))
  end.

Record inv (st0 : DynamicIdentityFileCreds_t) (ms : list Material)
    (conns : list (list Callback)) (c : Conf) : Prop := mkInv {
  inv_path : Path (store c) = Path st0;
  inv_hist :
    Forall (λ g, g = st0 ∨ ∃ m, m ∈ ms ∧ g = of_material (Path st0) m) (history c);
  inv_last : writer (mu c) = false → last (history c) = Some (store c);
  inv_readers : readers (mu c) = count Reading (threads c);
  inv_writers : count Writing (threads c) = (if writer (mu c) then 1 else 0);
  inv_waiting : count Waiting (threads c) = (if pending (mu c) then 1 else 0);
  inv_excl : writer (mu c) = true → readers (mu c) = 0 ∧ pending (mu c) = false;
  inv_threads :
    Forall2 (thread_inv (Path st0) (store c) (history c)) (roles ms conns)
            (threads c);
}.

(** The reading of the ordering contract with the connection attempt as the
    unit of a read: all that one connection has read, over the callbacks it
    has called, comes from one generation on record. *)
Definition attempt_sees_one_generation : Prop :=
  ∀ (st0 : DynamicIdentityFileCreds_t) (ms : list Material)
    (conns : list (list Callback)) (sched : list nat) (t : Thread),
    let c := run sched (init st0 ms conns) in
    t ∈ threads c →
    ∃ g, g ∈ history c ∧
      ∀ sec f v, sec ∈ log t → (f, v) ∈ seen sec → v = read f g.

End Defs.
End Concurrent.


(** ** The other credentials of the file *)

(** [client.Config], with the fields [profileCreds.Dialer] reads. *)
Module client.

Record Config := mkConfig {
  KeepAlivePeriod : Z;
  DialTimeout : Z;
  InsecureAddressDiscovery : bool;
}.

End client.

(** Collaborators of the credentials made from a [tls.Config], from a key
    pair on disk and from a tsh profile. *)
Class MoreExternals `{Externals} := {
  (* profile.Profile *)
  Profile : Type;
  (* the ContextDialer that NewProxyDialer builds *)
  ContextDialer : Type;
  (* tls.LoadX509KeyPair *)
  LoadX509KeyPair : string → string → FS → result Certificate;
  (* os.ReadFile *)
  os_ReadFile : string → FS → result bytes;
  (* trace.ConvertSystemError *)
  ConvertSystemError : Error → Error;
  (* profile.FromDir *)
  FromDir : string → string → FS → result Profile;
  (* Profile.TLSConfig *)
  Profile_TLSConfig : Profile → ObjHeap → ObjHeap * result loc;
  (* Profile.SSHClientConfig *)
  Profile_SSHClientConfig : Profile → result SSHStaticConfig;
  (* the WebProxyAddr field of a profile *)
  WebProxyAddr : Profile → string;
  (* NewProxyDialer, the last argument being the WithTLSConfig option *)
  NewProxyDialer : SSHStaticConfig → Z → Z → string → bool → loc → ContextDialer;
}.

Module tlsConfigCreds.
Section Defs.
Context `{MoreExternals}.

(** The pointer to the [tls.Config] given to [LoadTLS]; [None] is nil. *)
Record t := mk { tlsConfig : option loc }.

Definition LoadTLS (c : option loc) : t := mk c.

Definition Dialer (c : t) (cfg : client.Config) : result ContextDialer :=
  Err (NewNotImplemented "no dialer").

Definition TLSConfig (c : t) (o : ObjHeap) : ObjHeap * outcome loc :=
  match tlsConfig c with
  | None => (o, Fail (NewBadParameter "tls config is nil"))
  | Some p => configureTLS p o
  end.

Definition SSHClientConfig (c : t) : result SSHStaticConfig :=
  Err (NewNotImplemented "no ssh config").

End Defs.
End tlsConfigCreds.

Module keypairCreds.
Section Defs.
Context `{MoreExternals}.

Record t := mk { certFile : string; keyFile : string; caFile : string }.

Definition LoadKeyPair (cert key ca : string) : t := mk cert key ca.

Definition Dialer (c : t) (cfg : client.Config) : result ContextDialer :=
  Err (NewNotImplemented "no dialer").

(** [TLSConfig]: the three files are read on every call; the struct literal
    [&tls.Config{Certificates: ..., RootCAs: pool}] is a new struct. *)
Definition TLSConfig (c : t) (o : ObjHeap) (f : FS) : ObjHeap * outcome loc :=
  match LoadX509KeyPair (certFile c) (keyFile c) f with
  | Err err => (o, Fail (Wrap err))
  | Ok cert =>
    match os_ReadFile (caFile c) f with
    | Err err => (o, Fail (ConvertSystemError err))
    | Ok cas =>
      match AppendCertsFromPEM NewCertPool cas with
      | (_, false) => (o, Fail (NewBadParameter "invalid TLS CA cert PEM"))
      | (pool, true) =>
        let p := fresh (dom (cfgs o)) in
        let lit := mkConfig nilSlice "" [cert] None (Some pool) false None in
        configureTLS p (mkObjHeap (<[p := lit]> (cfgs o)) (arrs o))
      end
    end
  end.

Definition SSHClientConfig (c : t) : result SSHStaticConfig :=
  Err (NewNotImplemented "no ssh config").

End Defs.
End keypairCreds.

Module profileCreds.
Section Defs.
Context `{MoreExternals}.

Record t := mk { dir : string; name : string; profile : option Profile }.

Definition LoadProfile (d n : string) : t := mk d n None.

(** [load]: reads the profile directory only while [profile] is nil. *)
Definition load (c : t) (w : World) : t * World * option Error :=
  match profile c with
  | Some _ => (c, w, None)
  | None =>
    let w1 := mkWorld (fs w) (dir c :: reads w) in
    match FromDir (dir c) (name c) (fs w) with
    | Ok p => (mk (dir c) (name c) (Some p), w1, None)
    | Err err =>
      (mk (dir c) (name c) None, w1,
       Some (NewBadParameter
               (String.append "profile could not be decoded: " (message err))))
    end
  end.

Definition TLSConfig (c : t) (o : ObjHeap) (w : World)
  : t * ObjHeap * World * outcome loc :=
  match load c w with
  | (c1, w1, Some err) => (c1, o, w1, Fail (Wrap err))
  | (c1, w1, None) =>
    match profile c1 with
    | None => (c1, o, w1, Panic)
    | Some p =>
      match Profile_TLSConfig p o with
      | (o1, Err err) => (c1, o1, w1, Fail (Wrap err))
      | (o1, Ok tlsConfig) =>
        let '(o2, r) := configureTLS tlsConfig o1 in (c1, o2, w1, r)
      end
    end
  end.

Definition SSHClientConfig (c : t) (w : World)
  : t * World * outcome SSHStaticConfig :=
  match load c w with
  | (c1, w1, Some err) => (c1, w1, Fail (Wrap err))
  | (c1, w1, None) =>
    match profile c1 with
    | None => (c1, w1, Panic)
    | Some p =>
      match Profile_SSHClientConfig p with
      | Err err => (c1, w1, Fail (Wrap err))
      | Ok sshConfig => (c1, w1, Ret sshConfig)
      end
    end
  end.

(** [Dialer]: the SSH configuration first, which loads the profile; then
    the TLS configuration of the profile as it is, not passed through
    [configureTLS]. *)
Definition Dialer (c : t) (cfg : client.Config) (o : ObjHeap) (w : World)
  : t * ObjHeap * World * outcome ContextDialer :=
  match SSHClientConfig c w with
  | (c1, w1, Fail err) => (c1, o, w1, Fail (Wrap err))
  | (c1, w1, Panic) => (c1, o, w1, Panic)
  | (c1, w1, Ret sshConfig) =>
    match profile c1 with
    | None => (c1, o, w1, Panic)
    | Some p =>
      match Profile_TLSConfig p o with
      | (o1, Err err) => (c1, o1, w1, Fail (Wrap err))
      | (o1, Ok tlsConfig) =>
        (c1, o1, w1,
         Ret (NewProxyDialer sshConfig (client.KeepAlivePeriod cfg)
                (client.DialTimeout cfg) (WebProxyAddr p)
                (client.InsecureAddressDiscovery cfg) tlsConfig))
      end
    end
  end.

End Defs.
End profileCreds.

(** The [Dialer] methods of the identity-file credentials and of the
    reloadable provider. *)
Section OtherDialers.
Context `{MoreExternals}.

Definition identityCredsFile_Dialer (c : identityCredsFile.t) (cfg : client.Config)
  : result ContextDialer :=
  Err (NewNotImplemented "no dialer").

Definition identityCredsString_Dialer (c : identityCredsString.t)
    (cfg : client.Config) : result ContextDialer :=
  Err (NewNotImplemented "no dialer").

Definition DynamicIdentityFileCreds_Dialer (d : loc) (cfg : client.Config)
  : result ContextDialer :=
  Err (NewNotImplemented "no dialer").

End OtherDialers.

(** ** Notions the further properties are stated with *)

Section MoreSpecDefs.
Context `{Externals}.

(** The fields of the clone that [configureTLS] returns, but for the
    [NextProtos] slice [s]. *)
Definition clone_of (s : Slice) (cfg : Config) : Config :=
  mkConfig s
    (if decide (ServerName cfg = "") then APIDomain else ServerName cfg)
    []
    (match Certificates cfg with
     | cert :: _ => Some (λ _ _, Ret (Some cert))
     | [] => GetClientCertificate cfg
     end)
    (RootCAs cfg) (InsecureSkipVerify cfg) (VerifyConnection cfg).

(** [utils.Deduplicate] returns a slice with the members of its argument. *)
Definition Deduplicate_keeps_members : Prop :=
  ∀ a s a' s', Deduplicate a s = (a', s') →
    ∀ x, x ∈ slice_elems a' s' ↔ x ∈ slice_elems a s.

End MoreSpecDefs.

Section ProfileSpecDefs.
Context `{MoreExternals}.

(** What [profileCreds] builds from a loaded profile. *)
Definition tls_from_profile (p : Profile) (o : ObjHeap) : ObjHeap * outcome loc :=
  match Profile_TLSConfig p o with
  | (o1, Err err) => (o1, Fail (Wrap err))
  | (o1, Ok tlsConfig) => configureTLS tlsConfig o1
  end.

Definition ssh_from_profile (p : Profile) : outcome SSHStaticConfig :=
  match Profile_SSHClientConfig p with
  | Err err => Fail (Wrap err)
  | Ok sshConfig => Ret sshConfig
  end.

Definition dialer_from_profile (p : Profile) (cfg : client.Config) (o : ObjHeap)
  : ObjHeap * outcome ContextDialer :=
  match Profile_SSHClientConfig p with
  | Err err => (o, Fail (Wrap (Wrap err)))
  | Ok sshConfig =>
    match Profile_TLSConfig p o with
    | (o1, Err err) => (o1, Fail (Wrap err))
    | (o1, Ok tlsConfig) =>
      (o1, Ret (NewProxyDialer sshConfig (client.KeepAlivePeriod cfg)
                  (client.DialTimeout cfg) (WebProxyAddr p)
                  (client.InsecureAddressDiscovery cfg) tlsConfig))
    end
  end.

(** A call of [TLSConfig], [SSHClientConfig] or [Dialer] on the profile
    credentials [c] succeeds and leaves the credentials [c1] and the world
    [w1]. *)
Inductive profile_call_succeeds (c : profileCreds.t) (w : World)
    (c1 : profileCreds.t) (w1 : World) : Prop :=
| profile_tls_succeeds o o1 t :
    profileCreds.TLSConfig c o w = (c1, o1, w1, Ret t) →
    profile_call_succeeds c w c1 w1
| profile_ssh_succeeds s :
    profileCreds.SSHClientConfig c w = (c1, w1, Ret s) →
    profile_call_succeeds c w c1 w1
| profile_dialer_succeeds cfg o o1 dl :
    profileCreds.Dialer c cfg o w = (c1, o1, w1, Ret dl) →
    profile_call_succeeds c w c1 w1.

End ProfileSpecDefs.


(** ** Notions for progress and completion of the concurrent runs *)

Section ConcurrentMoreDefs.
Context `{Externals}.
Import DynamicIdentityFileCreds Concurrent.

(** The instructions all threads have left to run. *)
Fixpoint work_of (ts : list Thread) : nat :=
  match ts with
  | [] => 0
  | t :: rest => length (code t) + work_of rest
  end.

Definition work (c : Conf) : nat := work_of (threads c).

(** Every thread has run to its end. *)
Definition finished (c : Conf) : Prop := Forall (λ t, code t = []) (threads c).

(** The schedule that gives each of [k] threads a turn, in order, [rounds]
    times over. *)
Definition round_robin (k rounds : nat) : list nat :=
  concat (replicate rounds (seq 0 k)).

(** The record of generations is the initial fields followed by
    generations of the reloads only, at least one as soon as a reload has
    run to its end. *)
Definition tail_inv (st0 : DynamicIdentityFileCreds_t) (ms : list Material)
    (c : Conf) : Prop :=
  ∃ tl,
    history c = st0 :: tl ∧
    Forall (λ g, ∃ m, m ∈ ms ∧ g = of_material (Path st0) m) tl ∧
    (∀ i m t, ms !! i = Some m → threads c !! i = Some t → code t = [] → tl ≠ []).

End ConcurrentMoreDefs.


(** ** A small concrete instance of the collaborators

    Used to run the definitions on concrete inputs. Every identity file is a
    single word that becomes each of its five pieces; some words make one of
    the parsers fail. *)

Module Toy.

#[export] Instance types : GoTypes := {|
  Certificate := string;
  CertificateRequestInfo := unit;
  X509Cert := string * string;   (* DNS name, issuer *)
  SSHCertificate := string;
  PrivateKey := string;
  SSHSignerT := string * string;
  PublicKey := string;
  SSHStaticConfig := string;
|}.

Definition decode (content : string) : result IdentityFile :=
  if decide (content = "garbage") then
    Err (mkError BadParameter "could not parse identity file" 1)
  else Ok (mkIdentityFile content content content [content] [content]).

Definition readFile (p : string) (f : FS) : result IdentityFile :=
  match f !! p with
  | None => Err (mkError NotFound "no such file or directory" 1)
  | Some content => decode content
  end.

Definition failing_on {A} (bad : string) (f : string → A) (s : string) : result A :=
  if decide (s = bad) then Err (mkError Raw (String.append "cannot parse " bad) 0)
  else Ok (f s).

Definition verify (leaf : string * string) (opts : VerifyOptions) : option Error :=
  match vo_Roots opts with
  | None => Some (mkError Raw "x509: certificate signed by unknown authority" 0)
  | Some roots =>
    if decide (leaf.1 = vo_DNSName opts) then
      if decide (leaf.2 ∈ (fst <$> (roots ++ vo_Intermediates opts))) then None
      else Some (mkError Raw "x509: certificate signed by unknown authority" 0)
    else Some (mkError Raw "x509: certificate is not valid for the name" 0)
  end.

Fixpoint dedup (seen l : list string) : list string :=
  match l with
  | [] => []
  | x :: r => if decide (x ∈ seen) then dedup seen r else x :: dedup (x :: seen) r
  end.

Definition deduplicate (a : gmap loc (list string)) (s : Slice)
  : gmap loc (list string) * Slice :=
  if decide (len s ≤ 1) then (a, s)
  else
    let out := dedup [] (slice_elems a s) in
    let l := fresh (dom a) in
    (<[l := out ++ replicate (len s - length out) ""]> a,
     mkSlice l 0 (length out) (len s)).

Definition identityTLSConfig (idf : IdentityFile) (o : ObjHeap)
  : ObjHeap * result loc :=
  match failing_on "bad-tls" id (id_Certs_TLS idf) with
  | Err err => (o, Err err)
  | Ok cert =>
    let c := fresh (dom (cfgs o)) in
    (mkObjHeap
       (<[c := mkConfig nilSlice "" [cert] None (Some [(cert, cert)]) false None]>
          (cfgs o))
       (arrs o),
     Ok c)
  end.

Definition checkHostKey (checkers : outcome (list string))
    (host remote key : string) : outcome unit :=
  match checkers with
  | Ret ks =>
    if decide (key ∈ ks) then Ret tt
    else Fail (mkError Raw "ssh: no authorities for hostname" 0)
  | Fail err => Fail err
  | Panic => Panic
  end.

Definition sshSigner (c k : option string) : result (string * string) :=
  match c, k with
  | Some c, Some k =>
    if decide (k = "corrupt") then Err (mkError Raw "ssh: unsupported key" 0)
    else Ok (c, k)
  | _, _ => Err (mkError Raw "ssh: missing certificate or key" 0)
  end.

#[export] Instance externals : Externals := {|
  ReadFile := readFile;
  FromString := decode;
  IdentityFile_TLSConfig := identityTLSConfig;
  IdentityFile_SSHClientConfig := λ idf, failing_on "bad-ssh" id (id_Certs_SSH idf);
  X509KeyPair := λ cert _, failing_on "bad-tls" id cert;
  CertsFromPEM := λ pem, if decide (pem = "bad-pem") then [] else [(pem, pem)];
  ParseCertificate := failing_on "bad-ssh" id;
  ParsePrivateKey := failing_on "bad-key" id;
  ParseKnownHosts := λ l,
    if decide ("bad-hosts" ∈ l) then Err (mkError Raw "cannot parse bad-hosts" 0)
    else Ok l;
  SSHSigner := sshSigner;
  Verify := verify;
  NewHostKeyCallback := λ get,
    Ok (λ h host remote key, checkHostKey (get h) host remote key);
  CheckHostKey := checkHostKey;
  Deduplicate := deduplicate;
  growslice := λ old needed, needed `max` (2 * old);
  DefaultIOTimeout := 30000000000%Z;
|}.

(** Two file systems and a store to run on. *)
Definition fsA : FS := {[ "/id" := "alice" ]}.
Definition fsB : FS := {[ "/id" := "bob" ]}.
Definition w0 (f : FS) : World := mkWorld f [].
Definition emptyObj : ObjHeap := mkObjHeap ∅ ∅.

(** A provider loaded from a file that held "alice", and the material a
    file holding "bob" parses to. *)
Definition stA : DynamicIdentityFileCreds_t :=
  mkDyn (Some "alice") (Some [("alice", "alice")]) (Some "alice") (Some "alice")
        ["alice"] "/id".

Definition hA : ProvHeap := {[ 1%positive := stA ]}.

Definition idB : IdentityFile := mkIdentityFile "bob" "bob" "bob" ["bob"] ["bob"].

Definition mB : DynamicIdentityFileCreds.Material :=
  DynamicIdentityFileCreds.mkMaterial [("bob", "bob")] "bob" "bob" "bob" ["bob"].

Definition badPemFS : FS := {[ "/id" := "bad-pem" ]}.

Definition garbageFS : FS := {[ "/id" := "garbage" ]}.

Definition badSshFS : FS := {[ "/id" := "bad-ssh" ]}.

(** The configurations the provider at location 1 hands out. *)
Definition cfg1 : Config :=
  mkConfig (mkSlice 1%positive 0 1 1) APIDomain []
           (Some (DynamicIdentityFileCreds.getClientCertificate 1%positive))
           None true
           (Some (DynamicIdentityFileCreds.verifyConnection 1%positive)).

Definition sshcfg1 : DynamicIdentityFileCreds.ClientConfig :=
  DynamicIdentityFileCreds.mkClientConfig
    [DynamicIdentityFileCreds.publicKeysCallback 1%positive]
    (λ h host remote key,
       checkHostKey (DynamicIdentityFileCreds.getHostCheckers 1%positive h)
                    host remote key)
    30000000000%Z "-teleport-internal-join".

(** A [tls.Config] whose [NextProtos] slice has room for one more element
    in its backing array. *)
Definition cfg0 : Config :=
  mkConfig (mkSlice 5%positive 0 1 2) "" ["certA"] None None false None.

Definition obj0 : ObjHeap :=
  mkObjHeap {[ 1%positive := cfg0 ]} {[ 5%positive := ["http/1.1"; ""] ]}.

(** Connection states of a client of [cfg1]: a server that presents a
    certificate for the sentinel issued by alice's root, and one whose
    certificate is issued by a root the provider does not hold. *)
Definition goodState : ConnectionState :=
  mkConnectionState APIDomain [(APIDomain, "alice")].

Definition strangerState : ConnectionState :=
  mkConnectionState APIDomain [(APIDomain, "mallory")].

End Toy.


(** ** A concrete instance of the further collaborators *)

Module ToyMore.
Import Toy.

Definition loadX509KeyPair (cert key : string) (f : FS) : result string :=
  match f !! cert, f !! key with
  | Some c, Some _ => failing_on "bad-tls" id c
  | _, _ => Err (mkError Raw "open: no such file or directory" 0)
  end.

Definition osReadFile (p : string) (f : FS) : result bytes :=
  match f !! p with
  | Some b => Ok b
  | None => Err (mkError Raw "open: no such file or directory" 0)
  end.

Definition fromDir (d n : string) (f : FS) : result string :=
  match f !! d with
  | None => Err (mkError NotFound "no such profile" 1)
  | Some content =>
    if decide (content = "garbage") then
      Err (mkError BadParameter "could not parse profile" 1)
    else Ok content
  end.

Definition profileTLSConfig (p : string) (o : ObjHeap) : ObjHeap * result loc :=
  match failing_on "bad-tls" id p with
  | Err err => (o, Err err)
  | Ok cert =>
    let c := fresh (dom (cfgs o)) in
    (mkObjHeap
       (<[c := mkConfig nilSlice "" [cert] None (Some [(cert, cert)]) false None]>
          (cfgs o))
       (arrs o),
     Ok c)
  end.

#[export] Instance more : MoreExternals := {|
  Profile := string;
  ContextDialer := string * Z * Z * string * bool * loc;
  LoadX509KeyPair := loadX509KeyPair;
  os_ReadFile := osReadFile;
  ConvertSystemError := λ e, mkError NotFound (message e) 1;
  FromDir := fromDir;
  Profile_TLSConfig := profileTLSConfig;
  Profile_SSHClientConfig := failing_on "bad-ssh" id;
  WebProxyAddr := λ p, String.append p ".example.com:3080";
  NewProxyDialer := λ ssh ka dt addr ins tls, (ssh, ka, dt, addr, ins, tls);
|}.

(** Files of a key pair with its CA, and a profile directory. *)
Definition keypairFS : FS :=
  {[ "/cert" := "carol"; "/key" := "carol-key"; "/ca" := "root" ]}.

Definition carol : keypairCreds.t := keypairCreds.LoadKeyPair "/cert" "/key" "/ca".

Definition profileFS : FS := {[ "/tsh" := "dave" ]}.

Definition dave : profileCreds.t := profileCreds.LoadProfile "/tsh" "dave".

Definition daveLoaded : profileCreds.t := profileCreds.mk "/tsh" "dave" (Some "dave").

Definition clientCfg : client.Config := client.mkConfig 30 10 false.

(** A second provider, at location 2, beside the one of [hA]. *)
Definition hAB : ProvHeap :=
  {[ 1%positive := stA; 2%positive := of_material "/id2" mB ]}.

End ToyMore.


(** * Properties *)

(** ** [configureTLS] leaves its argument alone *)

Section ConfigureTLSProps.
Context `{Externals}.



Lemma append_keeps_arrays (a : gmap loc (list string)) (s : Slice) (x : string)
    (l : loc) :
  l ≠ base s → is_Some (a !! l) → (append a s x).1 !! l = a !! l.
Proof.
  intros Hne Hsome. unfold append. case_decide; simpl.
  - by rewrite lookup_alter_ne.
  - rewrite lookup_insert_ne; [done|].
    intros Heq. pose proof (is_fresh (dom a)) as Hfresh.
    rewrite Heq in Hfresh. by apply Hfresh, elem_of_dom.
Qed.



End ConfigureTLSProps.


(** ** The reloadable provider: loading *)

Section ReloadProps.
Context `{Externals}.
Import DynamicIdentityFileCreds.

Lemma appendAll_bad_pem (pems : list bytes) (pem : bytes) (pool : CertPool) :
  pem ∈ pems → CertsFromPEM pem = [] → appendAll pool pems = None.
Proof.
  intros Hin Hbad. revert pool.
  induction pems as [|p rest IH]; intros pool; [by apply elem_of_nil in Hin|].
  simpl. unfold AppendCertsFromPEM.
  apply elem_of_cons in Hin as [<- | Hin].
  - by rewrite Hbad.
  - destruct (CertsFromPEM p); [done|]. by apply IH.
Qed.

Lemma appendAll_None (pems : list bytes) (pool : CertPool) :
  appendAll pool pems = None → ∃ pem, pem ∈ pems ∧ CertsFromPEM pem = [].
Proof.
  revert pool. induction pems as [|p rest IH]; intros pool; simpl; [done|].
  unfold AppendCertsFromPEM. destruct (CertsFromPEM p) eqn:Ep.
  - intros _. exists p. split; [left|done].
  - intros [pem [Hin Hbad]]%IH. exists pem. split; [by right|done].
Qed.

(** The five assignments install the whole generation, whatever was there. *)
Lemma swap_installs (st : DynamicIdentityFileCreds_t) (m : Material) :
  foldl assign st (swap m) = of_material (Path st) m.
Proof. reflexivity. Qed.

(** Either the load fails or the file parses to some material. *)
Lemma load_fails_or_parses (p : string) (f : FS) :
  load_fails p f ∨ ∃ id m, ReadFile p f = Ok id ∧ parses_to id m.
Proof.
  destruct (ReadFile p f) as [id|err] eqn:Er; [|left; by eapply fails_read].
  destruct (X509KeyPair (id_Certs_TLS id) (id_PrivateKey id)) as [cert|err] eqn:Ek;
    [|left; by eapply fails_x509_keypair].
  destruct (appendAll NewCertPool (id_CACerts_TLS id)) as [pool|] eqn:Ea.
  2:{ apply appendAll_None in Ea as (pem & Hin & Hbad).
      left; by eapply fails_root_pem. }
  destruct (ParseCertificate (id_Certs_SSH id)) as [sc|err] eqn:Es;
    [|left; by eapply fails_ssh_certificate].
  destruct (ParsePrivateKey (id_PrivateKey id)) as [sk|err] eqn:Ep;
    [|left; by eapply fails_ssh_private_key].
  destruct (ParseKnownHosts (id_CACerts_SSH id)) as [kh|err] eqn:Eh;
    [|left; by eapply fails_known_hosts].
  right. exists id, (mkMaterial pool cert sc sk kh). by repeat split.
Qed.

Lemma load_fails_not_parses (p : string) (f : FS) (id : IdentityFile) (m : Material) :
  load_fails p f → ReadFile p f = Ok id → parses_to id m → False.
Proof.
  intros Hfail Hr (Hk & Ha & Hs & Hp & Hh).
  destruct Hfail as [e He | id' e Hr' He | id' pem Hr' Hin Hbad | id' e Hr' He
                    | id' e Hr' He | id' e Hr' He];
    try congruence; try (assert (id' = id) as -> by congruence; congruence).
  assert (id' = id) as -> by congruence.
  by rewrite (appendAll_bad_pem _ _ _ Hin Hbad) in Ha.
Qed.

(** What [Reload] does when the file parses. *)
Lemma Reload_parses (d : loc) (h : ProvHeap) (w : World)
    (st : DynamicIdentityFileCreds_t) (id : IdentityFile) (m : Material) :
  h !! d = Some st → ReadFile (Path st) (fs w) = Ok id → parses_to id m →
  Reload d h w =
    (<[d := of_material (Path st) m]> h, mkWorld (fs w) (Path st :: reads w), Ret tt).
Proof.
  intros Hd Hr (Hk & Ha & Hs & Hp & Hh). unfold Reload.
  rewrite Hd, Hr, Hk, Ha, Hs, Hp, Hh. by destruct m.
Qed.

(** What [Reload] does when the load fails. *)
Lemma Reload_fails (d : loc) (h : ProvHeap) (w : World)
    (st : DynamicIdentityFileCreds_t) :
  h !! d = Some st → load_fails (Path st) (fs w) →
  ∃ err, Reload d h w = (h, mkWorld (fs w) (Path st :: reads w), Fail err).
Proof.
  intros Hd Hfail. unfold Reload. rewrite Hd.
  destruct (ReadFile (Path st) (fs w)) as [id|err] eqn:Er; [|by eexists].
  destruct (X509KeyPair (id_Certs_TLS id) (id_PrivateKey id)) as [cert|err] eqn:Ek;
    [|by eexists].
  destruct (appendAll NewCertPool (id_CACerts_TLS id)) as [pool|] eqn:Ea;
    [|by eexists].
  destruct (ParseCertificate (id_Certs_SSH id)) as [sc|err] eqn:Es; [|by eexists].
  destruct (ParsePrivateKey (id_PrivateKey id)) as [sk|err] eqn:Ep; [|by eexists].
  destruct (ParseKnownHosts (id_CACerts_SSH id)) as [kh|err] eqn:Eh; [|by eexists].
  exfalso. eapply (load_fails_not_parses _ _ id (mkMaterial pool cert sc sk kh));
    [done..|]. by repeat split.
Qed.

(** C1. When the identity file cannot be read or one of its pieces does not
    parse, [Reload] returns an error and the provider store is the one from
    before the call: the five fields of the provider are untouched, and
    every callback of a configuration built from the provider answers as it
    did before. *)
Theorem Reload_failure_leaves_material (d : loc) (h : ProvHeap) (w : World)
    (st : DynamicIdentityFileCreds_t) :
  h !! d = Some st →
  load_fails (Path st) (fs w) →
  ∃ err h' w',
    Reload d h w = (h', w', Fail err) ∧
    h' = h ∧
    h' !! d = Some st ∧
    getClientCertificate d h' = getClientCertificate d h ∧
    verifyConnection d h' = verifyConnection d h ∧
    publicKeysCallback d h' = publicKeysCallback d h ∧
    getHostCheckers d h' = getHostCheckers d h.
Proof.
  intros Hd Hfail. destruct (Reload_fails d h w st Hd Hfail) as [err Hr].
  exists err, h, (mkWorld (fs w) (Path st :: reads w)). by repeat split.
Qed.

(** C5. [NewDynamicIdentityFileCreds] loads once: when the load fails the
    result is an error and no provider; a provider is returned only when the
    file parses, and then it holds the material parsed from the file in all
    five fields, none of the four pointers nil; it never panics. *)
Theorem NewDynamicIdentityFileCreds_loaded_or_error (p : string) (h : ProvHeap)
    (w : World) :
  (load_fails p (fs w) →
     ∃ err h' w', NewDynamicIdentityFileCreds p h w = (h', w', Fail err)) ∧
  (∀ id m, ReadFile p (fs w) = Ok id → parses_to id m →
     ∃ d h' w', NewDynamicIdentityFileCreds p h w = (h', w', Ret d) ∧
       h !! d = None ∧ h' !! d = Some (of_material p m)) ∧
  (∀ d h' w', NewDynamicIdentityFileCreds p h w = (h', w', Ret d) →
     ∃ id m st, ReadFile p (fs w) = Ok id ∧ parses_to id m ∧
       h' !! d = Some st ∧ st = of_material p m ∧
       is_Some (tlsCert st) ∧ is_Some (tlsRootCAs st) ∧
       is_Some (sshCert st) ∧ is_Some (sshKey st) ∧
       sshKnownHosts st = m_knownHosts m) ∧
  (∀ h' w', NewDynamicIdentityFileCreds p h w ≠ (h', w', Panic)).
Proof.
  set (d := fresh (dom h)).
  set (h0 := <[d := mkDyn None None None None [] p]> h).
  assert (h0 !! d = Some (mkDyn None None None None [] p)) as Hd
    by apply lookup_insert_eq.
  assert (h !! d = None) as Hnew.
  { apply not_elem_of_dom. apply is_fresh. }
  assert (∀ id m, ReadFile p (fs w) = Ok id → parses_to id m →
     NewDynamicIdentityFileCreds p h w =
       (<[d := of_material p m]> h0, mkWorld (fs w) (p :: reads w), Ret d)) as Hok.
  { intros id m Hr Hp. unfold NewDynamicIdentityFileCreds. fold d h0.
    by rewrite (Reload_parses d h0 w _ id m Hd Hr Hp). }
  assert (load_fails p (fs w) →
     ∃ err, NewDynamicIdentityFileCreds p h w =
       (h0, mkWorld (fs w) (p :: reads w), Fail (Wrap err))) as Hfail.
  { intros Hf. unfold NewDynamicIdentityFileCreds. fold d h0.
    destruct (Reload_fails d h0 w _ Hd Hf) as [err ->]. by exists err. }
  split; [|split; [|split]].
  - intros Hf. destruct (Hfail Hf) as [err ->]. by eexists _, _, _.
  - intros id m Hr Hp. rewrite (Hok id m Hr Hp). eexists _, _, _.
    split; [done|]. split; [done|]. apply lookup_insert_eq.
  - intros d' h' w' Hnewd.
    destruct (load_fails_or_parses p (fs w)) as [Hf | (id & m & Hr & Hp)].
    + destruct (Hfail Hf) as [err Herr]. congruence.
    + rewrite (Hok id m Hr Hp) in Hnewd. injection Hnewd as <- <- <-.
      exists id, m, (of_material p m). rewrite lookup_insert_eq.
      do 4 (split; [done|]). simpl. repeat split; by eexists.
  - intros h' w' Hpanic.
    destruct (load_fails_or_parses p (fs w)) as [Hf | (id & m & Hr & Hp)].
    + destruct (Hfail Hf) as [err Herr]. congruence.
    + rewrite (Hok id m Hr Hp) in Hpanic. congruence.
Qed.

End ReloadProps.


(** ** The reloadable provider: configurations and their callbacks *)

Section CallbackProps.
Context `{Externals}.
Import DynamicIdentityFileCreds.

Lemma foldl_AddCert (pool : CertPool) (l : list X509Cert) :
  foldl AddCert pool l = pool ++ l.
Proof.
  revert pool. induction l as [|c l IH]; intros pool; simpl.
  - by rewrite app_nil_r.
  - rewrite IH. unfold AddCert. by rewrite <- app_assoc.
Qed.

(** The intermediates pool the callback builds holds the certificates after
    the leaf, in their order. *)
Lemma intermediates_pool (rest : list X509Cert) :
  foldl AddCert NewCertPool rest = rest.
Proof. by rewrite foldl_AddCert. Qed.

Lemma Reload_Ret (d : loc) (h h1 : ProvHeap) (w w1 : World)
    (st : DynamicIdentityFileCreds_t) (u : unit) :
  h !! d = Some st → Reload d h w = (h1, w1, Ret u) →
  ∃ id m, ReadFile (Path st) (fs w) = Ok id ∧ parses_to id m ∧
    h1 = <[d := of_material (Path st) m]> h.
Proof.
  intros Hd Hr.
  destruct (load_fails_or_parses (Path st) (fs w)) as [Hf | (id & m & Hrd & Hp)].
  - destruct (Reload_fails d h w st Hd Hf) as [err Herr]. congruence.
  - exists id, m. rewrite (Reload_parses d h w st id m Hd Hrd Hp) in Hr.
    by injection Hr as <- <-.
Qed.

(** After a run of successful reloads the provider holds the material of
    the last one. *)
Lemma reloads_last (d : loc) (fss : list FS) (f : FS) (h h' : ProvHeap)
    (w w' : World) (st : DynamicIdentityFileCreds_t) :
  h !! d = Some st →
  reloads d h w (fss ++ [f]) = Some (h', w') →
  ∃ id m, ReadFile (Path st) f = Ok id ∧ parses_to id m ∧
    h' !! d = Some (of_material (Path st) m).
Proof.
  revert h w st. induction fss as [|f1 rest IH]; intros h w st Hd; simpl.
  - destruct (Reload d h _) as [[h1 w1] [u| |]] eqn:Er; try done.
    intros [= <- <-].
    destruct (Reload_Ret _ _ _ _ _ _ _ Hd Er) as (id & m & Hr & Hp & ->).
    exists id, m. by rewrite lookup_insert_eq.
  - destruct (Reload d h _) as [[h1 w1] [u| |]] eqn:Er; try done.
    destruct (Reload_Ret _ _ _ _ _ _ _ Hd Er) as (id & m & Hr & Hp & ->).
    intros Hrest.
    eapply (IH _ _ (of_material (Path st) m)) in Hrest;
      [done|by rewrite lookup_insert_eq].
Qed.

(** C2. A [tls.Config] and an [ssh.ClientConfig] taken from the provider
    before a run of successful reloads hold callbacks that, called after the
    run, answer with the material of the last reload: the client certificate,
    the root pool used for verification, the signer built from the SSH
    certificate and key, and the known hosts the host-key callback of the
    configuration checks against. Called before the run, the same callbacks
    answered with the material of that moment. The host-key callback is the
    one [sshutils.NewHostKeyCallback] makes of the [GetHostCheckers] closure
    of the provider; that it fetches the checkers through the closure at
    each verification is what is taken from that package. *)
Theorem callbacks_use_latest_reload (d : loc) (h h' : ProvHeap) (w w' : World)
    (st : DynamicIdentityFileCreds_t) (fss : list FS) (f : FS)
    (o o1 : ObjHeap) (c : loc) (cfg : Config) (sshcfg : ClientConfig) :
  h !! d = Some st →
  TLSConfig d o = (o1, Ret c) →
  cfgs o1 !! c = Some cfg →
  SSHClientConfig d = Ret sshcfg →
  reloads d h w (fss ++ [f]) = Some (h', w') →
  ∃ id m gcc vc pkc,
    ReadFile (Path st) f = Ok id ∧ parses_to id m ∧
    GetClientCertificate cfg = Some gcc ∧
    VerifyConnection cfg = Some vc ∧
    Auth sshcfg = [pkc] ∧
    (∀ cri, gcc h cri = Ret (tlsCert st) ∧ gcc h' cri = Ret (Some (m_cert m))) ∧
    (∀ sn leaf rest,
       vc h (mkConnectionState sn (leaf :: rest)) =
         verdict leaf (mkVerifyOptions sn rest (tlsRootCAs st)) ∧
       vc h' (mkConnectionState sn (leaf :: rest)) =
         verdict leaf (mkVerifyOptions sn rest (Some (m_pool m)))) ∧
    pkc h =
      match SSHSigner (sshCert st) (sshKey st) with
      | Ok s => Ret [s]
      | Err err => Fail (Wrap err)
      end ∧
    pkc h' =
      match SSHSigner (Some (m_sshCert m)) (Some (m_sshKey m)) with
      | Ok s => Ret [s]
      | Err err => Fail (Wrap err)
      end ∧
    NewHostKeyCallback (getHostCheckers d) = Ok (HostKeyCallback_ sshcfg) ∧
    getHostCheckers d h = Ret (sshKnownHosts st) ∧
    getHostCheckers d h' = Ret (m_knownHosts m) ∧
    (NewHostKeyCallback_reads_at_verification →
     ∀ host remote key,
       HostKeyCallback_ sshcfg h host remote key =
         CheckHostKey (Ret (sshKnownHosts st)) host remote key ∧
       HostKeyCallback_ sshcfg h' host remote key =
         CheckHostKey (Ret (m_knownHosts m)) host remote key).
Proof.
  intros Hd Htls Hcfg Hssh Hrun.
  destruct (reloads_last d fss f h h' w w' st Hd Hrun) as (id & m & Hr & Hp & Hd').
  unfold TLSConfig in Htls. injection Htls as <- <-. simpl in Hcfg.
  rewrite lookup_insert_eq in Hcfg. injection Hcfg as <-.
  unfold SSHClientConfig in Hssh.
  destruct (NewHostKeyCallback _) as [cb|err] eqn:Hcb; [|done].
  injection Hssh as <-.
  exists id, m, (getClientCertificate d), (verifyConnection d),
    (publicKeysCallback d). simpl.
  do 5 (split; [done|]).
  split; [intros cri; unfold getClientCertificate; by rewrite Hd, Hd'|].
  split.
  { intros sn leaf rest. unfold verifyConnection, verdict. rewrite Hd, Hd'. simpl.
    by rewrite intermediates_pool. }
  assert (getHostCheckers d h = Ret (sshKnownHosts st)) as Hg
    by (unfold getHostCheckers; by rewrite Hd).
  assert (getHostCheckers d h' = Ret (m_knownHosts m)) as Hg'
    by (unfold getHostCheckers; by rewrite Hd').
  unfold publicKeysCallback. rewrite Hd, Hd'. simpl.
  split; [by destruct (SSHSigner _ _)|]. split; [by destruct (SSHSigner _ _)|].
  do 3 (split; [done|]).
  intros Hreads host remote key.
  by rewrite !(Hreads _ _ Hcb), Hg, Hg'.
Qed.

(** What the [VerifyConnection] closure does on any connection state: with
    a peer certificate, the verification of the leaf with the [ServerName]
    of the state as DNS name; without, a panic at the slice expression. *)
Lemma verifyConnection_eq (d : loc) (h : ProvHeap)
    (st : DynamicIdentityFileCreds_t) (state : ConnectionState) :
  h !! d = Some st →
  verifyConnection d h state =
    match cs_PeerCertificates state with
    | [] => Panic
    | leaf :: rest =>
      verdict leaf (mkVerifyOptions (cs_ServerName state) rest (tlsRootCAs st))
    end.
Proof.
  intros Hd. unfold verifyConnection, verdict. rewrite Hd.
  destruct (cs_PeerCertificates state) as [|leaf rest]; [done|].
  by rewrite intermediates_pool.
Qed.

(** C3. The configuration of [TLSConfig] turns the built-in verification
    off and names the sentinel as [ServerName]. Its [VerifyConnection]
    callback, on every connection state of a handshake made with that
    configuration, verifies the leaf with the certificates presented after
    it as intermediates, the root pool the provider holds at that moment,
    and the sentinel as DNS name; it accepts exactly when that verification
    passes and otherwise returns its error. The name comes to the callback
    as the [ServerName] of the connection state, which is the one of the
    configuration; the address that was dialled is no part of the state, so
    that two handshakes that present the same certificates get the same
    verdict. *)
Theorem VerifyConnection_verifies_against_sentinel (d : loc) (o : ObjHeap)
    (h : ProvHeap) (st : DynamicIdentityFileCreds_t) :
  h !! d = Some st →
  ∃ c o' cfg vc,
    TLSConfig d o = (o', Ret c) ∧ cfgs o' !! c = Some cfg ∧
    InsecureSkipVerify cfg = true ∧ RootCAs cfg = None ∧
    ServerName cfg = APIDomain ∧
    VerifyConnection cfg = Some vc ∧
    (∀ state, handshake_state cfg state →
       ∃ leaf rest,
         cs_PeerCertificates state = leaf :: rest ∧
         let opts := mkVerifyOptions APIDomain rest (tlsRootCAs st) in
         vc h state = verdict leaf opts ∧
         (vc h state = Ret tt ↔ Verify leaf opts = None) ∧
         (∀ err, vc h state = Fail err ↔ Verify leaf opts = Some err)) ∧
    (∀ state1 state2,
       handshake_state cfg state1 → handshake_state cfg state2 →
       cs_PeerCertificates state1 = cs_PeerCertificates state2 →
       vc h state1 = vc h state2) ∧
    (∀ state leaf rest, cs_PeerCertificates state = leaf :: rest →
       vc h state =
         verdict leaf (mkVerifyOptions (cs_ServerName state) rest (tlsRootCAs st))).
Proof.
  intros Hd. eexists _, _, _, (verifyConnection d).
  split; [reflexivity|]. simpl. rewrite lookup_insert_eq.
  do 5 (split; [done|]). split; [|split].
  - intros state [Hsn Hpeer]. simpl in Hsn.
    destruct (cs_PeerCertificates state) as [|leaf rest] eqn:Hcerts; [done|].
    exists leaf, rest. split; [done|]. simpl.
    rewrite (verifyConnection_eq d h st state Hd), Hcerts, Hsn.
    split; [done|]. unfold verdict.
    destruct (Verify _ _) as [e|]; split; try split; try done.
    + by intros [= ->].
    + by intros [= ->].
  - intros state1 state2 [Hsn1 _] [Hsn2 _] Hsame.
    rewrite !(verifyConnection_eq d h st _ Hd), Hsame, Hsn1, Hsn2. done.
  - intros state leaf rest Hcerts.
    by rewrite (verifyConnection_eq d h st state Hd), Hcerts.
Qed.

(** C6. The public-key callback of [SSHClientConfig] builds its signer from
    the SSH certificate and key the provider holds at the moment of the call,
    on every call: it returns that signer when [sshutils.SSHSigner] builds
    one, the wrapped error when it does not, never panics on a live provider,
    and leaves nothing behind, so that a later call against a provider with
    other material answers from that material. *)
Theorem PublicKeysCallback_fresh_signer_or_error (d : loc) (h : ProvHeap)
    (st : DynamicIdentityFileCreds_t) (sshcfg : ClientConfig) :
  SSHClientConfig d = Ret sshcfg →
  h !! d = Some st →
  ∃ pkc,
    Auth sshcfg = [pkc] ∧
    (∀ s, SSHSigner (sshCert st) (sshKey st) = Ok s → pkc h = Ret [s]) ∧
    (∀ err, SSHSigner (sshCert st) (sshKey st) = Err err →
       pkc h = Fail (Wrap err)) ∧
    pkc h ≠ Panic ∧
    (∀ st2, pkc (<[d := st2]> h) =
       match SSHSigner (sshCert st2) (sshKey st2) with
       | Ok s => Ret [s]
       | Err err => Fail (Wrap err)
       end).
Proof.
  intros Hssh Hd. unfold SSHClientConfig in Hssh.
  destruct (NewHostKeyCallback _) as [cb|err]; [|done]. injection Hssh as <-.
  exists (publicKeysCallback d). simpl. split; [done|].
  unfold publicKeysCallback. rewrite Hd.
  split; [by intros s ->|]. split; [by intros err ->|].
  split; [by destruct (SSHSigner _ _)|].
  intros st2. rewrite lookup_insert_eq. by destruct (SSHSigner _ _).
Qed.

(** C8. [TLSConfig] never fails when called: whatever the provider and the
    stores hold, even when the pointer is nil, it returns a new [tls.Config]
    and no error. Material that cannot be used shows only when a callback
    runs: the verification callback then returns the error of the
    verification, and a nil provider makes the callbacks panic. *)
Theorem TLSConfig_never_fails (d : loc) (o : ObjHeap) :
  ∃ c o' cfg gcc vc,
    TLSConfig d o = (o', Ret c) ∧
    cfgs o !! c = None ∧ cfgs o' !! c = Some cfg ∧
    GetClientCertificate cfg = Some gcc ∧ VerifyConnection cfg = Some vc ∧
    (∀ h st state leaf rest err,
       h !! d = Some st → cs_PeerCertificates state = leaf :: rest →
       Verify leaf (mkVerifyOptions (cs_ServerName state) rest (tlsRootCAs st))
         = Some err →
       vc h state = Fail err) ∧
    (∀ h st cri, h !! d = Some st → gcc h cri = Ret (tlsCert st)) ∧
    (∀ h cri state, h !! d = None → gcc h cri = Panic ∧ vc h state = Panic).
Proof.
  eexists _, _, _, (getClientCertificate d), (verifyConnection d).
  split; [reflexivity|]. simpl.
  split; [apply not_elem_of_dom, is_fresh|].
  rewrite lookup_insert_eq. do 3 (split; [done|]).
  split; [|split].
  - intros h st state leaf rest err Hd Hpeer Hv. unfold verifyConnection.
    rewrite Hd, Hpeer. simpl. by rewrite intermediates_pool, Hv.
  - intros h st cri Hd. unfold getClientCertificate. by rewrite Hd.
  - intros h cri state Hd. unfold getClientCertificate, verifyConnection.
    by rewrite Hd.
Qed.

End CallbackProps.


(** ** The static identity-file credentials *)

Section StaticProps.
Context `{Externals}.

Lemma file_TLSConfig_cached (c : identityCredsFile.t) (id : IdentityFile)
    (o : ObjHeap) (w : World) :
  identityCredsFile.identityFile c = Some id →
  identityCredsFile.TLSConfig c o w =
    (c, (tls_from_identity id o).1, w, (tls_from_identity id o).2).
Proof.
  intros Hid. unfold identityCredsFile.TLSConfig, identityCredsFile.load,
    tls_from_identity. rewrite Hid. simpl. rewrite ?Hid.
  destruct (IdentityFile_TLSConfig id o) as [o1 [t|err]]; [|done].
  by destruct (configureTLS t o1).
Qed.

Lemma file_SSHClientConfig_cached (c : identityCredsFile.t) (id : IdentityFile)
    (w : World) :
  identityCredsFile.identityFile c = Some id →
  identityCredsFile.SSHClientConfig c w = (c, w, ssh_from_identity id).
Proof.
  intros Hid. unfold identityCredsFile.SSHClientConfig, identityCredsFile.load,
    ssh_from_identity. rewrite Hid. simpl. rewrite ?Hid.
  by destruct (IdentityFile_SSHClientConfig id).
Qed.

(** A load either finds the cached identity and touches nothing, or reads
    the file once. *)
Lemma file_load_cases (c : identityCredsFile.t) (w : World) :
  (∃ id, identityCredsFile.identityFile c = Some id ∧
     identityCredsFile.load c w = (c, w, None)) ∨
  (identityCredsFile.identityFile c = None ∧
   ∃ w1, w1 = mkWorld (fs w) (identityCredsFile.path c :: reads w) ∧
     ((∃ id, ReadFile (identityCredsFile.path c) (fs w) = Ok id ∧
         identityCredsFile.load c w =
           (identityCredsFile.mk (Some id) (identityCredsFile.path c), w1, None)) ∨
      (∃ err, ReadFile (identityCredsFile.path c) (fs w) = Err err ∧
         identityCredsFile.load c w =
           (identityCredsFile.mk None (identityCredsFile.path c), w1,
            Some (NewBadParameter
                    (String.append "identity file could not be decoded: "
                                   (message err))))))).
Proof.
  unfold identityCredsFile.load.
  destruct (identityCredsFile.identityFile c) as [id|] eqn:Hid; [left; eauto|].
  right. split; [done|]. eexists. split; [done|].
  destruct (ReadFile _ _) as [id|err]; [left|right]; eauto.
Qed.

Lemma file_first_success (c c1 : identityCredsFile.t) (w w1 : World) :
  file_call_succeeds c w c1 w1 →
  ∃ id, identityCredsFile.identityFile c1 = Some id ∧
    ((identityCredsFile.identityFile c = Some id ∧ c1 = c ∧ w1 = w) ∨
     (identityCredsFile.identityFile c = None ∧
      ReadFile (identityCredsFile.path c) (fs w) = Ok id ∧
      w1 = mkWorld (fs w) (identityCredsFile.path c :: reads w))).
Proof.
  intros Hcall.
  destruct (file_load_cases c w)
    as [(id & Hid & Hl) | (Hnone & w' & -> & [(id & Hr & Hl) | (err & Hr & Hl)])].
  - exists id. destruct Hcall as [o o1 t Ht | s Hs].
    + rewrite (file_TLSConfig_cached c id o w Hid) in Ht.
      injection Ht as <- _ <- _. split; [done|]. by left.
    + rewrite (file_SSHClientConfig_cached c id w Hid) in Hs.
      injection Hs as <- <- _. split; [done|]. by left.
  - exists id. destruct Hcall as [o o1 t Ht | s Hs].
    + unfold identityCredsFile.TLSConfig in Ht. rewrite Hl in Ht. simpl in Ht.
      destruct (IdentityFile_TLSConfig id o) as [o2 [tc|e]]; [|done].
      destruct (configureTLS tc o2) as [o3 r]. injection Ht as <- _ <- _.
      split; [done|]. by right.
    + unfold identityCredsFile.SSHClientConfig in Hs. rewrite Hl in Hs.
      simpl in Hs. destruct (IdentityFile_SSHClientConfig id); [|done].
      injection Hs as <- <- _. split; [done|]. by right.
  - exfalso. destruct Hcall as [o o1 t Ht | s Hs].
    + unfold identityCredsFile.TLSConfig in Ht. by rewrite Hl in Ht.
    + unfold identityCredsFile.SSHClientConfig in Hs. by rewrite Hl in Hs.
Qed.

Lemma string_TLSConfig_cached (c : identityCredsString.t) (id : IdentityFile)
    (o : ObjHeap) :
  identityCredsString.identityFile c = Some id →
  identityCredsString.TLSConfig c o =
    (c, (tls_from_identity id o).1, (tls_from_identity id o).2).
Proof.
  intros Hid. unfold identityCredsString.TLSConfig, identityCredsString.load,
    tls_from_identity. rewrite Hid. simpl. rewrite ?Hid.
  destruct (IdentityFile_TLSConfig id o) as [o1 [t|err]]; [|done].
  by destruct (configureTLS t o1).
Qed.

Lemma string_SSHClientConfig_cached (c : identityCredsString.t)
    (id : IdentityFile) :
  identityCredsString.identityFile c = Some id →
  identityCredsString.SSHClientConfig c = (c, ssh_from_identity id).
Proof.
  intros Hid. unfold identityCredsString.SSHClientConfig,
    identityCredsString.load, ssh_from_identity. rewrite Hid. simpl. rewrite ?Hid.
  by destruct (IdentityFile_SSHClientConfig id).
Qed.

Lemma string_first_success (c c1 : identityCredsString.t) :
  string_call_succeeds c c1 →
  ∃ id, identityCredsString.identityFile c1 = Some id ∧
    (identityCredsString.identityFile c = Some id ∨
     (identityCredsString.identityFile c = None ∧
      FromString (identityCredsString.content c) = Ok id)).
Proof.
  intros Hcall.
  destruct (identityCredsString.identityFile c) as [id|] eqn:Hid.
  - exists id. destruct Hcall as [o o1 t Ht | s Hs].
    + rewrite (string_TLSConfig_cached c id o Hid) in Ht.
      injection Ht as <- _ _. split; [done|]. by left.
    + rewrite (string_SSHClientConfig_cached c id Hid) in Hs.
      injection Hs as <- _. split; [done|]. by left.
  - destruct (FromString (identityCredsString.content c)) as [id|err] eqn:Hf.
    + exists id. destruct Hcall as [o o1 t Ht | s Hs].
      * unfold identityCredsString.TLSConfig, identityCredsString.load in Ht.
        rewrite Hid, Hf in Ht. simpl in Ht.
        destruct (IdentityFile_TLSConfig id o) as [o2 [tc|e]]; [|done].
        destruct (configureTLS tc o2) as [o3 r]. injection Ht as <- _ _.
        split; [done|]. by right.
      * unfold identityCredsString.SSHClientConfig, identityCredsString.load in Hs.
        rewrite Hid, Hf in Hs. simpl in Hs.
        destruct (IdentityFile_SSHClientConfig id); [|done].
        injection Hs as <- _. split; [done|]. by right.
    + exfalso. destruct Hcall as [o o1 t Ht | s Hs].
      * unfold identityCredsString.TLSConfig, identityCredsString.load in Ht.
        by rewrite Hid, Hf in Ht.
      * unfold identityCredsString.SSHClientConfig, identityCredsString.load in Hs.
        by rewrite Hid, Hf in Hs.
Qed.

(** C10. The static identity-file credentials parse their material at most
    once. After a first successful [TLSConfig] or [SSHClientConfig] the
    identity is cached; it is the one the file (or the string) held at that
    first load when nothing was cached before. From then on every call gives
    what the cached identity gives, whatever the file system holds by then,
    opens no file (the world, with its log of reads, comes back as it went
    in) and leaves the credentials as they are; for the string credentials
    the same holds whatever the [content] field holds by then. A reload of
    the dynamic provider, in contrast, installs what the file holds at the
    time of the reload. *)
Theorem static_identity_parsed_at_most_once :
  (∀ (c c1 : identityCredsFile.t) (w w1 : World),
     file_call_succeeds c w c1 w1 →
     ∃ id,
       identityCredsFile.identityFile c1 = Some id ∧
       (identityCredsFile.identityFile c = None →
          ReadFile (identityCredsFile.path c) (fs w) = Ok id ∧
          reads w1 = identityCredsFile.path c :: reads w) ∧
       ∀ (o' : ObjHeap) (w' : World),
         identityCredsFile.TLSConfig c1 o' w' =
           (c1, (tls_from_identity id o').1, w', (tls_from_identity id o').2) ∧
         identityCredsFile.SSHClientConfig c1 w' = (c1, w', ssh_from_identity id)) ∧
  (∀ (c c1 : identityCredsString.t),
     string_call_succeeds c c1 →
     ∃ id,
       identityCredsString.identityFile c1 = Some id ∧
       (identityCredsString.identityFile c = None →
          FromString (identityCredsString.content c) = Ok id) ∧
       ∀ (o' : ObjHeap) (content' : string),
         let c' := identityCredsString.mk (Some id) content' in
         identityCredsString.TLSConfig c' o' =
           (c', (tls_from_identity id o').1, (tls_from_identity id o').2) ∧
         identityCredsString.SSHClientConfig c' = (c', ssh_from_identity id)) ∧
  (∀ (d : loc) (h : ProvHeap) (w' : World) (st : DynamicIdentityFileCreds_t)
     (id' : IdentityFile) (m' : DynamicIdentityFileCreds.Material),
     h !! d = Some st →
     ReadFile (Path st) (fs w') = Ok id' → parses_to id' m' →
     ∃ h' w'', DynamicIdentityFileCreds.Reload d h w' = (h', w'', Ret tt) ∧
       h' !! d = Some (of_material (Path st) m') ∧
       reads w'' = Path st :: reads w').
Proof.
  split; [|split].
  - intros c c1 w w1 Hcall.
    destruct (file_first_success c c1 w w1 Hcall)
      as (id & Hid1 & [(Hid & -> & ->) | (Hnone & Hr & ->)]);
      exists id; (split; [done|]); split.
    + congruence.
    + intros o' w'. split.
      * by apply file_TLSConfig_cached.
      * by apply file_SSHClientConfig_cached.
    + done.
    + intros o' w'. split.
      * by apply file_TLSConfig_cached.
      * by apply file_SSHClientConfig_cached.
  - intros c c1 Hcall.
    destruct (string_first_success c c1 Hcall) as (id & Hid1 & [Hid | [Hnone Hf]]);
      exists id; (split; [done|]); split.
    + congruence.
    + intros o' content'. split.
      * by apply string_TLSConfig_cached.
      * by apply string_SSHClientConfig_cached.
    + done.
    + intros o' content'. split.
      * by apply string_TLSConfig_cached.
      * by apply string_SSHClientConfig_cached.
  - intros d h w' st id' m' Hd Hr Hp.
    rewrite (Reload_parses d h w' st id' m' Hd Hr Hp).
    eexists _, _. split; [done|]. by rewrite lookup_insert_eq.
Qed.

(** Every error of [Reload] is the error of a step that failed, the read of
    the file or the parse of a piece of it, wrapped; or the error of the
    loop over the root PEM texts. *)
Lemma Reload_Fail_origin (d : loc) (h h' : ProvHeap) (w w' : World)
    (st : DynamicIdentityFileCreds_t) (s : Error) :
  h !! d = Some st →
  DynamicIdentityFileCreds.Reload d h w = (h', w', Fail s) →
  (∃ err, s = Wrap err ∧
     (ReadFile (Path st) (fs w) = Err err ∨
      ∃ id, ReadFile (Path st) (fs w) = Ok id ∧
        (X509KeyPair (id_Certs_TLS id) (id_PrivateKey id) = Err err ∨
         ParseCertificate (id_Certs_SSH id) = Err err ∨
         ParsePrivateKey (id_PrivateKey id) = Err err ∨
         ParseKnownHosts (id_CACerts_SSH id) = Err err))) ∨
  (s = NewBadParameter "invalid CA cert PEM" ∧
   ∃ id pem, ReadFile (Path st) (fs w) = Ok id ∧
     pem ∈ id_CACerts_TLS id ∧ CertsFromPEM pem = []).
Proof.
  intros Hd. unfold DynamicIdentityFileCreds.Reload. rewrite Hd.
  destruct (ReadFile (Path st) (fs w)) as [id|err] eqn:Er.
  2:{ intros [= <- <- <-]. left. exists err. eauto. }
  destruct (X509KeyPair _ _) as [cert|err] eqn:Ek.
  2:{ intros [= <- <- <-]. left. exists err. eauto 10. }
  destruct (DynamicIdentityFileCreds.appendAll _ _) as [pool|] eqn:Ea.
  2:{ intros [= <- <- <-]. right. split; [done|].
      apply appendAll_None in Ea as (pem & Hin & Hbad). eauto. }
  destruct (ParseCertificate _) as [sc|err] eqn:Es.
  2:{ intros [= <- <- <-]. left. exists err. eauto 10. }
  destruct (ParsePrivateKey _) as [sk|err] eqn:Ep.
  2:{ intros [= <- <- <-]. left. exists err. eauto 10. }
  destruct (ParseKnownHosts _) as [kh|err] eqn:Eh.
  2:{ intros [= <- <- <-]. left. exists err. eauto 10. }
  done.
Qed.

(** An error of [NewDynamicIdentityFileCreds] is an error of the [Reload]
    of the new provider, wrapped once more. *)
Lemma New_Fail_origin (p : string) (h h' : ProvHeap) (w w' : World) (s : Error) :
  DynamicIdentityFileCreds.NewDynamicIdentityFileCreds p h w = (h', w', Fail s) →
  ∃ d h0 s0,
    h0 !! d = Some (mkDyn None None None None [] p) ∧
    DynamicIdentityFileCreds.Reload d h0 w = (h', w', Fail s0) ∧ s = Wrap s0.
Proof.
  unfold DynamicIdentityFileCreds.NewDynamicIdentityFileCreds.
  set (d := fresh (dom h)).
  set (h0 := <[d := mkDyn None None None None [] p]> h).
  destruct (DynamicIdentityFileCreds.Reload d h0 w) as [[h1 w1] [u|s0|]] eqn:Er;
    try done.
  intros [= <- <- <-]. exists d, h0, s0.
  split; [apply lookup_insert_eq|done].
Qed.

(** C7, as the code has it. [Reload] and [NewDynamicIdentityFileCreds]
    surface the error of the step that failed, the read of the identity file
    or the parse of one of its pieces, wrapped, in the class and with the
    message the collaborator gave it, or [BadParameter] with the message
    "invalid CA cert PEM" for a root PEM text without certificate: an
    unavailable file and a malformed one are told apart by class whenever
    the collaborators tell them apart. This holds of every error either of
    the two returns, and either returns an error whenever a step fails. The
    static identity-file credentials surface every
    failure of their loader in the class [BadParameter], the loader's
    message appended to a fixed text: there the two differ by message
    only. *)
Theorem loader_failures_as_surfaced :
  (∀ (d : loc) (h : ProvHeap) (w : World) (st : DynamicIdentityFileCreds_t)
     (err : Error),
     h !! d = Some st → ReadFile (Path st) (fs w) = Err err →
     ∃ h' w' s, DynamicIdentityFileCreds.Reload d h w = (h', w', Fail s) ∧
       kind s = kind err ∧ message s = message err) ∧
  (∀ (d : loc) (h h' : ProvHeap) (w w' : World) (st : DynamicIdentityFileCreds_t)
     (s : Error),
     h !! d = Some st →
     DynamicIdentityFileCreds.Reload d h w = (h', w', Fail s) →
     (∃ err, kind s = kind err ∧ message s = message err ∧
        (ReadFile (Path st) (fs w) = Err err ∨
         ∃ id, ReadFile (Path st) (fs w) = Ok id ∧
           (X509KeyPair (id_Certs_TLS id) (id_PrivateKey id) = Err err ∨
            ParseCertificate (id_Certs_SSH id) = Err err ∨
            ParsePrivateKey (id_PrivateKey id) = Err err ∨
            ParseKnownHosts (id_CACerts_SSH id) = Err err))) ∨
     (s = NewBadParameter "invalid CA cert PEM" ∧
      ∃ id pem, ReadFile (Path st) (fs w) = Ok id ∧
        pem ∈ id_CACerts_TLS id ∧ CertsFromPEM pem = [])) ∧
  (∀ (p : string) (h : ProvHeap) (w : World) (err : Error),
     ReadFile p (fs w) = Err err →
     ∃ h' w' s,
       DynamicIdentityFileCreds.NewDynamicIdentityFileCreds p h w = (h', w', Fail s) ∧
       kind s = kind err ∧ message s = message err) ∧
  (∀ (p : string) (h h' : ProvHeap) (w w' : World) (s : Error),
     DynamicIdentityFileCreds.NewDynamicIdentityFileCreds p h w = (h', w', Fail s) →
     (∃ err, kind s = kind err ∧ message s = message err ∧
        (ReadFile p (fs w) = Err err ∨
         ∃ id, ReadFile p (fs w) = Ok id ∧
           (X509KeyPair (id_Certs_TLS id) (id_PrivateKey id) = Err err ∨
            ParseCertificate (id_Certs_SSH id) = Err err ∨
            ParsePrivateKey (id_PrivateKey id) = Err err ∨
            ParseKnownHosts (id_CACerts_SSH id) = Err err))) ∨
     (kind s = BadParameter ∧ message s = "invalid CA cert PEM" ∧
      ∃ id pem, ReadFile p (fs w) = Ok id ∧
        pem ∈ id_CACerts_TLS id ∧ CertsFromPEM pem = [])) ∧
  (∀ (d : loc) (h : ProvHeap) (w : World) (st : DynamicIdentityFileCreds_t),
     h !! d = Some st → load_fails (Path st) (fs w) →
     ∃ h' w' s, DynamicIdentityFileCreds.Reload d h w = (h', w', Fail s)) ∧
  (∀ (p : string) (h : ProvHeap) (w : World),
     load_fails p (fs w) →
     ∃ h' w' s,
       DynamicIdentityFileCreds.NewDynamicIdentityFileCreds p h w = (h', w', Fail s)) ∧
  (∀ (p : string) (o : ObjHeap) (w : World) (err : Error),
     ReadFile p (fs w) = Err err →
     ∃ c' w' s,
       identityCredsFile.TLSConfig (identityCredsFile.LoadIdentityFile p) o w
         = (c', o, w', Fail s) ∧
       identityCredsFile.SSHClientConfig (identityCredsFile.LoadIdentityFile p) w
         = (c', w', Fail s) ∧
       kind s = BadParameter ∧
       message s =
         String.append "identity file could not be decoded: " (message err)) ∧
  (∀ (content : string) (o : ObjHeap) (err : Error),
     FromString content = Err err →
     ∃ c' s,
       identityCredsString.TLSConfig
         (identityCredsString.LoadIdentityFileFromString content) o
         = (c', o, Fail s) ∧
       identityCredsString.SSHClientConfig
         (identityCredsString.LoadIdentityFileFromString content)
         = (c', Fail s) ∧
       kind s = BadParameter ∧
       message s =
         String.append "identity file could not be decoded: " (message err)).
Proof.
  split_and!.
  - intros d h w st err Hd Hr. unfold DynamicIdentityFileCreds.Reload.
    rewrite Hd, Hr. by eexists _, _, _.
  - intros d h h' w w' st s Hd Hfail.
    destruct (Reload_Fail_origin d h h' w w' st s Hd Hfail)
      as [(err & -> & Hstep) | Hpem]; [left|by right].
    by exists err.
  - intros p h w err Hr.
    unfold DynamicIdentityFileCreds.NewDynamicIdentityFileCreds,
      DynamicIdentityFileCreds.Reload.
    rewrite lookup_insert_eq. simpl. rewrite Hr. by eexists _, _, _.
  - intros p h h' w w' s Hnew.
    destruct (New_Fail_origin p h h' w w' s Hnew) as (d & h0 & s0 & Hd & Hr & ->).
    destruct (Reload_Fail_origin d h0 h' w w' _ s0 Hd Hr)
      as [(err & -> & Hstep) | (-> & Hpem)]; [left|by right].
    by exists err.
  - intros d h w st Hd Hfail.
    destruct (Reload_fails d h w st Hd Hfail) as [s Hs]. by eexists _, _, s.
  - intros p h w Hfail.
    unfold DynamicIdentityFileCreds.NewDynamicIdentityFileCreds.
    set (d := fresh (dom h)).
    set (h0 := <[d := mkDyn None None None None [] p]> h).
    assert (h0 !! d = Some (mkDyn None None None None [] p)) as Hd
      by apply lookup_insert_eq.
    destruct (Reload_fails d h0 w _ Hd Hfail) as [s ->]. by eexists _, _, _.
  - intros p o w err Hr.
    unfold identityCredsFile.TLSConfig, identityCredsFile.SSHClientConfig,
      identityCredsFile.load, identityCredsFile.LoadIdentityFile. simpl.
    rewrite Hr. by eexists _, _, _.
  - intros content o err Hf.
    unfold identityCredsString.TLSConfig, identityCredsString.SSHClientConfig,
      identityCredsString.load, identityCredsString.LoadIdentityFileFromString.
    simpl. rewrite Hf. by eexists _, _.
Qed.

End StaticProps.


(** ** Generations under concurrent reloads and reads *)

Section ConcurrentProps.
Context `{Externals}.
Import DynamicIdentityFileCreds Concurrent.

Lemma count_insert (M : Mode) (ts : list Thread) (n : nat) (t t' : Thread) :
  ts !! n = Some t →
  count M (<[n := t']> ts) + weight M t = count M ts + weight M t'.
Proof.
  revert n. induction ts as [|t0 ts IH]; intros [|n] Hn; simpl in *; try done.
  - injection Hn as ->. lia.
  - specialize (IH n Hn). lia.
Qed.

Lemma count_zero (M : Mode) (ts : list Thread) (n : nat) (t : Thread) :
  count M ts = 0 → ts !! n = Some t → mode_of (code t) ≠ M.
Proof.
  revert n. induction ts as [|t0 ts IH]; intros [|n] Hc Hn; simpl in *; try done.
  - injection Hn as ->. unfold weight in Hc. case_decide; [lia|done].
  - apply (IH n); [lia|done].
Qed.

Lemma count_unique (M : Mode) (ts : list Thread) (i j : nat) (t t' : Thread) :
  M ≠ Unlocked → count M ts = 1 →
  ts !! i = Some t → mode_of (code t) = M →
  ts !! j = Some t' → mode_of (code t') = M → i = j.
Proof.
  intros HM Hc Hi Hm Hj Hm'. destruct (decide (i = j)) as [|Hne]; [done|].
  exfalso.
  pose proof (count_insert M ts i t (mkThread [] (log t)) Hi) as Hins.
  unfold weight in Hins. rewrite decide_True in Hins by done. simpl in Hins.
  rewrite decide_False in Hins by done.
  eapply (count_zero M (<[i := mkThread [] (log t)]> ts) j t'); [lia| |done].
  by rewrite list_lookup_insert_ne.
Qed.

Lemma count_none (M : Mode) (ts : list Thread) :
  Forall (λ t, mode_of (code t) ≠ M) ts → count M ts = 0.
Proof.
  induction 1 as [|t ts Ht _ IH]; simpl; [done|].
  unfold weight. by rewrite decide_False, IH.
Qed.

Lemma mode_stores (l : list Assign) : mode_of ((Store <$> l) ++ [Unlock]) = Writing.
Proof. induction l; by simpl. Qed.

Lemma mode_Reload_locked (m : Material) : mode_of (Reload_locked m) = Unlocked.
Proof. done. Qed.

Lemma mode_loads (fs : list Field) (k : list Instr) :
  mode_of ((Load <$> fs) ++ RUnlock :: k) = Reading.
Proof. induction fs; by simpl. Qed.

Lemma mode_callbacks (cbs : list Callback) :
  mode_of (concat (callback_code <$> cbs)) = Unlocked.
Proof. by destruct cbs. Qed.

Lemma section_ok_extend (hist : list DynamicIdentityFileCreds_t)
    (g : DynamicIdentityFileCreds_t) (sec : ReadSection) :
  section_ok hist sec → section_ok (hist ++ [g]) sec.
Proof.
  intros (g' & Hg & Hseen). exists g'. split; [|done]. by apply lookup_app_l_Some.
Qed.

(** A thread that holds no write lock does not care what the store holds. *)
Lemma thread_inv_store (p : string) (s s' : DynamicIdentityFileCreds_t)
    (hist : list DynamicIdentityFileCreds_t) (r : Role) (t : Thread) :
  thread_inv p s hist r t → mode_of (code t) ≠ Writing → thread_inv p s' hist r t.
Proof.
  intros [Hlog Hshape] Hmode. split; [done|].
  destruct r as [m|]; [|done].
  destruct Hshape as [Hc | [Hc | [(k & Hk & Hc & Hfold) | Hdone]]];
    [by left|by right; left| |by right; right; right].
  exfalso. apply Hmode. rewrite Hc. apply mode_stores.
Qed.

(** A thread that holds no read lock does not care that a generation is
    added. *)
Lemma thread_inv_history (p : string) (s g : DynamicIdentityFileCreds_t)
    (hist : list DynamicIdentityFileCreds_t) (r : Role) (t : Thread) :
  thread_inv p s hist r t → mode_of (code t) ≠ Reading →
  thread_inv p s (hist ++ [g]) r t.
Proof.
  intros [Hlog Hshape] Hmode. split.
  { eapply Forall_impl; [done|]. intros sec. apply section_ok_extend. }
  destruct r as [m|].
  - destruct Hshape as [Hc | [Hc | [Hw | [Hc Hin]]]];
      [by left|by right; left|by right; right; left|].
    right; right; right. split; [done|]. apply elem_of_app. by left.
  - destruct Hshape as [Hidle | (fs & cbs & sec & rest & Hc & _)]; [by left|].
    exfalso. apply Hmode. rewrite Hc. apply mode_loads.
Qed.

Lemma Forall2_update {A B} (P P' : A → B → Prop) (rs : list A) (ts : list B)
    (n : nat) (r : A) (t' : B) :
  Forall2 P rs ts → rs !! n = Some r → P' r t' →
  (∀ j r0 t0, j ≠ n → rs !! j = Some r0 → ts !! j = Some t0 → P r0 t0 → P' r0 t0) →
  Forall2 P' rs (<[n := t']> ts).
Proof.
  intros HF Hr Hnew Hother.
  apply Forall2_same_length_lookup in HF as [Hlen HF].
  apply Forall2_same_length_lookup. split; [by rewrite length_insert|].
  intros j r0 t0 Hrj Htj. destruct (decide (j = n)) as [->|Hne].
  - rewrite list_lookup_insert_eq in Htj.
    + injection Htj as <-. congruence.
    + rewrite <- Hlen. by eapply lookup_lt_Some.
  - rewrite list_lookup_insert_ne in Htj by done. eauto.
Qed.

(** The invariant holds at the start. *)
Lemma inv_init (st0 : DynamicIdentityFileCreds_t) (ms : list Material)
    (conns : list (list Callback)) :
  inv st0 ms conns (init st0 ms conns).
Proof.
  assert (Forall (λ t, mode_of (code t) = Unlocked) (threads (init st0 ms conns)))
    as Hmodes.
  { simpl. apply Forall_app. split; apply Forall_fmap, Forall_true; intros x; simpl.
    - done.
    - apply mode_callbacks. }
  split; simpl.
  - done.
  - apply Forall_singleton. by left.
  - done.
  - symmetry. apply count_none. eapply Forall_impl; [exact Hmodes|].
    simpl. by intros t ->.
  - apply count_none. eapply Forall_impl; [exact Hmodes|]. simpl. by intros t ->.
  - apply count_none. eapply Forall_impl; [exact Hmodes|]. simpl. by intros t ->.
  - done.
  - unfold roles. apply Forall2_app; apply Forall2_fmap, Forall_Forall2_diag,
      Forall_true; intros x; (split; [by apply Forall_nil|]); simpl.
    + by left.
    + left. by exists x.
Qed.

Lemma assign_Path (s : DynamicIdentityFileCreds_t) (a : Assign) :
  Path (assign s a) = Path s.
Proof. by destruct a. Qed.

Lemma swap_prefix_stable (s : DynamicIdentityFileCreds_t) (m : Material) (k : nat)
    (a : Assign) :
  drop k (swap m) !! 0 = Some a →
  foldl assign s (take k (swap m)) = s →
  foldl assign (assign s a) (take (S k) (swap m)) = assign s a.
Proof.
  intros Hd Hf. destruct s, m.
  do 5 (destruct k as [|k];
        [simpl in Hd; injection Hd as <-; simpl in *; congruence|]).
  simpl in Hd. by rewrite drop_nil in Hd.
Qed.

Lemma swap_complete (s : DynamicIdentityFileCreds_t) (m : Material) (k : nat) :
  k ≤ 5 → drop k (swap m) = [] → foldl assign s (take k (swap m)) = s →
  s = of_material (Path s) m.
Proof.
  intros Hk Hd Hf. do 5 (destruct k as [|k]; [done|]).
  rewrite <- Hf at 1. destruct k; [|lia]. by destruct s, m.
Qed.

Lemma weight_mode (M M' : Mode) (t : Thread) :
  mode_of (code t) = M' → weight M t = if decide (M' = M) then 1 else 0.
Proof. intros <-. done. Qed.

Ltac count_threads n t t' Ht Hm Hm' HcR HcW :=
  pose proof (count_insert Reading _ n t t' Ht) as HcR;
  pose proof (count_insert Writing _ n t t' Ht) as HcW;
  let HcP := fresh "HcP" in
  pose proof (count_insert Waiting _ n t t' Ht) as HcP;
  rewrite (weight_mode Reading _ t Hm), (weight_mode Reading _ t' Hm') in HcR;
  rewrite (weight_mode Writing _ t Hm), (weight_mode Writing _ t' Hm') in HcW;
  rewrite (weight_mode Waiting _ t Hm), (weight_mode Waiting _ t' Hm') in HcP;
  simpl in HcR, HcW, HcP.

Ltac name_new_thread n t' :=
  match goal with
  | |- context [<[n := ?x]> _] => set (t' := x)
  end.

Lemma step_preserves_inv (st0 : DynamicIdentityFileCreds_t) (ms : list Material)
    (conns : list (list Callback)) (c c' : Conf) :
  inv st0 ms conns c → step c c' → inv st0 ms conns c'.
Proof.
  intros [Hpath Hhist Hlast Hrd Hwr Hwt Hexcl Hthr] [n Hstep].
  unfold step_thread in Hstep.
  destruct (threads c !! n) as [t|] eqn:Ht; [|done].
  destruct (Forall2_lookup_r _ _ _ _ _ Hthr Ht) as (r & Hr & [Hlog Hshape]).
  destruct r as [m|].
  - destruct Hshape as [Hc | [Hc | [(k & Hk & Hc & Hfold) | [Hc Hin]]]].
    + (* d.mu.Lock(), the announcement *)
      assert (mode_of (code t) = Unlocked) as Hm by by rewrite Hc.
      rewrite Hc in Hstep. unfold Reload_locked, run_instr in Hstep.
      simpl in Hstep.
      destruct (writer (mu c)) eqn:Hw; [done|].
      destruct (pending (mu c)) eqn:Hp; [done|].
      injection Hstep as <-.
      name_new_thread n t'.
      assert (mode_of (code t') = Waiting) as Hm' by done.
      count_threads n t t' Ht Hm Hm' HcR HcW.
      split; cbn [store mu threads history writer pending readers];
        try done; try lia.
      eapply Forall2_update; [exact Hthr|exact Hr| |by auto].
      split; [done|]. by right; left.
    + (* d.mu.Lock(), the wait for the readers *)
      assert (mode_of (code t) = Waiting) as Hm by by rewrite Hc.
      rewrite Hc in Hstep. unfold run_instr in Hstep.
      destruct (readers (mu c)) eqn:Hn; [|done].
      injection Hstep as <-.
      name_new_thread n t'.
      assert (mode_of (code t') = Writing) as Hm' by apply (mode_stores (swap m)).
      count_threads n t t' Ht Hm Hm' HcR HcW.
      assert (pending (mu c) = true) as Hp.
      { destruct (pending (mu c)); [done|]. exfalso.
        eapply (count_zero Waiting); [exact Hwt|exact Ht|done]. }
      assert (writer (mu c) = false) as Hw.
      { destruct (writer (mu c)); [|done]. destruct (Hexcl eq_refl). congruence. }
      rewrite Hw in Hwr. rewrite Hp in Hwt.
      split; cbn [store mu threads history writer pending readers];
        try done; try lia.
      eapply Forall2_update; [exact Hthr|exact Hr| |by auto].
      split; [done|]. right; right; left. exists 0. split; [lia|]. by split.
    + destruct (drop k (swap m)) as [|a rest] eqn:Hdrop.
      * (* the deferred d.mu.Unlock() *)
        assert (mode_of (code t) = Writing) as Hm by by rewrite Hc.
        rewrite Hc in Hstep. simpl in Hstep.
        destruct (writer (mu c)) eqn:Hw; [|done].
        injection Hstep as <-.
        name_new_thread n t'.
        assert (mode_of (code t') = Unlocked) as Hm' by done.
        count_threads n t t' Ht Hm Hm' HcR HcW.
        pose proof (swap_complete _ _ _ Hk Hdrop Hfold) as Hgen.
        rewrite Hpath in Hgen.
        assert (m ∈ ms) as Hm_in.
        { unfold roles in Hr. apply lookup_app_Some in Hr as [Hr | [_ Hr]].
          - apply list_lookup_fmap_Some in Hr as (m' & [= <-] & Hlm).
            by eapply list_elem_of_lookup_2.
          - by apply list_lookup_fmap_Some in Hr as (? & [=] & _). }
        destruct (Hexcl eq_refl) as [Hnord Hnop]. rewrite Hnop in Hwt.
        split; cbn [store mu threads history writer pending readers];
          try done; try lia.
        -- apply Forall_app. split; [done|]. apply Forall_singleton.
           right. by exists m.
        -- intros _. apply last_snoc.
        -- eapply Forall2_update; [exact Hthr|exact Hr| |].
           ++ split; [|right; right; right; split; [done|]].
              ** eapply Forall_impl; [exact Hlog|]. intros sec.
                 apply section_ok_extend.
              ** apply elem_of_app. right. rewrite <- Hgen. by left.
           ++ intros j r0 t0 Hne Hrj Htj Hinv.
              apply thread_inv_history; [done|].
              eapply count_zero; [|exact Htj]. lia.
      * (* one of the five assignments *)
        assert (mode_of (code t) = Writing) as Hm
          by (rewrite Hc; apply (mode_stores (a :: rest))).
        rewrite Hc in Hstep. simpl in Hstep. injection Hstep as <-.
        name_new_thread n t'.
        assert (mode_of (code t') = Writing) as Hm' by apply mode_stores.
        count_threads n t t' Ht Hm Hm' HcR HcW.
        assert (writer (mu c) = true) as Hw.
        { destruct (writer (mu c)); [done|].
          exfalso. eapply (count_zero Writing); [exact Hwr|exact Ht|done]. }
        rewrite Hw in Hwr.
        split; cbn [store mu threads history writer pending readers];
          try done; try lia.
        -- by rewrite assign_Path.
        -- intros ?; congruence.
        -- rewrite Hw. lia.
        -- eapply Forall2_update; [exact Hthr|exact Hr| |].
           ++ split; [done|]. right; right; left. exists (S k).
              assert (k < 5).
              { destruct (decide (k < 5)); [done|].
                rewrite drop_ge in Hdrop; [done|simpl; lia]. }
              split; [lia|]. split.
              ** replace (S k) with (k + 1) by lia.
                 by rewrite <- drop_drop, Hdrop.
              ** apply swap_prefix_stable; [by rewrite Hdrop|done].
           ++ intros j r0 t0 Hne Hrj Htj Hinv.
              eapply thread_inv_store; [exact Hinv|].
              intros Hmj. apply Hne.
              by eapply (count_unique Writing (threads c) j n t0 t).
    + by rewrite Hc in Hstep.
  - destruct Hshape as [[cbs Hc] | (fs & cbs & sec & rest & Hc & Hlg & Hbegan)].
    + destruct cbs as [|cb cbs]; [by rewrite Hc in Hstep|].
      (* d.mu.RLock() *)
      assert (code t = RLock :: (Load <$> callback_loads cb) ++
                RUnlock :: concat (callback_code <$> cbs)) as Hcode.
      { rewrite Hc. simpl. by rewrite <- app_assoc. }
      assert (mode_of (code t) = Unlocked) as Hm by by rewrite Hcode.
      rewrite Hcode in Hstep. cbn [run_instr] in Hstep.
      destruct (writer (mu c)) eqn:Hw; [done|].
      destruct (pending (mu c)) eqn:Hp; [done|].
      injection Hstep as <-.
      name_new_thread n t'.
      assert (mode_of (code t') = Reading) as Hm' by apply mode_loads.
      count_threads n t t' Ht Hm Hm' HcR HcW.
      split; cbn [store mu threads history writer pending readers];
        try done; try lia.
      eapply Forall2_update; [exact Hthr|exact Hr| |by auto].
      split.
      * apply Forall_cons. split; [|done].
        exists (store c). split.
        -- cbn [began]. rewrite <- last_lookup. by apply Hlast.
        -- intros f v Hin. by apply elem_of_nil in Hin.
      * right. by eexists _, _, _, _.
    + assert (mode_of (code t) = Reading) as Hm by (rewrite Hc; apply mode_loads).
      assert (writer (mu c) = false) as Hw.
      { destruct (writer (mu c)); [|done]. exfalso.
        eapply (count_zero Reading); [|exact Ht|done].
        rewrite <- Hrd. by apply Hexcl. }
      rewrite Hw in Hwr.
      destruct fs as [|f fs].
      * (* the deferred d.mu.RUnlock() *)
        rewrite Hc in Hstep. cbn [fmap list_fmap app run_instr] in Hstep.
        destruct (readers (mu c)) as [|rd] eqn:Hn; [done|].
        injection Hstep as <-.
        name_new_thread n t'.
        assert (mode_of (code t') = Unlocked) as Hm' by apply mode_callbacks.
        count_threads n t t' Ht Hm Hm' HcR HcW.
        split; cbn [store mu threads history writer pending readers];
          try done; try lia.
        -- rewrite Hw. lia.
        -- intros; congruence.
        -- eapply Forall2_update; [exact Hthr|exact Hr| |by auto].
           split; [done|]. left. by exists cbs.
      * (* a read of a field *)
        rewrite Hc in Hstep. cbn [fmap list_fmap app run_instr] in Hstep.
        injection Hstep as <-.
        name_new_thread n t'.
        assert (mode_of (code t') = Reading) as Hm' by apply mode_loads.
        count_threads n t t' Ht Hm Hm' HcR HcW.
        split; cbn [store mu threads history writer pending readers];
          try done; try lia.
        -- rewrite Hw. lia.
        -- eapply Forall2_update; [exact Hthr|exact Hr| |by auto].
           rewrite Hlg in Hlog. apply Forall_cons in Hlog as [(g & Hg & Hseen) Hrest].
           assert (g = store c) as ->.
           { rewrite Hbegan, <- last_lookup, (Hlast Hw) in Hg. congruence. }
           subst t'. rewrite Hlg. split.
           ++ apply Forall_cons. split; [|done].
              exists (store c). split; [done|].
              intros f0 v0 [Hin | Hin%list_elem_of_singleton]%elem_of_app;
                [by apply Hseen|]. by injection Hin as -> ->.
           ++ right. by eexists _, _, _, _.
Qed.

Lemma run_reachable (sched : list nat) (c : Conf) : rtc step c (run sched c).
Proof.
  revert c. induction sched as [|n sched IH]; intros c; simpl; [done|].
  destruct (step_thread n c) as [c'|] eqn:Hs; [|done].
  eapply rtc_l; [by exists n|done].
Qed.

Lemma reachable_run (c c' : Conf) : rtc step c c' → ∃ sched, run sched c = c'.
Proof.
  induction 1 as [c|c c1 c2 [n Hn] _ [sched IH]]; [by exists []|].
  exists (n :: sched). simpl. by rewrite Hn.
Qed.

Lemma inv_reachable (st0 : DynamicIdentityFileCreds_t) (ms : list Material)
    (conns : list (list Callback)) (c : Conf) :
  rtc step (init st0 ms conns) c → inv st0 ms conns c.
Proof.
  revert c. apply (rtc_ind_r (R := step)); [apply inv_init|].
  intros c1 c2 _ Hstep Hinv. by eapply step_preserves_inv.
Qed.

(** A step keeps the generations recorded so far. *)
Lemma step_history (n : nat) (c c' : Conf) :
  step_thread n c = Some c' → history c `prefix_of` history c'.
Proof.
  unfold step_thread. destruct (threads c !! n) as [t|]; [|done].
  destruct (code t) as [|i k]; [done|].
  destruct i; simpl; repeat case_match; intros [= <-]; simpl;
    try done; by apply prefix_app_r.
Qed.

Lemma run_history (sched : list nat) (c : Conf) :
  history c `prefix_of` history (run sched c).
Proof.
  revert c. induction sched as [|n sched IH]; intros c; simpl; [done|].
  destruct (step_thread n c) as [c'|] eqn:Hs; [|done].
  etrans; [by eapply step_history|done].
Qed.

Lemma note_began (now : nat) (f : Field) (v : Val) (l : list ReadSection) :
  began <$> note now f v l = began <$> l ∨
  began <$> note now f v l = now :: (began <$> l).
Proof. destruct l as [|sec rest]; [by right|by left]. Qed.

(** A step leaves the read sections of every thread as they are, or opens
    one that begins at the last generation on record. *)
Lemma step_began (n : nat) (c c' : Conf) (j : nat) (t t' : Thread) :
  step_thread n c = Some c' →
  threads c !! j = Some t → threads c' !! j = Some t' →
  began <$> log t' = began <$> log t ∨
  began <$> log t' = pred (length (history c)) :: (began <$> log t).
Proof.
  unfold step_thread. destruct (threads c !! n) as [tn|] eqn:Hn; [|done].
  destruct (code tn) as [|i k]; [done|].
  intros Hrun Hj Hj'.
  assert (∃ l, threads c' = <[n := mkThread k l]> (threads c) ∧
            (began <$> l = began <$> log tn ∨
             began <$> l = pred (length (history c)) :: (began <$> log tn)))
    as (l & Hts & Hl).
  { destruct i; simpl in Hrun; repeat case_match; try done;
      injection Hrun as <-; eexists; (split; [done|]); simpl;
      first [by left | by right | apply note_began]. }
  rewrite Hts in Hj'. destruct (decide (j = n)) as [->|Hne].
  - rewrite list_lookup_insert_eq in Hj' by by eapply lookup_lt_Some.
    injection Hj' as <-. simpl. by replace t with tn by congruence.
  - rewrite list_lookup_insert_ne in Hj' by done. left. congruence.
Qed.

Lemma step_threads_length (n : nat) (c c' : Conf) :
  step_thread n c = Some c' → length (threads c') = length (threads c).
Proof.
  unfold step_thread. destruct (threads c !! n) as [t|]; [|done].
  destruct (code t) as [|i k]; [done|].
  destruct i; simpl; repeat case_match; intros [= <-]; simpl;
    by rewrite ?length_insert.
Qed.

(** The read sections a thread opens in the course of a run begin at the
    generation that was the last at the start of the run, or at a later
    one. *)
Lemma run_began (more : list nat) (c : Conf) (j : nat) (t t' : Thread) :
  threads c !! j = Some t → threads (run more c) !! j = Some t' →
  ∃ news, began <$> log t' = news ++ (began <$> log t) ∧
    Forall (λ b, pred (length (history c)) ≤ b) news.
Proof.
  revert c t. induction more as [|n more IH]; intros c t Hj Hj'; simpl in *.
  - exists []. split; [simpl; congruence|done].
  - destruct (step_thread n c) as [c1|] eqn:Hs; [|by eapply IH].
    assert (is_Some (threads c1 !! j)) as [t1 Hj1].
    { apply lookup_lt_is_Some. rewrite (step_threads_length n c c1 Hs).
      by eapply lookup_lt_Some. }
    destruct (IH c1 t1 Hj1 Hj') as (news & Hnews & Hall).
    pose proof (prefix_length _ _ (step_history n c c1 Hs)) as Hlen.
    assert (Forall (λ b, pred (length (history c)) ≤ b) news) as Hall'.
    { eapply Forall_impl; [exact Hall|]. simpl. intros b Hb. lia. }
    destruct (step_began n c c1 j t t1 Hs Hj Hj1) as [Heq | Heq]; rewrite Heq in Hnews.
    + by exists news.
    + exists (news ++ [pred (length (history c))]). split.
      * by rewrite <- app_assoc.
      * apply Forall_app. split; [done|]. by apply Forall_singleton.
Qed.
(** The model agrees with the sequential functions: a reload thread running
    alone leaves what [Reload] installs, and a callback running alone reads
    the fields of the provider as they are. *)
Lemma Reload_locked_alone (st : DynamicIdentityFileCreds_t) (m : Material) :
  store (run (replicate 8 0) (init st [m] [])) = foldl assign st (swap m).
Proof. reflexivity. Qed.

Lemma callback_alone (st : DynamicIdentityFileCreds_t) (cb : Callback) :
  log <$> threads (run (replicate 4 0) (init st [] [[cb]])) =
    [[mkSec 0 ((λ f, (f, read f st)) <$> callback_loads cb)]].
Proof. by destruct cb. Qed.

(** C4, as the code has it. The unit of a read is one call of a callback,
    which holds the read lock from its first to its last read; no call reads
    all five fields, and a connection that calls two callbacks takes the
    lock twice. Under every schedule of reloads and callback calls on one
    provider: every generation on record is a whole one, the initial fields
    or the five fields of one reload together; while no writer holds the
    lock the provider holds the last generation; every call of a callback
    saw, in all it read, the one generation that was the last when it took
    the read lock, so the new one when a reload had completed before, and
    never a mix; while a call is inside its read section no writer holds the
    lock and that generation is still the last; a reload that has completed
    is on record; at most one reload is inside its locked section, and at
    most one has announced itself or is inside; the record only grows; and
    a call that takes the read lock later in the run begins at the
    generation that is the last now, or at a later one. *)
Theorem generations_never_mix (st0 : DynamicIdentityFileCreds_t)
    (ms : list Material) (conns : list (list Callback)) (sched : list nat) :
  let c := run sched (init st0 ms conns) in
  Forall (λ g, g = st0 ∨ ∃ m, m ∈ ms ∧ g = of_material (Path st0) m)
         (history c) ∧
  (writer (mu c) = false → last (history c) = Some (store c)) ∧
  (∀ t sec, t ∈ threads c → sec ∈ log t →
     ∃ g, history c !! began sec = Some g ∧
       ∀ f v, (f, v) ∈ seen sec → v = read f g) ∧
  (∀ t, t ∈ threads c → mode_of (code t) = Reading →
     writer (mu c) = false ∧
     ∃ sec rest, log t = sec :: rest ∧ began sec = pred (length (history c))) ∧
  (∀ i m t, ms !! i = Some m → threads c !! i = Some t → code t = [] →
     of_material (Path st0) m ∈ history c) ∧
  count Writing (threads c) ≤ 1 ∧
  count Waiting (threads c) + count Writing (threads c) ≤ 1 ∧
  (∀ more, history c `prefix_of` history (run more c)) ∧
  (∀ more j t t',
     threads c !! j = Some t → threads (run more c) !! j = Some t' →
     ∃ news, began <$> log t' = news ++ (began <$> log t) ∧
       Forall (λ b, pred (length (history c)) ≤ b) news).
Proof.
  intros c.
  destruct (inv_reachable st0 ms conns c (run_reachable _ _))
    as [Hpath Hhist Hlast Hrd Hwr Hwt Hexcl Hthr].
  split; [done|]. split; [done|].
  split; [|split; [|split; [|split; [|split; [|split]]]]].
  - intros t sec [n Ht]%list_elem_of_lookup Hsec.
    destruct (Forall2_lookup_r _ _ _ _ _ Hthr Ht) as (r & _ & [Hlog _]).
    by eapply Forall_forall in Hlog.
  - intros t [n Ht]%list_elem_of_lookup Hm.
    assert (writer (mu c) = false) as Hw.
    { destruct (writer (mu c)); [|done]. exfalso.
      eapply (count_zero Reading); [|exact Ht|done].
      rewrite <- Hrd. by apply Hexcl. }
    split; [done|].
    destruct (Forall2_lookup_r _ _ _ _ _ Hthr Ht) as (r & _ & [_ Hshape]).
    destruct r as [m|].
    + exfalso. destruct Hshape as [Hc | [Hc | [(k & _ & Hc & _) | [Hc _]]]];
        rewrite Hc in Hm; [done|done| |done].
      by rewrite mode_stores in Hm.
    + destruct Hshape as [[cbs Hc] | (fs & cbs & sec & rest & _ & Hlg & Hb)].
      * rewrite Hc, mode_callbacks in Hm. done.
      * by exists sec, rest.
  - intros i m t Hi Ht Hc.
    assert (roles ms conns !! i = Some (Reloader m)) as Hr.
    { unfold roles. apply lookup_app_l_Some. by apply list_lookup_fmap_Some_2. }
    destruct (Forall2_lookup_lr _ _ _ _ _ _ Hthr Hr Ht) as [_ Hshape].
    destruct Hshape as [Hc' | [Hc' | [(k & _ & Hc' & _) | [_ Hin]]]]; [| | |done].
    + by rewrite Hc in Hc'.
    + by rewrite Hc in Hc'.
    + rewrite Hc in Hc'. by destruct (Store <$> drop k (swap m)).
  - rewrite Hwr. destruct (writer (mu c)); lia.
  - rewrite Hwr, Hwt. destruct (writer (mu c)) eqn:Hw; [|destruct (pending (mu c)); lia].
    destruct (Hexcl eq_refl) as [_ ->]. lia.
  - intros more. apply run_history.
  - intros more j t t'. apply run_began.
Qed.

End ConcurrentProps.


(** * Further properties of the code *)

(** ** [Reload]: the root pool, the frame, and what it forgets *)

Section ReloadMore.
Context `{Externals}.
Import DynamicIdentityFileCreds.

Lemma appendAll_Some (pems : list bytes) (pool pool' : CertPool) :
  appendAll pool pems = Some pool' ↔
  Forall (λ pem, CertsFromPEM pem ≠ []) pems ∧
  pool' = pool ++ concat (CertsFromPEM <$> pems).
Proof.
  revert pool. induction pems as [|p rest IH]; intros pool; simpl.
  - rewrite app_nil_r. split; [intros [= <-]; by split|by intros [_ ->]].
  - unfold AppendCertsFromPEM. destruct (CertsFromPEM p) as [|c cs] eqn:Ep.
    + split; [done|]. intros [Hall _]. by apply Forall_cons in Hall as [? _].
    + rewrite IH, <- app_assoc. split.
      * intros [Hall ->]. split; [|done]. apply Forall_cons. by rewrite Ep.
      * intros [Hall ->]. split; [|done]. by apply Forall_cons in Hall as [_ ?].
Qed.

(** X1. The root pool that a successful [Reload] installs holds the
    certificates of every TLS CA entry of the identity file, entry after
    entry and in their order, and every entry holds at least one; with no
    entry at all the reload still succeeds and installs an empty pool, not a
    nil one. *)
Theorem Reload_installs_all_CA_certificates (d : loc) (h h' : ProvHeap)
    (w w' : World) (st : DynamicIdentityFileCreds_t) (u : unit) :
  h !! d = Some st →
  Reload d h w = (h', w', Ret u) →
  ∃ id,
    ReadFile (Path st) (fs w) = Ok id ∧
    Forall (λ pem, CertsFromPEM pem ≠ []) (id_CACerts_TLS id) ∧
    tlsRootCAs <$> h' !! d =
      Some (Some (concat (CertsFromPEM <$> id_CACerts_TLS id))) ∧
    (id_CACerts_TLS id = [] → tlsRootCAs <$> h' !! d = Some (Some [])).
Proof.
  intros Hd Hr.
  destruct (Reload_Ret d h h' w w' st u Hd Hr) as (id & m & Hrd & Hp & ->).
  destruct Hp as (_ & Ha & _). apply appendAll_Some in Ha as [Hall Hpool].
  exists id. rewrite lookup_insert_eq. simpl. rewrite Hpool.
  split_and!; try done. by intros ->.
Qed.

(** X2. Whatever its outcome, [Reload] of one provider leaves every other
    provider of the store as it was, adds and removes none, keeps the [Path]
    of its own provider and leaves the file system as it was; when the
    provider is live it opens the identity file exactly once. *)
Theorem Reload_frame (d : loc) (h : ProvHeap) (w : World) :
  let h' := (Reload d h w).1.1 in
  let w' := (Reload d h w).1.2 in
  (∀ d', d' ≠ d → h' !! d' = h !! d') ∧
  dom h' = dom h ∧
  Path <$> h' !! d = Path <$> h !! d ∧
  fs w' = fs w ∧
  (∀ st, h !! d = Some st → reads w' = Path st :: reads w) ∧
  (h !! d = None → (Reload d h w).2 = Panic ∧ reads w' = reads w).
Proof.
  unfold Reload. destruct (h !! d) as [st|] eqn:Hd; simpl.
  2:{ rewrite Hd. split_and!; done. }
  assert (∀ st', dom (<[d := st']> h) = dom h) as Hdom.
  { intros st'. apply dom_insert_lookup_L. eauto. }
  repeat case_match; simpl; rewrite ?lookup_insert_eq, ?Hd; simpl;
    (split_and!; try done; try (intros d' Hne; by rewrite lookup_insert_ne);
     try (by intros ? [= <-])).
Qed.

Lemma Reload_lookup_ne (d d' : loc) (h : ProvHeap) (w : World) :
  d' ≠ d → (Reload d h w).1.1 !! d' = h !! d'.
Proof.
  intros Hne. unfold Reload. repeat case_match; simpl; try done.
  by rewrite lookup_insert_ne.
Qed.

(** X3. What a successful [Reload] leaves in the provider depends on the
    [Path] and on the file system alone, not on what the provider held
    before: two providers with the same [Path], reloaded against the same
    files, get the same outcome and, on success, the same fields. A second
    reload against unchanged files changes nothing more. *)
Theorem Reload_depends_on_file_only (d1 d2 : loc) (h1 h2 : ProvHeap)
    (w1 w2 : World) (st1 st2 : DynamicIdentityFileCreds_t) :
  h1 !! d1 = Some st1 → h2 !! d2 = Some st2 →
  Path st1 = Path st2 → fs w1 = fs w2 →
  (Reload d1 h1 w1).2 = (Reload d2 h2 w2).2 ∧
  ((Reload d1 h1 w1).2 = Ret tt →
     (Reload d1 h1 w1).1.1 !! d1 = (Reload d2 h2 w2).1.1 !! d2 ∧
     (Reload d1 (Reload d1 h1 w1).1.1 (Reload d1 h1 w1).1.2).1.1
       = (Reload d1 h1 w1).1.1 ∧
     (Reload d1 (Reload d1 h1 w1).1.1 (Reload d1 h1 w1).1.2).2 = Ret tt).
Proof.
  intros Hd1 Hd2 HP Hfs.
  destruct (load_fails_or_parses (Path st1) (fs w1)) as [Hf | (id & m & Hr & Hp)].
  - unfold Reload. rewrite Hd1, Hd2, <- HP, <- Hfs.
    destruct (ReadFile _ _) as [id|?] eqn:Er; [|done].
    destruct (X509KeyPair _ _) eqn:Ex; [|done].
    destruct (appendAll _ _) eqn:Ea; [|done].
    destruct (ParseCertificate _) eqn:Es; [|done].
    destruct (ParsePrivateKey _) eqn:Ek; [|done].
    destruct (ParseKnownHosts _) eqn:Eh; [|done].
    simpl. split; [done|]. intros _. exfalso.
    eapply (load_fails_not_parses _ _ id (mkMaterial _ _ _ _ _)); [done|done|].
    repeat split; simpl; eauto.
  - rewrite (Reload_parses d1 h1 w1 st1 id m Hd1 Hr Hp).
    pose proof Hr as Hr2. rewrite HP, Hfs in Hr2.
    rewrite (Reload_parses d2 h2 w2 st2 id m Hd2 Hr2 Hp). simpl.
    split; [done|]. intros _.
    split; [by rewrite !lookup_insert_eq, HP|].
    assert (<[d1 := of_material (Path st1) m]> h1 !! d1
            = Some (of_material (Path st1) m)) as Hd' by apply lookup_insert_eq.
    rewrite (Reload_parses d1 _ (mkWorld (fs w1) (Path st1 :: reads w1))
               _ id m Hd' Hr Hp).
    simpl. by rewrite insert_insert_eq.
Qed.

Lemma New_lookup_old (p : string) (h : ProvHeap) (w : World) (d' : loc) :
  is_Some (h !! d') →
  (NewDynamicIdentityFileCreds p h w).1.1 !! d' = h !! d'.
Proof.
  intros Hold. unfold NewDynamicIdentityFileCreds.
  assert (d' ≠ fresh (dom h)) as Hne.
  { intros ->. by apply (is_fresh (dom h)), elem_of_dom. }
  pose proof (Reload_lookup_ne (fresh (dom h)) d'
                (<[fresh (dom h) := mkDyn None None None None [] p]> h) w Hne) as Hl.
  rewrite lookup_insert_ne in Hl by done.
  destruct (Reload _ _ _) as [[h1 w1] [u|err|]]; simpl in *; done.
Qed.

Lemma New_Ret (p : string) (h h' : ProvHeap) (w w' : World) (d : loc) :
  NewDynamicIdentityFileCreds p h w = (h', w', Ret d) →
  h !! d = None ∧
  ∃ id m, ReadFile p (fs w) = Ok id ∧ parses_to id m ∧
    h' !! d = Some (of_material p m).
Proof.
  unfold NewDynamicIdentityFileCreds. intros Hnew.
  set (d0 := fresh (dom h)) in *.
  set (h0 := <[d0 := mkDyn None None None None [] p]> h) in *.
  assert (h0 !! d0 = Some (mkDyn None None None None [] p)) as Hd
    by apply lookup_insert_eq.
  destruct (Reload d0 h0 w) as [[h1 w1] [u|err|]] eqn:Er; try done.
  injection Hnew as <- <- <-.
  split; [apply not_elem_of_dom, is_fresh|].
  destruct (Reload_Ret _ _ _ _ _ _ _ Hd Er) as (id & m & Hr & Hp & ->).
  exists id, m. by rewrite lookup_insert_eq.
Qed.

(** X4. Providers do not share material. A provider made by
    [NewDynamicIdentityFileCreds] sits at a location no earlier provider
    has, and making it leaves the earlier ones as they were; a later
    [Reload] of the second provider, whatever its outcome, leaves the first
    one and the answers of its callbacks as they were. *)
Theorem providers_are_independent (p1 p2 : string) (h h1 h2 : ProvHeap)
    (w w1 w2 w3 : World) (d1 d2 : loc) :
  NewDynamicIdentityFileCreds p1 h w = (h1, w1, Ret d1) →
  NewDynamicIdentityFileCreds p2 h1 w2 = (h2, w3, Ret d2) →
  d1 ≠ d2 ∧
  (∀ d', is_Some (h !! d') → h1 !! d' = h !! d' ∧ h2 !! d' = h !! d') ∧
  h2 !! d1 = h1 !! d1 ∧
  ∀ w4,
    let h3 := (Reload d2 h2 w4).1.1 in
    h3 !! d1 = h1 !! d1 ∧
    getClientCertificate d1 h3 = getClientCertificate d1 h1 ∧
    verifyConnection d1 h3 = verifyConnection d1 h1 ∧
    publicKeysCallback d1 h3 = publicKeysCallback d1 h1 ∧
    getHostCheckers d1 h3 = getHostCheckers d1 h1.
Proof.
  intros Hn1 Hn2.
  destruct (New_Ret _ _ _ _ _ _ Hn1) as (Hnew1 & id1 & m1 & _ & _ & Hd1).
  destruct (New_Ret _ _ _ _ _ _ Hn2) as (Hnew2 & id2 & m2 & _ & _ & Hd2).
  assert (d1 ≠ d2) as Hne by (intros ->; congruence).
  assert (h2 !! d1 = h1 !! d1) as Hkeep.
  { pose proof (New_lookup_old p2 h1 w2 d1) as Hl. rewrite Hn2 in Hl.
    apply Hl. rewrite Hd1. eauto. }
  split; [done|]. split; [|split; [done|]].
  - intros d' Hold.
    pose proof (New_lookup_old p1 h w d' Hold) as Hl1. rewrite Hn1 in Hl1.
    split; [done|].
    pose proof (New_lookup_old p2 h1 w2 d') as Hl2. rewrite Hn2 in Hl2.
    simpl in *. rewrite Hl2; [done|]. by rewrite Hl1.
  - intros w4 h3.
    assert (h3 !! d1 = h1 !! d1) as Hsame.
    { unfold h3. by rewrite Reload_lookup_ne. }
    split; [done|].
    unfold getClientCertificate, verifyConnection, publicKeysCallback,
      getHostCheckers. by rewrite Hsame.
Qed.

(** X5. A provider that comes from [NewDynamicIdentityFileCreds] is ready:
    its callbacks hand out a certificate that is not nil, verify against a
    root pool that is not nil, and build the signer from a certificate and a
    key that are not nil. A provider that only has its [Path] set, which the
    exported struct allows, is not: until a first [Reload] its callbacks
    answer without error with a nil certificate, verify against nil roots,
    pass nil material to the signer construction and know no host. *)
Theorem constructed_provider_is_ready :
  (∀ (p : string) (h h' : ProvHeap) (w w' : World) (d : loc),
     NewDynamicIdentityFileCreds p h w = (h', w', Ret d) →
     ∃ cert pool c k,
       (∀ cri, getClientCertificate d h' cri = Ret (Some cert)) ∧
       (∀ state leaf rest, cs_PeerCertificates state = leaf :: rest →
          verifyConnection d h' state =
            verdict leaf (mkVerifyOptions (cs_ServerName state) rest (Some pool))) ∧
       publicKeysCallback d h' =
         match SSHSigner (Some c) (Some k) with
         | Ok s => Ret [s]
         | Err err => Fail (Wrap err)
         end) ∧
  (∀ (p : string) (h : ProvHeap) (d : loc),
     h !! d = Some (mkDyn None None None None [] p) →
     (∀ cri, getClientCertificate d h cri = Ret None) ∧
     (∀ state leaf rest, cs_PeerCertificates state = leaf :: rest →
        verifyConnection d h state =
          verdict leaf (mkVerifyOptions (cs_ServerName state) rest None)) ∧
     publicKeysCallback d h =
       match SSHSigner None None with
       | Ok s => Ret [s]
       | Err err => Fail (Wrap err)
       end ∧
     getHostCheckers d h = Ret []).
Proof.
  split.
  - intros p h h' w w' d Hnew.
    destruct (New_Ret _ _ _ _ _ _ Hnew) as (_ & id & m & _ & _ & Hd).
    exists (m_cert m), (m_pool m), (m_sshCert m), (m_sshKey m).
    unfold getClientCertificate, verifyConnection, publicKeysCallback, verdict.
    rewrite Hd. simpl. split; [done|]. split.
    + intros state leaf rest ->. by rewrite intermediates_pool.
    + by destruct (SSHSigner _ _).
  - intros p h d Hd.
    unfold getClientCertificate, verifyConnection, publicKeysCallback,
      getHostCheckers, verdict.
    rewrite Hd. simpl. split; [done|]. split.
    + intros state leaf rest ->. by rewrite intermediates_pool.
    + split; [|done]. by destruct (SSHSigner _ _).
Qed.

End ReloadMore.


(** ** [configureTLS] and the credentials built on it *)

Section ConfigureTLSMore.
Context `{Externals}.

Lemma fresh_cfg_ne (o : ObjHeap) (c : loc) :
  is_Some (cfgs o !! c) → fresh (dom (cfgs o)) ≠ c.
Proof.
  intros Hc Heq. pose proof (is_fresh (dom (cfgs o))) as Hf.
  rewrite Heq in Hf. by apply Hf, elem_of_dom.
Qed.

(** What [configureTLS] returns on a live argument. *)
Lemma configureTLS_eq (c : loc) (o : ObjHeap) (cfg : Config) :
  cfgs o !! c = Some cfg →
  configureTLS c o =
    (mkObjHeap
       (<[fresh (dom (cfgs o)) :=
            clone_of (Deduplicate (append (arrs o) (NextProtos cfg) NextProtoTLS).1
                        (append (arrs o) (NextProtos cfg) NextProtoTLS).2).2 cfg]>
          (cfgs o))
       (Deduplicate (append (arrs o) (NextProtos cfg) NextProtoTLS).1
          (append (arrs o) (NextProtos cfg) NextProtoTLS).2).1,
     Ret (fresh (dom (cfgs o)))).
Proof.
  intros Hc. unfold configureTLS. rewrite Hc.
  destruct (append _ _ _) as [a1 s1]. simpl.
  destruct (Deduplicate a1 s1) as [a2 s2]. simpl.
  unfold clone_of. destruct cfg as [np sn certs gcc roots isv vc]. simpl.
  by destruct certs; case_decide.
Qed.

(** X6. The clone that [configureTLS] returns has no static certificate and
    copies the root pool, the verification switch and the verification
    callback of its argument. When the argument holds certificates, the clone
    answers every certificate request, whatever the request and the store,
    with the first of them: a [GetClientCertificate] of the caller is
    replaced and the further certificates are dropped. When the argument
    holds none, the caller's [GetClientCertificate] is kept. *)
Theorem configureTLS_forces_first_certificate (c : loc) (o : ObjHeap)
    (cfg : Config) :
  cfgs o !! c = Some cfg →
  ∃ t o' clone,
    configureTLS c o = (o', Ret t) ∧
    cfgs o' !! t = Some clone ∧
    Certificates clone = [] ∧
    RootCAs clone = RootCAs cfg ∧
    InsecureSkipVerify clone = InsecureSkipVerify cfg ∧
    VerifyConnection clone = VerifyConnection cfg ∧
    (∀ cert rest, Certificates cfg = cert :: rest →
       ∃ g, GetClientCertificate clone = Some g ∧
         ∀ h cri, g h cri = Ret (Some cert)) ∧
    (Certificates cfg = [] →
       GetClientCertificate clone = GetClientCertificate cfg).
Proof.
  intros Hc. rewrite (configureTLS_eq c o cfg Hc).
  eexists _, _, _. split; [done|]. simpl. rewrite lookup_insert_eq.
  split; [done|]. simpl. split_and!; try done.
  - intros cert rest ->. by eexists.
  - by intros ->.
Qed.

Lemma slice_elems_length (a : gmap loc (list string)) (s : Slice) :
  slice_wf a s → length (slice_elems a s) = len s.
Proof.
  intros [Hlen [Hcap | (arr & Harr & Hb)]]; unfold slice_elems.
  - assert (len s = 0) as -> by lia. destruct (a !! base s); by rewrite ?take_0.
  - rewrite Harr, length_take, length_drop. lia.
Qed.

(** The slice that [append] returns holds the old elements and the new
    one. *)
Lemma slice_elems_append_result (a : gmap loc (list string)) (s : Slice)
    (x : string) :
  slice_wf a s →
  slice_elems (append a s x).1 (append a s x).2 = slice_elems a s ++ [x].
Proof.
  intros Hwf. pose proof (slice_elems_length a s Hwf) as Hlength.
  destruct Hwf as [Hlen Hcap].
  unfold append. case_decide as Hroom; simpl.
  - destruct Hcap as [Hcap | (arr & Harr & Hb)]; [lia|].
    unfold slice_elems. simpl. rewrite lookup_alter_eq, Harr. simpl.
    rewrite drop_insert_ge by lia.
    replace (off s + len s - off s) with (len s) by lia.
    rewrite (take_S_r _ _ x).
    + by rewrite take_insert_ge by lia.
    + apply list_lookup_insert_eq. rewrite length_drop. lia.
  - unfold slice_elems at 1. simpl. rewrite lookup_insert_eq, drop_0.
    rewrite take_app_ge by lia. rewrite Hlength.
    by replace (S (len s) - len s) with 1 by lia.
Qed.

(** X7. The protocols of the clone that [configureTLS] returns are those of
    the argument and "h2", as long as [utils.Deduplicate] keeps the members
    of what it is given: "h2" is always offered, nothing the caller offered
    is lost and nothing else is added. *)
Theorem configureTLS_offers_h2 (c : loc) (o : ObjHeap) (cfg : Config) :
  cfgs o !! c = Some cfg →
  slice_wf (arrs o) (NextProtos cfg) →
  Deduplicate_keeps_members →
  ∃ t o' clone,
    configureTLS c o = (o', Ret t) ∧
    cfgs o' !! t = Some clone ∧
    NextProtoTLS ∈ slice_elems (arrs o') (NextProtos clone) ∧
    ∀ x, x ∈ slice_elems (arrs o') (NextProtos clone) ↔
         x ∈ slice_elems (arrs o) (NextProtos cfg) ∨ x = NextProtoTLS.
Proof.
  intros Hc Hwf Hdedup. rewrite (configureTLS_eq c o cfg Hc).
  eexists _, _, _. split; [done|]. simpl. rewrite lookup_insert_eq.
  split; [done|]. simpl.
  pose proof (slice_elems_append_result (arrs o) (NextProtos cfg) NextProtoTLS Hwf)
    as Happ.
  destruct (append _ _ _) as [a1 s1]. simpl in *.
  destruct (Deduplicate a1 s1) as [a2 s2] eqn:Ed. simpl.
  assert (∀ x, x ∈ slice_elems a2 s2 ↔
               x ∈ slice_elems (arrs o) (NextProtos cfg) ∨ x = NextProtoTLS) as Hmem.
  { intros x. rewrite (Hdedup _ _ _ _ Ed x), Happ, elem_of_app.
    by rewrite list_elem_of_singleton. }
  split; [|done]. apply Hmem. by right.
Qed.

(** On a configuration that has a server name and no static certificate,
    [configureTLS] changes the protocols only. *)
Lemma configureTLS_configured (c : loc) (o : ObjHeap) (cfg : Config) :
  cfgs o !! c = Some cfg → ServerName cfg ≠ "" → Certificates cfg = [] →
  ∃ s o', configureTLS c o = (o', Ret (fresh (dom (cfgs o)))) ∧
    cfgs o' = <[fresh (dom (cfgs o)) := set_NextProtos s cfg]> (cfgs o).
Proof.
  intros Hc Hsn Hcerts. rewrite (configureTLS_eq c o cfg Hc).
  eexists _, _. split; [done|]. simpl. f_equal.
  unfold clone_of, set_NextProtos. rewrite Hcerts, decide_False by done.
  by rewrite <- Hcerts.
Qed.

(** X8. [configureTLS] applied to its own result changes the protocols
    only: the server name, the certificate callback and every other field
    stay as the first application left them. *)
Theorem configureTLS_twice (c : loc) (o : ObjHeap) (cfg : Config) :
  cfgs o !! c = Some cfg →
  ∃ t1 o1 clone t2 o2 s,
    configureTLS c o = (o1, Ret t1) ∧
    cfgs o1 !! t1 = Some clone ∧
    configureTLS t1 o1 = (o2, Ret t2) ∧
    t2 ≠ t1 ∧
    cfgs o2 !! t2 = Some (set_NextProtos s clone) ∧
    cfgs o2 !! t1 = Some clone.
Proof.
  intros Hc. pose proof (configureTLS_eq c o cfg Hc) as H1.
  set (t1 := fresh (dom (cfgs o))) in *.
  match type of H1 with
  | _ = (?o1', _) => set (o1 := o1') in *
  end.
  assert (∃ clone, cfgs o1 !! t1 = Some clone ∧ ServerName clone ≠ "" ∧
                   Certificates clone = []) as (clone & Hcl & Hsn & Hcerts).
  { eexists. split; [apply lookup_insert_eq|]. simpl. split; [|done].
    by case_decide. }
  destruct (configureTLS_configured _ _ _ Hcl Hsn Hcerts) as (s & o2 & H2 & Ho2).
  assert (fresh (dom (cfgs o1)) ≠ t1) as Hne by (apply fresh_cfg_ne; eauto).
  exists t1, o1, clone, (fresh (dom (cfgs o1))), o2, s.
  split_and!; try done.
  - by rewrite Ho2, lookup_insert_eq.
  - by rewrite Ho2, lookup_insert_ne.
Qed.

(** X9. Passing the configuration of the reloadable provider through
    [configureTLS] keeps it dynamic: the clone has the callbacks that read
    the provider at call time, the sentinel as server name, no static
    certificate and the built-in verification off. *)
Theorem configureTLS_keeps_dynamic_callbacks (d : loc) (o : ObjHeap) :
  ∃ c o1 t o2 clone,
    DynamicIdentityFileCreds.TLSConfig d o = (o1, Ret c) ∧
    configureTLS c o1 = (o2, Ret t) ∧
    t ≠ c ∧
    cfgs o2 !! t = Some clone ∧
    GetClientCertificate clone
      = Some (DynamicIdentityFileCreds.getClientCertificate d) ∧
    VerifyConnection clone = Some (DynamicIdentityFileCreds.verifyConnection d) ∧
    ServerName clone = APIDomain ∧
    Certificates clone = [] ∧
    RootCAs clone = None ∧
    InsecureSkipVerify clone = true.
Proof.
  unfold DynamicIdentityFileCreds.TLSConfig.
  set (c := fresh (dom (cfgs o))).
  match goal with
  | |- ∃ _ _ _ _ _, (?o1', _) = _ ∧ _ => set (o1 := o1')
  end.
  assert (∃ cfg, cfgs o1 !! c = Some cfg ∧ ServerName cfg = APIDomain ∧
            Certificates cfg = [] ∧
            GetClientCertificate cfg
              = Some (DynamicIdentityFileCreds.getClientCertificate d) ∧
            VerifyConnection cfg
              = Some (DynamicIdentityFileCreds.verifyConnection d) ∧
            RootCAs cfg = None ∧ InsecureSkipVerify cfg = true)
    as (cfg & Hc & Hsn & Hcerts & Hg & Hv & Hroots & Hisv).
  { eexists. split; [apply lookup_insert_eq|]. done. }
  assert (ServerName cfg ≠ "") as Hne by (by rewrite Hsn).
  destruct (configureTLS_configured _ _ _ Hc Hne Hcerts) as (s & o2 & H2 & Ho2).
  exists c, o1, (fresh (dom (cfgs o1))), o2, (set_NextProtos s cfg).
  split_and!; try done.
  - apply fresh_cfg_ne. eauto.
  - by rewrite Ho2, lookup_insert_eq.
Qed.

End ConfigureTLSMore.

Section StaticTLSProps.
Context `{MoreExternals}.

(** X10. The credentials made by [LoadTLS]: with a nil [tls.Config] the
    call fails in the class [BadParameter] and nothing panics; with a
    configuration, every call returns a new clone, so that two calls return
    two different structs that agree on every field but the protocol slice,
    and the configuration that was given and the clone of the first call are
    left as they were by the second. Neither a dialer nor an SSH
    configuration is ever to be had from them. *)
Theorem LoadTLS_clones_on_every_call :
  (∀ o, tlsConfigCreds.TLSConfig (tlsConfigCreds.LoadTLS None) o
        = (o, Fail (NewBadParameter "tls config is nil"))) ∧
  (∀ (p : loc) (o : ObjHeap) (cfg : Config),
     cfgs o !! p = Some cfg →
     ∃ t1 o1 t2 o2 s1 s2,
       tlsConfigCreds.TLSConfig (tlsConfigCreds.LoadTLS (Some p)) o = (o1, Ret t1) ∧
       tlsConfigCreds.TLSConfig (tlsConfigCreds.LoadTLS (Some p)) o1 = (o2, Ret t2) ∧
       t1 ≠ p ∧ t2 ≠ p ∧ t1 ≠ t2 ∧
       cfgs o1 !! p = Some cfg ∧ cfgs o2 !! p = Some cfg ∧
       cfgs o1 !! t1 = Some (clone_of s1 cfg) ∧
       cfgs o2 !! t1 = Some (clone_of s1 cfg) ∧
       cfgs o2 !! t2 = Some (clone_of s2 cfg)) ∧
  (∀ c cfg, ∃ e1 e2,
     tlsConfigCreds.Dialer c cfg = Err e1 ∧ kind e1 = NotImplemented ∧
     tlsConfigCreds.SSHClientConfig c = Err e2 ∧ kind e2 = NotImplemented).
Proof.
  split; [done|]. split; [|by eexists _, _].
  intros p o cfg Hp. unfold tlsConfigCreds.TLSConfig. simpl.
  pose proof (configureTLS_eq p o cfg Hp) as Hcall1.
  set (t1 := fresh (dom (cfgs o))) in *.
  match type of Hcall1 with
  | _ = (?o1', _) => set (o1 := o1') in *
  end.
  assert (t1 ≠ p) as Hne1 by (apply fresh_cfg_ne; eauto).
  assert (cfgs o1 !! p = Some cfg) as Hp1 by (simpl; by rewrite lookup_insert_ne).
  pose proof (configureTLS_eq p o1 cfg Hp1) as Hcall2.
  set (t2 := fresh (dom (cfgs o1))) in *.
  match type of Hcall2 with
  | _ = (?o2', _) => set (o2 := o2') in *
  end.
  assert (t2 ≠ p) as Hne2 by (apply fresh_cfg_ne; eauto).
  assert (t2 ≠ t1) as Hne12.
  { apply fresh_cfg_ne. simpl. rewrite lookup_insert_eq. eauto. }
  eexists t1, o1, t2, o2, _, _. split; [exact Hcall1|]. split; [exact Hcall2|].
  split_and!; try done.
  - simpl. by rewrite lookup_insert_ne, lookup_insert_ne.
  - simpl. apply lookup_insert_eq.
  - simpl. rewrite lookup_insert_ne by done. apply lookup_insert_eq.
  - simpl. apply lookup_insert_eq.
Qed.

(** X11. [keypairCreds.TLSConfig]. A key pair that does not load fails
    first, with the wrapped error, whatever the CA file holds; then a CA
    file that cannot be read, with the error [trace.ConvertSystemError]
    makes of it; then a CA file without certificate, in the class
    [BadParameter]; none of these touches the store of configurations. When
    all three succeed the result is a new configuration that answers every
    certificate request with the loaded key pair, trusts exactly the
    certificates of the CA file, names the sentinel as server and keeps the
    built-in verification on; the configurations already there are left as
    they were. *)
Theorem keypair_TLSConfig_cases (c : keypairCreds.t) (o : ObjHeap) (f : FS) :
  (∀ err,
     LoadX509KeyPair (keypairCreds.certFile c) (keypairCreds.keyFile c) f = Err err →
     keypairCreds.TLSConfig c o f = (o, Fail (Wrap err))) ∧
  (∀ cert err,
     LoadX509KeyPair (keypairCreds.certFile c) (keypairCreds.keyFile c) f = Ok cert →
     os_ReadFile (keypairCreds.caFile c) f = Err err →
     keypairCreds.TLSConfig c o f = (o, Fail (ConvertSystemError err))) ∧
  (∀ cert cas,
     LoadX509KeyPair (keypairCreds.certFile c) (keypairCreds.keyFile c) f = Ok cert →
     os_ReadFile (keypairCreds.caFile c) f = Ok cas →
     CertsFromPEM cas = [] →
     keypairCreds.TLSConfig c o f
       = (o, Fail (NewBadParameter "invalid TLS CA cert PEM"))) ∧
  (∀ cert cas,
     LoadX509KeyPair (keypairCreds.certFile c) (keypairCreds.keyFile c) f = Ok cert →
     os_ReadFile (keypairCreds.caFile c) f = Ok cas →
     CertsFromPEM cas ≠ [] →
     ∃ t o' clone g,
       keypairCreds.TLSConfig c o f = (o', Ret t) ∧
       cfgs o !! t = None ∧
       cfgs o' !! t = Some clone ∧
       (∀ c', is_Some (cfgs o !! c') → cfgs o' !! c' = cfgs o !! c') ∧
       GetClientCertificate clone = Some g ∧
       (∀ h cri, g h cri = Ret (Some cert)) ∧
       Certificates clone = [] ∧
       RootCAs clone = Some (CertsFromPEM cas) ∧
       ServerName clone = APIDomain ∧
       InsecureSkipVerify clone = false ∧
       VerifyConnection clone = None).
Proof.
  unfold keypairCreds.TLSConfig. split_and!.
  - by intros err ->.
  - by intros cert err -> ->.
  - intros cert cas -> -> Hbad. unfold AppendCertsFromPEM. by rewrite Hbad.
  - intros cert cas -> -> Hgood. unfold AppendCertsFromPEM.
    destruct (CertsFromPEM cas) as [|x l] eqn:Ecas; [done|].
    set (p := fresh (dom (cfgs o))).
    set (lit := mkConfig nilSlice "" [cert] None (Some (NewCertPool ++ x :: l))
                         false None).
    set (o1 := mkObjHeap (<[p := lit]> (cfgs o)) (arrs o)).
    assert (cfgs o1 !! p = Some lit) as Hp by apply lookup_insert_eq.
    rewrite (configureTLS_eq p o1 lit Hp).
    assert (cfgs o !! p = None) as Hpnew by apply not_elem_of_dom, is_fresh.
    assert (fresh (dom (cfgs o1)) ≠ p) as Hne by (apply fresh_cfg_ne; eauto).
    eexists _, _, _, _. split; [done|]. simpl.
    split.
    { apply not_elem_of_dom. intros Hin.
      apply (is_fresh (dom (cfgs o1))), elem_of_dom. simpl.
      rewrite lookup_insert_ne by done. by apply elem_of_dom. }
    rewrite lookup_insert_eq. split; [done|]. split.
    { intros c' Hc'. rewrite !lookup_insert_ne; [done| |].
      - intros <-. rewrite Hpnew in Hc'. by destruct Hc'.
      - intros <-. apply (is_fresh (dom (cfgs o1))), elem_of_dom. simpl.
        by rewrite lookup_insert_ne. }
    simpl. by split_and!.
Qed.

End StaticTLSProps.


(** ** The lazy credentials: retries, and the profile *)

Section LazyMore.
Context `{MoreExternals}.

(** X12. A load of the static file credentials that fails is not
    remembered: the credentials stay unloaded, and a later call reads the
    file again and answers from what it then holds. An identity that was
    read is remembered even when the call that read it fails afterwards. For
    the credentials made from a string a failure is final: every later call
    fails with the same error. [SSHClientConfig] of either never panics. *)
Theorem failed_load_is_retried :
  (∀ (p : string) (o : ObjHeap) (w1 w2 : World) (err : Error) (id : IdentityFile),
     ReadFile p (fs w1) = Err err → ReadFile p (fs w2) = Ok id →
     let c1 := (identityCredsFile.TLSConfig
                  (identityCredsFile.LoadIdentityFile p) o w1).1.1.1 in
     identityCredsFile.identityFile c1 = None ∧
     identityCredsFile.SSHClientConfig c1 w2 =
       (identityCredsFile.mk (Some id) p, mkWorld (fs w2) (p :: reads w2),
        ssh_from_identity id) ∧
     identityCredsFile.TLSConfig c1 o w2 =
       (identityCredsFile.mk (Some id) p, (tls_from_identity id o).1,
        mkWorld (fs w2) (p :: reads w2), (tls_from_identity id o).2)) ∧
  (∀ (p : string) (w : World) (id : IdentityFile) (err : Error),
     ReadFile p (fs w) = Ok id → IdentityFile_SSHClientConfig id = Err err →
     identityCredsFile.SSHClientConfig (identityCredsFile.LoadIdentityFile p) w =
       (identityCredsFile.mk (Some id) p, mkWorld (fs w) (p :: reads w),
        Fail (Wrap err))) ∧
  (∀ (content : string) (o o' : ObjHeap) (err : Error),
     FromString content = Err err →
     let c0 := identityCredsString.LoadIdentityFileFromString content in
     let s := Wrap (NewBadParameter
                      (String.append "identity file could not be decoded: "
                                     (message err))) in
     identityCredsString.TLSConfig c0 o = (c0, o, Fail s) ∧
     identityCredsString.TLSConfig
       (identityCredsString.TLSConfig c0 o).1.1 o' = (c0, o', Fail s) ∧
     identityCredsString.SSHClientConfig
       (identityCredsString.TLSConfig c0 o).1.1 = (c0, Fail s)) ∧
  (∀ c w, (identityCredsFile.SSHClientConfig c w).2 ≠ Panic) ∧
  (∀ c, (identityCredsString.SSHClientConfig c).2 ≠ Panic).
Proof.
  split_and!.
  - intros p o w1 w2 err id Hr1 Hr2.
    unfold identityCredsFile.TLSConfig, identityCredsFile.SSHClientConfig,
      identityCredsFile.load, identityCredsFile.LoadIdentityFile,
      ssh_from_identity, tls_from_identity.
    simpl. rewrite Hr1. simpl. rewrite Hr2. simpl.
    split; [done|]. split.
    + by destruct (IdentityFile_SSHClientConfig id).
    + destruct (IdentityFile_TLSConfig id o) as [o1 [t|e]]; [|done].
      by destruct (configureTLS t o1).
  - intros p w id err Hr He.
    unfold identityCredsFile.SSHClientConfig, identityCredsFile.load,
      identityCredsFile.LoadIdentityFile.
    simpl. rewrite Hr. simpl. by rewrite He.
  - intros content o o' err Hf.
    unfold identityCredsString.TLSConfig, identityCredsString.SSHClientConfig,
      identityCredsString.load, identityCredsString.LoadIdentityFileFromString.
    simpl. rewrite Hf. simpl. by rewrite Hf.
  - intros c w. unfold identityCredsFile.SSHClientConfig, identityCredsFile.load.
    destruct (identityCredsFile.identityFile c) as [id|] eqn:Hid; simpl.
    + rewrite Hid. by destruct (IdentityFile_SSHClientConfig id).
    + destruct (ReadFile _ _) as [id|err]; simpl; [|done].
      by destruct (IdentityFile_SSHClientConfig id).
  - intros c. unfold identityCredsString.SSHClientConfig, identityCredsString.load.
    destruct (identityCredsString.identityFile c) as [id|] eqn:Hid; simpl.
    + rewrite Hid. by destruct (IdentityFile_SSHClientConfig id).
    + destruct (FromString _) as [id|err]; simpl; [|done].
      by destruct (IdentityFile_SSHClientConfig id).
Qed.

Lemma profile_cached (c : profileCreds.t) (p : Profile) :
  profileCreds.profile c = Some p →
  ∀ (cfg : client.Config) (o : ObjHeap) (w : World),
    profileCreds.TLSConfig c o w =
      (c, (tls_from_profile p o).1, w, (tls_from_profile p o).2) ∧
    profileCreds.SSHClientConfig c w = (c, w, ssh_from_profile p) ∧
    profileCreds.Dialer c cfg o w =
      (c, (dialer_from_profile p cfg o).1, w, (dialer_from_profile p cfg o).2).
Proof.
  intros Hp cfg o w.
  assert (profileCreds.SSHClientConfig c w = (c, w, ssh_from_profile p)) as Hssh.
  { unfold profileCreds.SSHClientConfig, profileCreds.load, ssh_from_profile.
    rewrite Hp. simpl. rewrite Hp. by destruct (Profile_SSHClientConfig p). }
  split_and!; [|done|].
  - unfold profileCreds.TLSConfig, profileCreds.load, tls_from_profile.
    rewrite Hp. simpl. rewrite Hp.
    destruct (Profile_TLSConfig p o) as [o1 [t|err]]; [|done].
    by destruct (configureTLS t o1).
  - unfold profileCreds.Dialer. rewrite Hssh.
    unfold ssh_from_profile, dialer_from_profile.
    destruct (Profile_SSHClientConfig p) as [ssh|err]; [|done].
    rewrite Hp. by destruct (Profile_TLSConfig p o) as [o1 [t|err]].
Qed.

(** What a call on unloaded profile credentials does. *)
Lemma profile_unloaded (c : profileCreds.t) :
  profileCreds.profile c = None →
  ∀ (cfg : client.Config) (o : ObjHeap) (w : World),
    let w1 := mkWorld (fs w) (profileCreds.dir c :: reads w) in
    (∀ p, FromDir (profileCreds.dir c) (profileCreds.name c) (fs w) = Ok p →
       let c1 := profileCreds.mk (profileCreds.dir c) (profileCreds.name c) (Some p) in
       profileCreds.TLSConfig c o w =
         (c1, (tls_from_profile p o).1, w1, (tls_from_profile p o).2) ∧
       profileCreds.SSHClientConfig c w = (c1, w1, ssh_from_profile p) ∧
       profileCreds.Dialer c cfg o w =
         (c1, (dialer_from_profile p cfg o).1, w1, (dialer_from_profile p cfg o).2)) ∧
    (∀ err, FromDir (profileCreds.dir c) (profileCreds.name c) (fs w) = Err err →
       let c1 := profileCreds.mk (profileCreds.dir c) (profileCreds.name c) None in
       let s := NewBadParameter
                  (String.append "profile could not be decoded: " (message err)) in
       profileCreds.TLSConfig c o w = (c1, o, w1, Fail (Wrap s)) ∧
       profileCreds.SSHClientConfig c w = (c1, w1, Fail (Wrap s)) ∧
       profileCreds.Dialer c cfg o w = (c1, o, w1, Fail (Wrap (Wrap s)))).
Proof.
  intros Hp cfg o w w1. split.
  - intros p Hf c1.
    assert (profileCreds.SSHClientConfig c w = (c1, w1, ssh_from_profile p)) as Hssh.
    { unfold profileCreds.SSHClientConfig, profileCreds.load, ssh_from_profile.
      rewrite Hp, Hf. simpl. by destruct (Profile_SSHClientConfig p). }
    split_and!; [|done|].
    + unfold profileCreds.TLSConfig, profileCreds.load, tls_from_profile.
      rewrite Hp, Hf. simpl.
      destruct (Profile_TLSConfig p o) as [o1 [t|err]]; [|done].
      by destruct (configureTLS t o1).
    + unfold profileCreds.Dialer. rewrite Hssh.
      unfold ssh_from_profile, dialer_from_profile.
      destruct (Profile_SSHClientConfig p) as [ssh|err]; [|done].
      simpl. by destruct (Profile_TLSConfig p o) as [o1 [t|err]].
  - intros err Hf c1 s.
    assert (profileCreds.SSHClientConfig c w = (c1, w1, Fail (Wrap s))) as Hssh.
    { unfold profileCreds.SSHClientConfig, profileCreds.load.
      by rewrite Hp, Hf. }
    split_and!; [|done|].
    + unfold profileCreds.TLSConfig, profileCreds.load. by rewrite Hp, Hf.
    + unfold profileCreds.Dialer. by rewrite Hssh.
Qed.

(** X13. The profile credentials read the profile directory at most once.
    After a first successful [TLSConfig], [SSHClientConfig] or [Dialer] the
    profile is cached; it is the one the directory held at that call when
    nothing was cached before. From then on each of the three answers from
    the cached profile whatever the file system holds by then, opens nothing,
    and leaves the credentials as they are. *)
Theorem profile_read_at_most_once (c c1 : profileCreds.t) (w w1 : World) :
  profile_call_succeeds c w c1 w1 →
  ∃ p,
    profileCreds.profile c1 = Some p ∧
    (profileCreds.profile c = None →
       FromDir (profileCreds.dir c) (profileCreds.name c) (fs w) = Ok p ∧
       reads w1 = profileCreds.dir c :: reads w) ∧
    ∀ (cfg : client.Config) (o' : ObjHeap) (w' : World),
      profileCreds.TLSConfig c1 o' w' =
        (c1, (tls_from_profile p o').1, w', (tls_from_profile p o').2) ∧
      profileCreds.SSHClientConfig c1 w' = (c1, w', ssh_from_profile p) ∧
      profileCreds.Dialer c1 cfg o' w' =
        (c1, (dialer_from_profile p cfg o').1, w', (dialer_from_profile p cfg o').2).
Proof.
  intros Hcall.
  destruct (profileCreds.profile c) as [p|] eqn:Hp.
  - exists p.
    assert (c1 = c) as ->.
    { destruct Hcall as [o o1 t Hc | s Hc | cfg o o1 dl Hc];
        destruct (profile_cached c p Hp (client.mkConfig 0 0 false)
                    (mkObjHeap ∅ ∅) w) as (_ & Hs & _).
      - destruct (profile_cached c p Hp (client.mkConfig 0 0 false) o w)
          as (Ht & _ & _). congruence.
      - congruence.
      - destruct (profile_cached c p Hp cfg o w) as (_ & _ & Hd). congruence. }
    split; [done|]. split; [done|]. by apply profile_cached.
  - destruct (FromDir (profileCreds.dir c) (profileCreds.name c) (fs w))
      as [p|err] eqn:Hf.
    + exists p.
      assert (c1 = profileCreds.mk (profileCreds.dir c) (profileCreds.name c) (Some p)
              ∧ w1 = mkWorld (fs w) (profileCreds.dir c :: reads w)) as [-> ->].
      { destruct Hcall as [o o1 t Hc | s Hc | cfg o o1 dl Hc].
        - destruct (profile_unloaded c Hp (client.mkConfig 0 0 false) o w)
            as [Hok _]. destruct (Hok p Hf) as (Ht & _ & _).
          rewrite Ht in Hc. by injection Hc as <- _ <- _.
        - destruct (profile_unloaded c Hp (client.mkConfig 0 0 false)
                      (mkObjHeap ∅ ∅) w) as [Hok _].
          destruct (Hok p Hf) as (_ & Hs & _).
          rewrite Hs in Hc. by injection Hc as <- <- _.
        - destruct (profile_unloaded c Hp cfg o w) as [Hok _].
          destruct (Hok p Hf) as (_ & _ & Hd).
          rewrite Hd in Hc. by injection Hc as <- _ <- _. }
      split; [done|]. split; [done|]. by apply profile_cached.
    + exfalso. destruct Hcall as [o o1 t Hc | s Hc | cfg o o1 dl Hc].
      * destruct (profile_unloaded c Hp (client.mkConfig 0 0 false) o w)
          as [_ Hbad]. destruct (Hbad err Hf) as (Ht & _ & _). congruence.
      * destruct (profile_unloaded c Hp (client.mkConfig 0 0 false)
                    (mkObjHeap ∅ ∅) w) as [_ Hbad].
        destruct (Hbad err Hf) as (_ & Hs & _). congruence.
      * destruct (profile_unloaded c Hp cfg o w) as [_ Hbad].
        destruct (Hbad err Hf) as (_ & _ & Hd). congruence.
Qed.

(** X14. [profileCreds.Dialer], the one dialer of the file. It never
    panics: the profile is dereferenced only after [SSHClientConfig] has
    loaded it. A profile that does not load surfaces in the class
    [BadParameter] with the loader's message after a fixed text. The SSH
    configuration is asked for first, and when the profile has none the TLS
    configuration is not asked for. On success the dialer is built from the
    SSH configuration of the profile, the three settings of the client
    configuration, the proxy address of the profile and the TLS
    configuration of the profile itself, which is not passed through
    [configureTLS]. The other five credentials have no dialer. *)
Theorem profile_Dialer_cases (c : profileCreds.t) (cfg : client.Config)
    (o : ObjHeap) (w : World) :
  (profileCreds.Dialer c cfg o w).2 ≠ Panic ∧
  (∀ err,
     profileCreds.profile c = None →
     FromDir (profileCreds.dir c) (profileCreds.name c) (fs w) = Err err →
     ∃ s, (profileCreds.Dialer c cfg o w).2 = Fail s ∧
       (profileCreds.Dialer c cfg o w).1.1.2 = o ∧
       kind s = BadParameter ∧
       message s = String.append "profile could not be decoded: " (message err)) ∧
  (∀ p,
     (profileCreds.profile c = Some p ∨
      (profileCreds.profile c = None ∧
       FromDir (profileCreds.dir c) (profileCreds.name c) (fs w) = Ok p)) →
     (∀ err, Profile_SSHClientConfig p = Err err →
        (profileCreds.Dialer c cfg o w).2 = Fail (Wrap (Wrap err)) ∧
        (profileCreds.Dialer c cfg o w).1.1.2 = o) ∧
     (∀ ssh o1 err, Profile_SSHClientConfig p = Ok ssh →
        Profile_TLSConfig p o = (o1, Err err) →
        (profileCreds.Dialer c cfg o w).2 = Fail (Wrap err)) ∧
     (∀ ssh o1 t, Profile_SSHClientConfig p = Ok ssh →
        Profile_TLSConfig p o = (o1, Ok t) →
        (profileCreds.Dialer c cfg o w).2 =
          Ret (NewProxyDialer ssh (client.KeepAlivePeriod cfg)
                 (client.DialTimeout cfg) (WebProxyAddr p)
                 (client.InsecureAddressDiscovery cfg) t) ∧
        (profileCreds.Dialer c cfg o w).1.1.2 = o1 ∧
        profileCreds.profile (profileCreds.Dialer c cfg o w).1.1.1 = Some p)) ∧
  (∀ tc kc fc sc d,
     tlsConfigCreds.Dialer tc cfg = Err (NewNotImplemented "no dialer") ∧
     keypairCreds.Dialer kc cfg = Err (NewNotImplemented "no dialer") ∧
     identityCredsFile_Dialer fc cfg = Err (NewNotImplemented "no dialer") ∧
     identityCredsString_Dialer sc cfg = Err (NewNotImplemented "no dialer") ∧
     DynamicIdentityFileCreds_Dialer d cfg = Err (NewNotImplemented "no dialer")).
Proof.
  assert (∀ p, (dialer_from_profile p cfg o).2 ≠ Panic) as Hnopanic.
  { intros p. unfold dialer_from_profile.
    destruct (Profile_SSHClientConfig p); [|done].
    by destruct (Profile_TLSConfig p o) as [o1 [t|err]]. }
  assert (∀ p,
     (profileCreds.profile c = Some p ∨
      (profileCreds.profile c = None ∧
       FromDir (profileCreds.dir c) (profileCreds.name c) (fs w) = Ok p)) →
     (profileCreds.Dialer c cfg o w).2 = (dialer_from_profile p cfg o).2 ∧
     (profileCreds.Dialer c cfg o w).1.1.2 = (dialer_from_profile p cfg o).1 ∧
     profileCreds.profile (profileCreds.Dialer c cfg o w).1.1.1 = Some p) as Hloaded.
  { intros p [Hp | [Hp Hf]].
    - destruct (profile_cached c p Hp cfg o w) as (_ & _ & ->). done.
    - destruct (profile_unloaded c Hp cfg o w) as [Hok _].
      destruct (Hok p Hf) as (_ & _ & ->). done. }
  split_and!.
  - destruct (profileCreds.profile c) as [p|] eqn:Hp.
    + destruct (Hloaded p) as (-> & _); [by left|]. apply Hnopanic.
    + destruct (FromDir (profileCreds.dir c) (profileCreds.name c) (fs w))
        as [p|err] eqn:Hf.
      * destruct (Hloaded p) as (-> & _); [by right|]. apply Hnopanic.
      * destruct (profile_unloaded c Hp cfg o w) as [_ Hbad].
        destruct (Hbad err Hf) as (_ & _ & ->). done.
  - intros err Hp Hf. destruct (profile_unloaded c Hp cfg o w) as [_ Hbad].
    destruct (Hbad err Hf) as (_ & _ & ->). by eexists.
  - intros p Hp. destruct (Hloaded p Hp) as (-> & -> & ->).
    unfold dialer_from_profile. split_and!.
    + by intros err ->.
    + by intros ssh o1 err -> ->.
    + by intros ssh o1 t -> ->.
  - done.
Qed.

Lemma configureTLS_result (c t : loc) (o o' : ObjHeap) :
  configureTLS c o = (o', Ret t) →
  ∃ clone, cfgs o' !! t = Some clone ∧ ServerName clone ≠ "" ∧
    Certificates clone = [] ∧ cfgs o !! t = None.
Proof.
  destruct (cfgs o !! c) as [cfg|] eqn:Hc.
  - rewrite (configureTLS_eq c o cfg Hc). intros [= <- <-]. simpl.
    eexists. split; [apply lookup_insert_eq|]. simpl.
    split; [by case_decide|]. split; [done|].
    apply not_elem_of_dom, is_fresh.
  - unfold configureTLS. by rewrite Hc.
Qed.

(** X18. Every TLS configuration that any of the six credentials hands out
    names a server and holds no static certificate: a client certificate, if
    any, is only to be had through its [GetClientCertificate] callback. *)
Theorem every_TLSConfig_names_a_server :
  let good (o' : ObjHeap) (t : loc) :=
    ∃ clone, cfgs o' !! t = Some clone ∧ ServerName clone ≠ "" ∧
      Certificates clone = [] in
  (∀ c o o' t, tlsConfigCreds.TLSConfig c o = (o', Ret t) → good o' t) ∧
  (∀ c o f o' t, keypairCreds.TLSConfig c o f = (o', Ret t) → good o' t) ∧
  (∀ c o w c' o' w' t,
     identityCredsFile.TLSConfig c o w = (c', o', w', Ret t) → good o' t) ∧
  (∀ c o c' o' t,
     identityCredsString.TLSConfig c o = (c', o', Ret t) → good o' t) ∧
  (∀ c o w c' o' w' t,
     profileCreds.TLSConfig c o w = (c', o', w', Ret t) → good o' t) ∧
  (∀ d o o' t,
     DynamicIdentityFileCreds.TLSConfig d o = (o', Ret t) → good o' t).
Proof.
  intros good.
  assert (∀ c o o' t, configureTLS c o = (o', Ret t) → good o' t) as Hcfg.
  { intros c o o' t Hr. destruct (configureTLS_result c t o o' Hr)
      as (clone & Hl & Hsn & Hcerts & _). by exists clone. }
  split_and!.
  - intros c o o' t. unfold tlsConfigCreds.TLSConfig.
    destruct (tlsConfigCreds.tlsConfig c); [|done]. apply Hcfg.
  - intros c o f o' t. unfold keypairCreds.TLSConfig.
    repeat case_match; try done. apply Hcfg.
  - intros c o w c' o' w' t. unfold identityCredsFile.TLSConfig.
    repeat case_match; try done. intros [= <- <- <- ->]. by eapply Hcfg.
  - intros c o c' o' t. unfold identityCredsString.TLSConfig.
    repeat case_match; try done. intros [= <- <- ->]. by eapply Hcfg.
  - intros c o w c' o' w' t. unfold profileCreds.TLSConfig.
    repeat case_match; try done. intros [= <- <- <- ->]. by eapply Hcfg.
  - intros d o o' t. unfold DynamicIdentityFileCreds.TLSConfig.
    intros [= <- <-]. simpl.
    eexists. split; [apply lookup_insert_eq|done].
Qed.

End LazyMore.


(** ** Progress and completion of the concurrent runs *)

Section ConcurrentMore.
Context `{Externals}.
Import DynamicIdentityFileCreds Concurrent.

Lemma count_pos (M : Mode) (ts : list Thread) :
  0 < count M ts → ∃ n t, ts !! n = Some t ∧ mode_of (code t) = M.
Proof.
  induction ts as [|t ts IH]; simpl; [lia|].
  unfold weight. case_decide as Hm.
  - intros _. by exists 0, t.
  - intros Hpos. destruct IH as (n & t' & Hn & Hm'); [lia|]. by exists (S n), t'.
Qed.

(** The step a thread takes, by the instruction at its head. *)
Lemma step_thread_head (n : nat) (c : Conf) (t : Thread) (i : Instr)
    (k : list Instr) :
  threads c !! n = Some t → code t = i :: k →
  step_thread n c = run_instr n t i k c.
Proof. intros Ht Hc. unfold step_thread. by rewrite Ht, Hc. Qed.

Lemma no_deadlock (st0 : DynamicIdentityFileCreds_t) (ms : list Material)
    (conns : list (list Callback)) (c : Conf) :
  inv st0 ms conns c →
  (∃ i t, threads c !! i = Some t ∧ code t ≠ []) →
  ∃ n c', n < length (threads c) ∧ step_thread n c = Some c'.
Proof.
  intros [Hpath Hhist Hlast Hrd Hwr Hwt Hexcl Hthr] (i & t & Ht & Hcode).
  assert (∀ n t, threads c !! n = Some t →
            ∃ r, thread_inv (Path st0) (store c) (history c) r t) as Hshape.
  { intros n t' Hn. destruct (Forall2_lookup_r _ _ _ _ _ Hthr Hn) as (r & _ & Hi).
    by exists r. }
  destruct (writer (mu c)) eqn:Hw.
  - (* the writer that holds the lock can go on *)
    destruct (count_pos Writing (threads c)) as (n & t' & Hn & Hm); [lia|].
    exists n. destruct (Hshape n t' Hn) as ([m|] & _ & Hs).
    + destruct Hs as [Hc | [Hc | [(k & _ & Hc & _) | [Hc _]]]];
        [by rewrite Hc in Hm|by rewrite Hc in Hm| |by rewrite Hc in Hm].
      destruct (drop k (swap m)) as [|a rest]; simpl in Hc.
      * rewrite (step_thread_head n c t' _ _ Hn Hc). simpl. rewrite Hw.
        eexists. split; [by eapply lookup_lt_Some|done].
      * rewrite (step_thread_head n c t' _ _ Hn Hc). simpl.
        eexists. split; [by eapply lookup_lt_Some|done].
    + exfalso. destruct Hs as [[cbs Hc] | (fs & cbs & ? & ? & Hc & _)].
      * by rewrite Hc, mode_callbacks in Hm.
      * by rewrite Hc, mode_loads in Hm.
  - destruct (decide (0 < count Reading (threads c))) as [Hpos|Hz].
    + (* a reader that holds the lock can go on *)
      destruct (count_pos Reading (threads c) Hpos) as (n & t' & Hn & Hm).
      exists n. destruct (Hshape n t' Hn) as ([m|] & _ & Hs).
      * exfalso. destruct Hs as [Hc | [Hc | [(k & _ & Hc & _) | [Hc _]]]];
          rewrite Hc in Hm; [done|done| |done]. by rewrite mode_stores in Hm.
      * destruct Hs as [[cbs Hc] | (fs & cbs & ? & ? & Hc & _)];
          [by rewrite Hc, mode_callbacks in Hm|].
        destruct fs as [|f fs]; simpl in Hc;
          rewrite (step_thread_head n c t' _ _ Hn Hc); simpl.
        -- destruct (readers (mu c)) eqn:Hr; [lia|].
           eexists. split; [by eapply lookup_lt_Some|done].
        -- eexists. split; [by eapply lookup_lt_Some|done].
    + assert (readers (mu c) = 0) as Hr by lia.
      destruct (pending (mu c)) eqn:Hp.
      * (* no reader is left: the writer that waits gets the lock *)
        destruct (count_pos Waiting (threads c)) as (n & t' & Hn & Hm); [lia|].
        exists n. destruct (Hshape n t' Hn) as ([m|] & _ & Hs).
        -- destruct Hs as [Hc | [Hc | [(k & _ & Hc & _) | [Hc _]]]];
             [by rewrite Hc in Hm| |by rewrite Hc, mode_stores in Hm
             |by rewrite Hc in Hm].
           rewrite (step_thread_head n c t' _ _ Hn Hc). simpl. rewrite Hr.
           eexists. split; [by eapply lookup_lt_Some|done].
        -- exfalso. destruct Hs as [[cbs Hc] | (fs & cbs & ? & ? & Hc & _)].
           ++ by rewrite Hc, mode_callbacks in Hm.
           ++ by rewrite Hc, mode_loads in Hm.
      * (* the lock is free: any thread with code left can take it *)
        exists i. destruct (Hshape i t Ht) as ([m|] & _ & Hs).
        -- destruct Hs as [Hc | [Hc | [(k & _ & Hc & _) | [Hc _]]]]; [| | |done].
           ++ rewrite (step_thread_head i c t _ _ Ht Hc). simpl. rewrite Hw, Hp.
              eexists. split; [by eapply lookup_lt_Some|done].
           ++ exfalso. eapply (count_zero Waiting); [exact Hwt|exact Ht|].
              by rewrite Hc.
           ++ exfalso. eapply (count_zero Writing); [exact Hwr|exact Ht|].
              rewrite Hc. apply mode_stores.
        -- destruct Hs as [[cbs Hc] | (fs & cbs & ? & ? & Hc & _)].
           ++ destruct cbs as [|cb cbs]; [done|]. simpl in Hc.
              rewrite (step_thread_head i c t _ _ Ht Hc). simpl. rewrite Hw, Hp.
              eexists. split; [by eapply lookup_lt_Some|done].
           ++ exfalso. eapply (count_zero Reading); [|exact Ht|].
              ** lia.
              ** rewrite Hc. apply mode_loads.
Qed.

Lemma inv_run (st0 : DynamicIdentityFileCreds_t) (ms : list Material)
    (conns : list (list Callback)) (sched : list nat) (c : Conf) :
  inv st0 ms conns c → inv st0 ms conns (run sched c).
Proof.
  revert c. induction sched as [|n sched IH]; intros c Hinv; simpl; [done|].
  destruct (step_thread n c) as [c'|] eqn:Hs; [|by apply IH].
  apply IH. eapply step_preserves_inv; [done|]. by exists n.
Qed.

Lemma run_app (s1 s2 : list nat) (c : Conf) :
  run (s1 ++ s2) c = run s2 (run s1 c).
Proof.
  revert c. induction s1 as [|n s1 IH]; intros c; simpl; [done|].
  by destruct (step_thread n c).
Qed.

Lemma work_of_insert (ts : list Thread) (n : nat) (t t' : Thread) :
  ts !! n = Some t →
  work_of (<[n := t']> ts) + length (code t) = work_of ts + length (code t').
Proof.
  revert n. induction ts as [|t0 ts IH]; intros [|n] Hn; simpl in *; try done.
  - injection Hn as ->. lia.
  - specialize (IH n Hn). lia.
Qed.

(** A step runs one instruction of one thread and keeps the threads as
    many. *)
Lemma step_work (n : nat) (c c' : Conf) :
  step_thread n c = Some c' →
  S (work c') = work c ∧ length (threads c') = length (threads c).
Proof.
  unfold step_thread, work. destruct (threads c !! n) as [t|] eqn:Ht; [|done].
  destruct (code t) as [|i k] eqn:Hc; [done|].
  intros Hrun.
  assert (∃ l, threads c' = <[n := mkThread k l]> (threads c)) as [l ->].
  { destruct i; simpl in Hrun; repeat case_match; try done;
      injection Hrun as <-; by eexists. }
  pose proof (work_of_insert (threads c) n t (mkThread k l) Ht) as Hw.
  rewrite Hc in Hw. simpl in Hw. rewrite length_insert. lia.
Qed.

Lemma run_work (sched : list nat) (c : Conf) :
  work (run sched c) ≤ work c ∧
  length (threads (run sched c)) = length (threads c).
Proof.
  revert c. induction sched as [|n sched IH]; intros c; simpl; [done|].
  destruct (step_thread n c) as [c'|] eqn:Hs; [|done].
  destruct (step_work n c c' Hs) as [Hw Hl]. destruct (IH c') as [Hw' Hl'].
  split; [lia|congruence].
Qed.

(** A schedule that gives a turn to a thread that can move makes the work
    less: that thread moves, or a thread before it did. *)
Lemma run_turn (sched : list nat) (n : nat) (c c1 : Conf) :
  n ∈ sched → step_thread n c = Some c1 → work (run sched c) < work c.
Proof.
  revert c c1. induction sched as [|m sched IH]; intros c c1 Hin Hs;
    [by apply elem_of_nil in Hin|].
  simpl. destruct (step_thread m c) as [c'|] eqn:Hm.
  - destruct (step_work m c c' Hm) as [Hw _].
    destruct (run_work sched c') as [Hw' _]. lia.
  - apply elem_of_cons in Hin as [-> | Hin]; [congruence|]. by eapply IH.
Qed.

Lemma work_of_zero (ts : list Thread) :
  work_of ts = 0 ↔ Forall (λ t, code t = []) ts.
Proof.
  induction ts as [|t ts IH]; simpl; [by split|].
  rewrite Forall_cons, <- IH. destruct (code t); simpl.
  - split; [by intros ->|by intros [_ ->]].
  - split; [lia|by intros [? _]].
Qed.

Lemma work_of_pos (ts : list Thread) :
  0 < work_of ts → ∃ i t, ts !! i = Some t ∧ code t ≠ [].
Proof.
  induction ts as [|t ts IH]; simpl; [lia|].
  destruct (code t) as [|x k] eqn:Hc; simpl.
  - intros Hpos. destruct (IH Hpos) as (i & t' & Hi & Ht'). by exists (S i), t'.
  - intros _. exists 0, t. by rewrite Hc.
Qed.

Lemma round_robin_work (st0 : DynamicIdentityFileCreds_t) (ms : list Material)
    (conns : list (list Callback)) (r : nat) (c : Conf) :
  inv st0 ms conns c →
  work (run (round_robin (length (threads c)) r) c) ≤ work c - r.
Proof.
  revert c. induction r as [|r IH]; intros c Hinv; simpl.
  - unfold round_robin. simpl. lia.
  - unfold round_robin. simpl. rewrite run_app. fold (round_robin (length (threads c)) r).
    set (c1 := run (seq 0 (length (threads c))) c).
    destruct (run_work (seq 0 (length (threads c))) c) as [Hle Hlen]. fold c1 in Hle, Hlen.
    assert (inv st0 ms conns c1) as Hinv1 by by apply inv_run.
    specialize (IH c1 Hinv1). rewrite Hlen in IH.
    destruct (decide (work c = 0)) as [Hz|Hnz]; [lia|].
    assert (work c1 < work c) as Hlt.
    { destruct (work_of_pos (threads c)) as (i & t & Hi & Ht); [unfold work in Hnz; lia|].
      destruct (no_deadlock st0 ms conns c Hinv) as (n & c' & Hn & Hs); [eauto|].
      apply (run_turn _ n c c'); [|done]. apply elem_of_seq. lia. }
    lia.
Qed.

Lemma reloader_role (ms : list Material) (conns : list (list Callback))
    (i : nat) (m : Material) :
  ms !! i = Some m → roles ms conns !! i = Some (Reloader m).
Proof.
  intros Hi. unfold roles. apply lookup_app_l_Some.
  by apply list_lookup_fmap_Some_2.
Qed.

Lemma role_material (ms : list Material) (conns : list (list Callback))
    (i : nat) (m : Material) :
  roles ms conns !! i = Some (Reloader m) → m ∈ ms.
Proof.
  unfold roles. intros [Hr | [_ Hr]]%lookup_app_Some.
  - apply list_lookup_fmap_Some in Hr as (m' & [= <-] & Hlm).
    by eapply list_elem_of_lookup_2.
  - by apply list_lookup_fmap_Some in Hr as (? & [=] & _).
Qed.

Lemma tail_inv_init (st0 : DynamicIdentityFileCreds_t) (ms : list Material)
    (conns : list (list Callback)) :
  tail_inv st0 ms (init st0 ms conns).
Proof.
  exists []. split; [done|]. split; [done|].
  intros i m t Hi Ht Hc. exfalso. simpl in Ht.
  rewrite lookup_app_l in Ht.
  - apply list_lookup_fmap_Some in Ht as (m' & -> & _). done.
  - rewrite length_fmap. by eapply lookup_lt_Some.
Qed.

Lemma snoc_not_nil {A} (l : list A) (x : A) : l ++ [x] ≠ [].
Proof. by destruct l. Qed.

Lemma tail_inv_step (st0 : DynamicIdentityFileCreds_t) (ms : list Material)
    (conns : list (list Callback)) (n : nat) (c c' : Conf) :
  inv st0 ms conns c → tail_inv st0 ms c → step_thread n c = Some c' →
  tail_inv st0 ms c'.
Proof.
  intros [Hpath Hhist Hlast Hrd Hwr Hwt Hexcl Hthr] (tl & Hh & Hall & Hdone) Hstep.
  unfold step_thread in Hstep.
  destruct (threads c !! n) as [t|] eqn:Ht; [|done].
  destruct (code t) as [|i k] eqn:Hc; [done|].
  destruct (Forall2_lookup_r _ _ _ _ _ Hthr Ht) as (r & Hr & [_ Hshape]).
  (* a reloader ends with its unlock and with nothing else *)
  assert (i ≠ Unlock → ∀ m, r = Reloader m → k ≠ []) as Hlast_unlock.
  { intros Hi m ->. destruct Hshape as [Hs | [Hs | [(j & _ & Hs & _) | [Hs _]]]];
      rewrite Hs in Hc; [| | |done].
    - unfold Reload_locked in Hc. injection Hc as <- <-. done.
    - injection Hc as <- <-. first [done | apply snoc_not_nil].
    - destruct (drop j (swap m)) as [|a rest]; simpl in Hc; injection Hc as <- <-;
        [done|]. first [done | apply snoc_not_nil]. }
  assert (∀ l, i ≠ Unlock →
            history c' = history c → threads c' = <[n := mkThread k l]> (threads c) →
            tail_inv st0 ms c') as Hkeep.
  { intros l Hi Hh' Hts. exists tl. rewrite Hh', Hts. split; [done|]. split; [done|].
    intros j m t' Hj Ht' Hc'. destruct (decide (j = n)) as [->|Hne].
    - exfalso. rewrite list_lookup_insert_eq in Ht' by by eapply lookup_lt_Some.
      injection Ht' as <-. simpl in Hc'.
      pose proof (reloader_role ms conns n m Hj) as Hrole.
      rewrite Hr in Hrole. injection Hrole as ->.
      by eapply Hlast_unlock.
    - rewrite list_lookup_insert_ne in Ht' by done. by eapply Hdone. }
  destruct i; simpl in Hstep.
  - destruct (writer (mu c)); [done|]. destruct (pending (mu c)); [done|].
    injection Hstep as <-. by eapply Hkeep.
  - destruct (readers (mu c)); [|done].
    injection Hstep as <-. by eapply Hkeep.
  - destruct (writer (mu c)); [|done]. injection Hstep as <-.
    destruct r as [m|].
    + destruct Hshape as [Hs | [Hs | [(j & Hj & Hs & Hfold) | [Hs _]]]];
        rewrite Hs in Hc; [done|done| |done].
      destruct (drop j (swap m)) as [|a rest] eqn:Hdrop; simpl in Hc; [|done].
      pose proof (swap_complete _ _ _ Hj Hdrop Hfold) as Hgen. rewrite Hpath in Hgen.
      exists (tl ++ [store c]). simpl. rewrite Hh. split; [done|]. split.
      * apply Forall_app. split; [done|]. apply Forall_singleton.
        exists m. split; [by eapply role_material|done].
      * intros _ _ _ _ _ _. by destruct tl.
    + exfalso. destruct Hshape as [[cbs Hs] | (fs & cbs & ? & ? & Hs & _)];
        rewrite Hs in Hc.
      * destruct cbs; simpl in Hc; done.
      * destruct fs; simpl in Hc; done.
  - destruct (writer (mu c)); [done|]. destruct (pending (mu c)); [done|].
    injection Hstep as <-. by eapply Hkeep.
  - destruct (readers (mu c)); [done|]. injection Hstep as <-. by eapply Hkeep.
  - injection Hstep as <-. by eapply Hkeep.
  - injection Hstep as <-. by eapply Hkeep.
Qed.

Lemma tail_inv_run (st0 : DynamicIdentityFileCreds_t) (ms : list Material)
    (conns : list (list Callback)) (sched : list nat) (c : Conf) :
  inv st0 ms conns c → tail_inv st0 ms c → tail_inv st0 ms (run sched c).
Proof.
  revert c. induction sched as [|n sched IH]; intros c Hinv Htail; simpl; [done|].
  destruct (step_thread n c) as [c'|] eqn:Hs; [|by apply IH].
  apply IH.
  - eapply step_preserves_inv; [done|]. by exists n.
  - by eapply tail_inv_step.
Qed.

(** X15. The locking of [Reload] and of the callbacks cannot deadlock, with
    the lock as [sync.RWMutex] has it, a writer that has called [Lock]
    keeping new readers out: under every schedule, as long as some thread
    has instructions left, some thread can take a step. *)
Theorem reloads_and_reads_never_deadlock (st0 : DynamicIdentityFileCreds_t)
    (ms : list Material) (conns : list (list Callback)) (sched : list nat) :
  let c := run sched (init st0 ms conns) in
  (∃ i t, threads c !! i = Some t ∧ code t ≠ []) →
  ∃ n c', n < length (threads c) ∧ step_thread n c = Some c'.
Proof.
  intros c. apply (no_deadlock st0 ms conns). apply inv_run, inv_init.
Qed.

(** X16. When every reload and every callback has run to its end, under
    whatever schedule, the lock is free, with no writer on it or waiting for
    it and no reader left on it, and the provider holds the generation recorded last: with at
    least one reload that is the whole material of one of the reloads, never
    a blend of two; with no reload it is the initial fields. *)
Theorem finished_runs_leave_a_whole_generation (st0 : DynamicIdentityFileCreds_t)
    (ms : list Material) (conns : list (list Callback)) (sched : list nat) :
  let c := run sched (init st0 ms conns) in
  finished c →
  writer (mu c) = false ∧ pending (mu c) = false ∧ readers (mu c) = 0 ∧
  last (history c) = Some (store c) ∧
  (ms ≠ [] → ∃ m, m ∈ ms ∧ store c = of_material (Path st0) m) ∧
  (ms = [] → store c = st0).
Proof.
  intros c Hfin.
  assert (inv st0 ms conns c) as Hinv by apply inv_run, inv_init.
  assert (tail_inv st0 ms c) as (tl & Hh & Hall & Hdone)
    by (apply (tail_inv_run st0 ms conns); [apply inv_init|apply tail_inv_init]).
  destruct Hinv as [Hpath Hhist Hlast Hrd Hwr Hwt Hexcl Hthr].
  assert (∀ M, M ≠ Unlocked → count M (threads c) = 0) as Hcount.
  { intros M HM. apply count_none. eapply Forall_impl; [exact Hfin|].
    simpl. intros t ->. done. }
  rewrite (Hcount Reading) in Hrd by done.
  rewrite (Hcount Writing) in Hwr by done.
  rewrite (Hcount Waiting) in Hwt by done.
  assert (writer (mu c) = false) as Hw by (destruct (writer (mu c)); [lia|done]).
  assert (pending (mu c) = false) as Hp by (destruct (pending (mu c)); [lia|done]).
  specialize (Hlast Hw).
  split_and!; try done.
  - intros Hms. destruct ms as [|m0 ms']; [done|].
    assert (is_Some (threads c !! 0)) as [t Ht].
    { apply lookup_lt_is_Some.
      destruct (run_work sched (init st0 (m0 :: ms') conns)) as [_ Hlen].
      unfold c. rewrite Hlen. simpl. lia. }
    assert (tl ≠ []) as Htl.
    { apply (Hdone 0 m0 t); [done|done|].
      eapply Forall_lookup_1 in Hfin; [|exact Ht]. done. }
    rewrite Hh in Hlast.
    assert (store c ∈ tl) as Hin.
    { destruct tl as [|g tl']; [done|]. rewrite last_cons_cons in Hlast.
      by apply last_Some_elem_of. }
    eapply Forall_forall in Hall; [|exact Hin]. done.
  - intros ->. destruct tl as [|g tl'].
    + rewrite Hh in Hlast. by injection Hlast as <-.
    + apply Forall_cons in Hall as [(m & Hm & _) _]. by apply elem_of_nil in Hm.
Qed.

(** X17. Every reload and every callback completes, with the lock as
    [sync.RWMutex] has it: when the threads take turns round robin, after as
    many rounds as there are instructions at the start every thread has run
    to its end. *)
Theorem round_robin_runs_to_the_end (st0 : DynamicIdentityFileCreds_t)
    (ms : list Material) (conns : list (list Callback)) :
  finished (run (round_robin (length ms + length conns)
                             (work (init st0 ms conns)))
                (init st0 ms conns)).
Proof.
  pose proof (round_robin_work st0 ms conns (work (init st0 ms conns))
                (init st0 ms conns) (inv_init st0 ms conns)) as Hw.
  assert (length (threads (init st0 ms conns)) = length ms + length conns) as Hlen.
  { simpl. by rewrite length_app, !length_fmap. }
  rewrite Hlen in Hw. apply work_of_zero. unfold work in *. lia.
Qed.

End ConcurrentMore.


(** * The definitions run on concrete inputs *)

Import Toy.

Example Reload_installs_bob :
  (DynamicIdentityFileCreds.Reload 1%positive hA (w0 fsB)).1.1 !! 1%positive
  = Some (of_material "/id" mB).
Proof. reflexivity. Qed.

Example Reload_bad_pem_keeps_alice :
  (DynamicIdentityFileCreds.Reload 1%positive hA (w0 badPemFS)).1.1 !! 1%positive
  = Some stA ∧
  (DynamicIdentityFileCreds.Reload 1%positive hA (w0 badPemFS)).2
  = Fail (mkError BadParameter "invalid CA cert PEM" 1).
Proof. split; reflexivity. Qed.

Example New_missing_file :
  (DynamicIdentityFileCreds.NewDynamicIdentityFileCreds "/nope" ∅ (w0 fsA)).2
  = Fail (mkError NotFound "no such file or directory" 3).
Proof. reflexivity. Qed.

(** [configureTLS] appends in place: the cell after the end of the
    argument's slice is written, the argument's own view is not. *)
Example configureTLS_appends_in_place :
  arrs (configureTLS 1%positive obj0).1 !! 5%positive = Some ["http/1.1"; "h2"] ∧
  slice_elems (arrs (configureTLS 1%positive obj0).1) (NextProtos cfg0)
  = ["http/1.1"] ∧
  (ServerName <$> cfgs (configureTLS 1%positive obj0).1 !! 2%positive)
  = Some APIDomain ∧
  (Certificates <$> cfgs (configureTLS 1%positive obj0).1 !! 2%positive)
  = Some [] ∧
  (Certificates <$> cfgs (configureTLS 1%positive obj0).1 !! 1%positive)
  = Some ["certA"].
Proof. repeat split; reflexivity. Qed.

(** Two connections and a reload. The first connection holds the read lock
    when the reload calls [Lock]: from then on the second connection waits
    at [RLock], though no writer holds the lock yet; the reload gets the
    lock when the first connection has left, and the second connection reads
    what the reload installed. *)
Example announced_writer_keeps_readers_out :
  let start := Concurrent.init stA [mB]
                 [[Concurrent.GetClientCertificate_cb];
                  [Concurrent.GetClientCertificate_cb]] in
  let c1 := Concurrent.run [1; 0] start in
  let c := Concurrent.run [1; 1; 0; 0; 0; 0; 0; 0; 0; 2; 2; 2] c1 in
  Concurrent.mu c1 = Concurrent.mkRW false true 1 ∧
  Concurrent.step_thread 2 c1 = None ∧
  Concurrent.step_thread 0 c1 = None ∧
  Concurrent.history c = [stA; of_material "/id" mB] ∧
  Concurrent.log <$> Concurrent.threads c =
    [ [];
      [ Concurrent.mkSec 0 [(Concurrent.F_tlsCert, Concurrent.V_tlsCert (Some "alice"))] ];
      [ Concurrent.mkSec 1 [(Concurrent.F_tlsCert, Concurrent.V_tlsCert (Some "bob"))] ] ].
Proof. repeat split; reflexivity. Qed.


(** ** The theorems at concrete inputs *)

(** A reload from a file whose root PEM holds no certificate. *)
Lemma Reload_failure_leaves_material_witness :
  hA !! 1%positive = Some stA ∧
  load_fails (Path stA) (fs (w0 badPemFS)) ∧
  ∃ err h' w',
    DynamicIdentityFileCreds.Reload 1%positive hA (w0 badPemFS) = (h', w', Fail err) ∧
    h' = hA ∧
    h' !! 1%positive = Some stA ∧
    DynamicIdentityFileCreds.getClientCertificate 1%positive h'
      = DynamicIdentityFileCreds.getClientCertificate 1%positive hA ∧
    DynamicIdentityFileCreds.verifyConnection 1%positive h'
      = DynamicIdentityFileCreds.verifyConnection 1%positive hA ∧
    DynamicIdentityFileCreds.publicKeysCallback 1%positive h'
      = DynamicIdentityFileCreds.publicKeysCallback 1%positive hA ∧
    DynamicIdentityFileCreds.getHostCheckers 1%positive h'
      = DynamicIdentityFileCreds.getHostCheckers 1%positive hA.
Proof.
  assert (load_fails (Path stA) (fs (w0 badPemFS))) as Hfail.
  { apply (fails_root_pem _ _
             (mkIdentityFile "bad-pem" "bad-pem" "bad-pem" ["bad-pem"] ["bad-pem"])
             "bad-pem"); [reflexivity|constructor|reflexivity]. }
  split; [reflexivity|]. split; [exact Hfail|].
  exact (Reload_failure_leaves_material 1%positive hA (w0 badPemFS) stA
           eq_refl Hfail).
Defined.

Lemma toy_NewHostKeyCallback_reads_at_verification :
  NewHostKeyCallback_reads_at_verification.
Proof. intros get cb [= <-] h host remote key. reflexivity. Qed.

(** The configurations taken while the provider held alice's material,
    used after a reload from a file holding bob's. *)
Lemma callbacks_use_latest_reload_witness :
  NewHostKeyCallback_reads_at_verification ∧
  ∃ id m gcc vc pkc,
    ReadFile (Path stA) fsB = Ok id ∧ parses_to id m ∧
    GetClientCertificate cfg1 = Some gcc ∧
    VerifyConnection cfg1 = Some vc ∧
    DynamicIdentityFileCreds.Auth sshcfg1 = [pkc] ∧
    (∀ cri, gcc hA cri = Ret (tlsCert stA) ∧
            gcc {[ 1%positive := of_material "/id" mB ]} cri = Ret (Some (DynamicIdentityFileCreds.m_cert m))) ∧
    (∀ sn leaf rest,
       vc hA (mkConnectionState sn (leaf :: rest)) =
         verdict leaf (mkVerifyOptions sn rest (tlsRootCAs stA)) ∧
       vc {[ 1%positive := of_material "/id" mB ]} (mkConnectionState sn (leaf :: rest)) =
         verdict leaf (mkVerifyOptions sn rest (Some (DynamicIdentityFileCreds.m_pool m)))) ∧
    pkc hA =
      match SSHSigner (sshCert stA) (sshKey stA) with
      | Ok s => Ret [s]
      | Err err => Fail (Wrap err)
      end ∧
    pkc {[ 1%positive := of_material "/id" mB ]} =
      match SSHSigner (Some (DynamicIdentityFileCreds.m_sshCert m))
                      (Some (DynamicIdentityFileCreds.m_sshKey m)) with
      | Ok s => Ret [s]
      | Err err => Fail (Wrap err)
      end ∧
    NewHostKeyCallback (DynamicIdentityFileCreds.getHostCheckers 1%positive)
      = Ok (DynamicIdentityFileCreds.HostKeyCallback_ sshcfg1) ∧
    DynamicIdentityFileCreds.getHostCheckers 1%positive hA
      = Ret (sshKnownHosts stA) ∧
    DynamicIdentityFileCreds.getHostCheckers 1%positive
        {[ 1%positive := of_material "/id" mB ]}
      = Ret (DynamicIdentityFileCreds.m_knownHosts m) ∧
    (NewHostKeyCallback_reads_at_verification →
     ∀ host remote key,
       DynamicIdentityFileCreds.HostKeyCallback_ sshcfg1 hA host remote key =
         CheckHostKey (Ret (sshKnownHosts stA)) host remote key ∧
       DynamicIdentityFileCreds.HostKeyCallback_ sshcfg1
           {[ 1%positive := of_material "/id" mB ]} host remote key =
         CheckHostKey (Ret (DynamicIdentityFileCreds.m_knownHosts m))
                      host remote key).
Proof.
  split; [exact toy_NewHostKeyCallback_reads_at_verification|].
  exact (callbacks_use_latest_reload 1%positive hA
           {[ 1%positive := of_material "/id" mB ]}
           (w0 fsA) (mkWorld fsB ["/id"]) stA [] fsB
           emptyObj (mkObjHeap {[ 1%positive := cfg1 ]} {[ 1%positive := ["h2"] ]})
           1%positive cfg1 sshcfg1
           eq_refl eq_refl eq_refl eq_refl eq_refl).
Defined.

(** The host-key callback of the configuration taken before the reload
    accepts alice's host key before it and bob's after it. *)
Example HostKeyCallback_follows_reload :
  let hB : ProvHeap := {[ 1%positive := of_material "/id" mB ]} in
  DynamicIdentityFileCreds.HostKeyCallback_ sshcfg1 hA "auth" "10.0.0.1:3025" "alice"
    = Ret tt ∧
  DynamicIdentityFileCreds.HostKeyCallback_ sshcfg1 hB "auth" "10.0.0.1:3025" "bob"
    = Ret tt ∧
  DynamicIdentityFileCreds.HostKeyCallback_ sshcfg1 hB "auth" "10.0.0.1:3025" "alice"
    = Fail (mkError Raw "ssh: no authorities for hostname" 0).
Proof. repeat split; reflexivity. Qed.

(** The verification callback on the states of handshakes made with the
    configuration of the provider. *)
Lemma VerifyConnection_verifies_against_sentinel_witness :
  hA !! 1%positive = Some stA ∧
  ∃ c o' cfg vc,
    DynamicIdentityFileCreds.TLSConfig 1%positive emptyObj = (o', Ret c) ∧
    cfgs o' !! c = Some cfg ∧
    InsecureSkipVerify cfg = true ∧ RootCAs cfg = None ∧
    ServerName cfg = APIDomain ∧
    VerifyConnection cfg = Some vc ∧
    (∀ state, handshake_state cfg state →
       ∃ leaf rest,
         cs_PeerCertificates state = leaf :: rest ∧
         let opts := mkVerifyOptions APIDomain rest (tlsRootCAs stA) in
         vc hA state = verdict leaf opts ∧
         (vc hA state = Ret tt ↔ Verify leaf opts = None) ∧
         (∀ err, vc hA state = Fail err ↔ Verify leaf opts = Some err)) ∧
    (∀ state1 state2,
       handshake_state cfg state1 → handshake_state cfg state2 →
       cs_PeerCertificates state1 = cs_PeerCertificates state2 →
       vc hA state1 = vc hA state2) ∧
    (∀ state leaf rest, cs_PeerCertificates state = leaf :: rest →
       vc hA state =
         verdict leaf (mkVerifyOptions (cs_ServerName state) rest (tlsRootCAs stA))).
Proof.
  split; [reflexivity|].
  exact (VerifyConnection_verifies_against_sentinel 1%positive emptyObj hA stA eq_refl).
Defined.

(** A server certificate for the sentinel is accepted when it chains to the
    roots the provider holds, and rejected when it does not. *)
Example VerifyConnection_accepts_and_rejects :
  handshake_state cfg1 goodState ∧ handshake_state cfg1 strangerState ∧
  DynamicIdentityFileCreds.verifyConnection 1%positive hA goodState = Ret tt ∧
  DynamicIdentityFileCreds.verifyConnection 1%positive hA strangerState
    = Fail (mkError Raw "x509: certificate signed by unknown authority" 0) ∧
  DynamicIdentityFileCreds.verifyConnection 1%positive
    {[ 1%positive := of_material "/id" mB ]} goodState
    = Fail (mkError Raw "x509: certificate signed by unknown authority" 0).
Proof. repeat split; done. Qed.

(** One connection attempt calls [VerifyConnection] and then
    [GetClientCertificate]; a reload runs between the two calls. The attempt
    has verified the server against alice's roots and then presents bob's
    certificate: what it read comes from no single generation. *)
Lemma attempt_sees_two_generations_counterexample :
  let c := Concurrent.run [1; 1; 1; 0; 0; 0; 0; 0; 0; 0; 0; 1; 1; 1]
             (Concurrent.init stA [mB]
                [[Concurrent.VerifyConnection_cb;
                  Concurrent.GetClientCertificate_cb]]) in
  Concurrent.history c = [stA; of_material "/id" mB] ∧
  Concurrent.log <$> Concurrent.threads c =
    [ [];
      [ Concurrent.mkSec 1 [(Concurrent.F_tlsCert, Concurrent.V_tlsCert (Some "bob"))];
        Concurrent.mkSec 0
          [(Concurrent.F_tlsRootCAs,
            Concurrent.V_tlsRootCAs (Some [("alice", "alice")]))] ] ] ∧
  ¬ Concurrent.attempt_sees_one_generation.
Proof.
  split; [reflexivity|]. split; [reflexivity|].
  intros Hclaim.
  pose (conn := Concurrent.mkThread []
          [ Concurrent.mkSec 1
              [(Concurrent.F_tlsCert, Concurrent.V_tlsCert (Some "bob"))];
            Concurrent.mkSec 0
              [(Concurrent.F_tlsRootCAs,
                Concurrent.V_tlsRootCAs (Some [("alice", "alice")]))] ]).
  destruct (Hclaim stA [mB]
              [[Concurrent.VerifyConnection_cb; Concurrent.GetClientCertificate_cb]]
              [1; 1; 1; 0; 0; 0; 0; 0; 0; 0; 0; 1; 1; 1] conn)
    as (g & Hg & Hseen).
  { apply (list_elem_of_lookup_2 _ 1). reflexivity. }
  change (g ∈ [stA; of_material "/id" mB]) in Hg.
  apply elem_of_cons in Hg as [-> | Hg].
  - specialize (Hseen (Concurrent.mkSec 1
                  [(Concurrent.F_tlsCert, Concurrent.V_tlsCert (Some "bob"))])
                  Concurrent.F_tlsCert (Concurrent.V_tlsCert (Some "bob"))).
    simpl in Hseen. discriminate Hseen; constructor.
  - apply list_elem_of_singleton in Hg as ->.
    specialize (Hseen (Concurrent.mkSec 0
                  [(Concurrent.F_tlsRootCAs,
                    Concurrent.V_tlsRootCAs (Some [("alice", "alice")]))])
                  Concurrent.F_tlsRootCAs
                  (Concurrent.V_tlsRootCAs (Some [("alice", "alice")]))).
    simpl in Hseen. discriminate Hseen; repeat constructor.
Qed.

(** A provider is made from a file holding alice's material. *)
Lemma NewDynamicIdentityFileCreds_loaded_or_error_witness :
  ∃ d h' w',
    DynamicIdentityFileCreds.NewDynamicIdentityFileCreds "/id" ∅ (w0 fsA)
      = (h', w', Ret d) ∧
    (∅ : ProvHeap) !! d = None ∧
    h' !! d =
      Some (of_material "/id"
              (DynamicIdentityFileCreds.mkMaterial [("alice", "alice")] "alice"
                 "alice" "alice" ["alice"])).
Proof.
  refine (proj1 (proj2 (NewDynamicIdentityFileCreds_loaded_or_error "/id" ∅ (w0 fsA)))
            (mkIdentityFile "alice" "alice" "alice" ["alice"] ["alice"])
            (DynamicIdentityFileCreds.mkMaterial [("alice", "alice")] "alice"
               "alice" "alice" ["alice"])
            eq_refl _).
  repeat split; reflexivity.
Defined.

(** The public-key callback against a provider whose key was corrupted. *)
Lemma PublicKeysCallback_fresh_signer_or_error_witness :
  DynamicIdentityFileCreds.SSHClientConfig 1%positive = Ret sshcfg1 ∧
  hA !! 1%positive = Some stA ∧
  ∃ pkc,
    DynamicIdentityFileCreds.Auth sshcfg1 = [pkc] ∧
    (∀ s, SSHSigner (sshCert stA) (sshKey stA) = Ok s → pkc hA = Ret [s]) ∧
    (∀ err, SSHSigner (sshCert stA) (sshKey stA) = Err err →
       pkc hA = Fail (Wrap err)) ∧
    pkc hA ≠ Panic ∧
    (∀ st2, pkc (<[1%positive := st2]> hA) =
       match SSHSigner (sshCert st2) (sshKey st2) with
       | Ok s => Ret [s]
       | Err err => Fail (Wrap err)
       end).
Proof.
  split; [reflexivity|]. split; [reflexivity|].
  exact (PublicKeysCallback_fresh_signer_or_error 1%positive hA stA sshcfg1
           eq_refl eq_refl).
Defined.

Example PublicKeysCallback_corrupt_key :
  DynamicIdentityFileCreds.publicKeysCallback 1%positive
    {[ 1%positive := mkDyn (Some "alice") None (Some "alice") (Some "corrupt") [] "/id" ]}
  = Fail (mkError Raw "ssh: unsupported key" 1) ∧
  DynamicIdentityFileCreds.publicKeysCallback 1%positive hA
  = Ret [("alice", "alice")].
Proof. split; reflexivity. Qed.

(** The static file credentials do not tell a missing file from an
    unparsable one by the class of the error: both surface as
    [BadParameter]. *)
Lemma static_file_errors_counterexample :
  ReadFile "/id" (∅ : FS) = Err (mkError NotFound "no such file or directory" 1) ∧
  ReadFile "/id" garbageFS = Err (mkError BadParameter "could not parse identity file" 1) ∧
  (identityCredsFile.TLSConfig (identityCredsFile.LoadIdentityFile "/id")
     emptyObj (w0 ∅)).2
    = Fail (mkError BadParameter
              "identity file could not be decoded: no such file or directory" 2) ∧
  (identityCredsFile.TLSConfig (identityCredsFile.LoadIdentityFile "/id")
     emptyObj (w0 garbageFS)).2
    = Fail (mkError BadParameter
              "identity file could not be decoded: could not parse identity file" 2) ∧
  ¬ static_file_errors_tell_apart.
Proof.
  do 4 (split; [reflexivity|]).
  intros Hclaim.
  exact (Hclaim "/id" emptyObj (w0 ∅) (w0 garbageFS) _ _ _ _
           eq_refl eq_refl eq_refl eq_refl eq_refl eq_refl eq_refl).
Qed.

(** An unparsable file through [Reload] keeps its class, and a file whose
    SSH certificate does not parse surfaces from the constructor with the
    parser's class and message. *)
Lemma loader_failures_as_surfaced_witness :
  (∃ h' w' s,
     DynamicIdentityFileCreds.Reload 1%positive hA (w0 garbageFS) = (h', w', Fail s) ∧
     kind s = BadParameter ∧ message s = "could not parse identity file") ∧
  (let s := mkError Raw "cannot parse bad-ssh" 2 in
   (∃ err, kind s = kind err ∧ message s = message err ∧
      (ReadFile "/id" badSshFS = Err err ∨
       ∃ id, ReadFile "/id" badSshFS = Ok id ∧
         (X509KeyPair (id_Certs_TLS id) (id_PrivateKey id) = Err err ∨
          ParseCertificate (id_Certs_SSH id) = Err err ∨
          ParsePrivateKey (id_PrivateKey id) = Err err ∨
          ParseKnownHosts (id_CACerts_SSH id) = Err err))) ∨
   (kind s = BadParameter ∧ message s = "invalid CA cert PEM" ∧
    ∃ id pem, ReadFile "/id" badSshFS = Ok id ∧
      pem ∈ id_CACerts_TLS id ∧ CertsFromPEM pem = [])).
Proof.
  split.
  - exact (proj1 loader_failures_as_surfaced 1%positive hA (w0 garbageFS) stA
             (mkError BadParameter "could not parse identity file" 1)
             eq_refl eq_refl).
  - exact (proj1 (proj2 (proj2 (proj2 loader_failures_as_surfaced)))
             "/id" ∅
             {[ 1%positive := mkDyn None None None None [] "/id" ]}
             (w0 badSshFS) (mkWorld badSshFS ["/id"])
             (mkError Raw "cannot parse bad-ssh" 2) eq_refl).
Defined.

Example New_surfaces_parse_errors :
  (DynamicIdentityFileCreds.NewDynamicIdentityFileCreds "/id" ∅ (w0 badSshFS)).2
    = Fail (mkError Raw "cannot parse bad-ssh" 2) ∧
  (DynamicIdentityFileCreds.NewDynamicIdentityFileCreds "/id" ∅ (w0 badPemFS)).2
    = Fail (mkError BadParameter "invalid CA cert PEM" 2) ∧
  (DynamicIdentityFileCreds.NewDynamicIdentityFileCreds "/id" ∅ (w0 garbageFS)).2
    = Fail (mkError BadParameter "could not parse identity file" 3).
Proof. repeat split; reflexivity. Qed.


(** The file credentials after a first call on a file holding alice's
    identity: a later call, the file now holding bob's, answers from the
    cached identity and opens nothing. *)
Lemma static_identity_parsed_at_most_once_witness :
  ∃ id,
    identityCredsFile.identityFile
      (identityCredsFile.mk
         (Some (mkIdentityFile "alice" "alice" "alice" ["alice"] ["alice"])) "/id")
      = Some id ∧
    (identityCredsFile.identityFile (identityCredsFile.LoadIdentityFile "/id") = None →
       ReadFile "/id" fsA = Ok id ∧ ["/id"] = "/id" :: []) ∧
    ∀ (o' : ObjHeap) (w' : World),
      identityCredsFile.TLSConfig
        (identityCredsFile.mk
           (Some (mkIdentityFile "alice" "alice" "alice" ["alice"] ["alice"])) "/id")
        o' w' =
        (identityCredsFile.mk
           (Some (mkIdentityFile "alice" "alice" "alice" ["alice"] ["alice"])) "/id",
         (tls_from_identity id o').1, w', (tls_from_identity id o').2) ∧
      identityCredsFile.SSHClientConfig
        (identityCredsFile.mk
           (Some (mkIdentityFile "alice" "alice" "alice" ["alice"] ["alice"])) "/id")
        w' =
        (identityCredsFile.mk
           (Some (mkIdentityFile "alice" "alice" "alice" ["alice"] ["alice"])) "/id",
         w', ssh_from_identity id).
Proof.
  exact (proj1 static_identity_parsed_at_most_once
           (identityCredsFile.LoadIdentityFile "/id")
           (identityCredsFile.mk
              (Some (mkIdentityFile "alice" "alice" "alice" ["alice"] ["alice"]))
              "/id")
           (w0 fsA) (mkWorld fsA ["/id"])
           (file_ssh_succeeds
              (identityCredsFile.LoadIdentityFile "/id") (w0 fsA)
              (identityCredsFile.mk
                 (Some (mkIdentityFile "alice" "alice" "alice" ["alice"] ["alice"]))
                 "/id")
              (mkWorld fsA ["/id"]) "alice" eq_refl)).
Defined.

Example static_credentials_ignore_new_file :
  let c1 := (identityCredsFile.SSHClientConfig
               (identityCredsFile.LoadIdentityFile "/id") (w0 fsA)).1.1 in
  identityCredsFile.SSHClientConfig c1 (w0 fsB) = (c1, w0 fsB, Ret "alice") ∧
  (DynamicIdentityFileCreds.Reload 1%positive hA (w0 fsB)).1.1 !! 1%positive
  = Some (of_material "/id" mB).
Proof. split; reflexivity. Qed.

(** ** The further properties at concrete inputs *)

Import ToyMore.

Lemma toy_dedup_members (l seen : list string) (x : string) :
  x ∈ dedup seen l ↔ x ∈ l ∧ x ∉ seen.
Proof.
  revert seen. induction l as [|y l IH]; intros seen; simpl.
  - split; [by intros ?%elem_of_nil|by intros [?%elem_of_nil _]].
  - case_decide as Hy.
    + rewrite IH, elem_of_cons. split.
      * intros [Hin Hns]. split; [by right|done].
      * intros [[-> | Hin] Hns]; [done|by split].
    + rewrite elem_of_cons, IH, !elem_of_cons. split.
      * intros [-> | [Hin Hns]]; [split; [by left|done]|].
        split; [by right|]. intros Hs. apply Hns. by right.
      * intros [[-> | Hin] Hns]; [by left|].
        destruct (decide (x = y)) as [->|Hne]; [by left|].
        right. split; [done|]. intros [?|?]; done.
Qed.

Lemma toy_Deduplicate_keeps_members : Deduplicate_keeps_members.
Proof.
  intros a s a' s' Hd x. simpl in Hd. unfold deduplicate in Hd.
  case_decide; injection Hd as <- <-; [done|].
  unfold slice_elems at 1. simpl. rewrite lookup_insert_eq, drop_0.
  rewrite take_app_length. rewrite toy_dedup_members.
  split; [by intros [? _]|]. intros Hx. split; [done|]. by intros ?%elem_of_nil.
Qed.

(** A reload from the file that holds bob's identity. *)
Lemma Reload_installs_all_CA_certificates_witness :
  ∃ id,
    ReadFile (Path stA) (fs (w0 fsB)) = Ok id ∧
    Forall (λ pem, CertsFromPEM pem ≠ []) (id_CACerts_TLS id) ∧
    tlsRootCAs <$> ({[ 1%positive := of_material "/id" mB ]} : ProvHeap) !! 1%positive =
      Some (Some (concat (CertsFromPEM <$> id_CACerts_TLS id))) ∧
    (id_CACerts_TLS id = [] →
       tlsRootCAs <$> ({[ 1%positive := of_material "/id" mB ]} : ProvHeap) !! 1%positive
         = Some (Some [])).
Proof.
  exact (Reload_installs_all_CA_certificates 1%positive hA
           {[ 1%positive := of_material "/id" mB ]} (w0 fsB) (mkWorld fsB ["/id"])
           stA tt eq_refl eq_refl).
Defined.

(** An identity file without any TLS CA entry loads into an empty pool. *)
Example Reload_without_CA_entries :
  let emptyCA := mkIdentityFile "k" "s" "t" ["h"] [] in
  DynamicIdentityFileCreds.appendAll NewCertPool (id_CACerts_TLS emptyCA) = Some [].
Proof. reflexivity. Qed.

(** Two providers with the same path, one holding alice's material and one
    bob's, reloaded from the file that holds bob's. *)
Lemma Reload_depends_on_file_only_witness :
  (DynamicIdentityFileCreds.Reload 1%positive hA (w0 fsB)).2
    = (DynamicIdentityFileCreds.Reload 1%positive
         {[ 1%positive := of_material "/id" mB ]} (w0 fsB)).2 ∧
  ((DynamicIdentityFileCreds.Reload 1%positive hA (w0 fsB)).2 = Ret tt →
     (DynamicIdentityFileCreds.Reload 1%positive hA (w0 fsB)).1.1 !! 1%positive
       = (DynamicIdentityFileCreds.Reload 1%positive
            {[ 1%positive := of_material "/id" mB ]} (w0 fsB)).1.1 !! 1%positive ∧
     (DynamicIdentityFileCreds.Reload 1%positive
        (DynamicIdentityFileCreds.Reload 1%positive hA (w0 fsB)).1.1
        (DynamicIdentityFileCreds.Reload 1%positive hA (w0 fsB)).1.2).1.1
       = (DynamicIdentityFileCreds.Reload 1%positive hA (w0 fsB)).1.1 ∧
     (DynamicIdentityFileCreds.Reload 1%positive
        (DynamicIdentityFileCreds.Reload 1%positive hA (w0 fsB)).1.1
        (DynamicIdentityFileCreds.Reload 1%positive hA (w0 fsB)).1.2).2 = Ret tt).
Proof.
  exact (Reload_depends_on_file_only 1%positive 1%positive hA
           {[ 1%positive := of_material "/id" mB ]} (w0 fsB) (w0 fsB)
           stA (of_material "/id" mB) eq_refl eq_refl eq_refl eq_refl).
Defined.

(** Two providers made one after the other. *)
Lemma providers_are_independent_witness :
  1%positive ≠ 2%positive ∧
  (∀ d', is_Some ((∅ : ProvHeap) !! d') →
     hA !! d' = (∅ : ProvHeap) !! d' ∧
     (<[2%positive := of_material "/id" mB]> hA) !! d' = (∅ : ProvHeap) !! d') ∧
  (<[2%positive := of_material "/id" mB]> hA) !! 1%positive = hA !! 1%positive ∧
  ∀ w4,
    let h3 := (DynamicIdentityFileCreds.Reload 2%positive
                 (<[2%positive := of_material "/id" mB]> hA) w4).1.1 in
    h3 !! 1%positive = hA !! 1%positive ∧
    DynamicIdentityFileCreds.getClientCertificate 1%positive h3
      = DynamicIdentityFileCreds.getClientCertificate 1%positive hA ∧
    DynamicIdentityFileCreds.verifyConnection 1%positive h3
      = DynamicIdentityFileCreds.verifyConnection 1%positive hA ∧
    DynamicIdentityFileCreds.publicKeysCallback 1%positive h3
      = DynamicIdentityFileCreds.publicKeysCallback 1%positive hA ∧
    DynamicIdentityFileCreds.getHostCheckers 1%positive h3
      = DynamicIdentityFileCreds.getHostCheckers 1%positive hA.
Proof.
  exact (providers_are_independent "/id" "/id" ∅ hA
           (<[2%positive := of_material "/id" mB]> hA)
           (w0 fsA) (mkWorld fsA ["/id"]) (w0 fsB) (mkWorld fsB ["/id"])
           1%positive 2%positive eq_refl eq_refl).
Defined.

(** [configureTLS] on a configuration with one certificate. *)
Lemma configureTLS_forces_first_certificate_witness :
  ∃ t o' clone,
    configureTLS 1%positive obj0 = (o', Ret t) ∧
    cfgs o' !! t = Some clone ∧
    Certificates clone = [] ∧
    RootCAs clone = RootCAs cfg0 ∧
    InsecureSkipVerify clone = InsecureSkipVerify cfg0 ∧
    VerifyConnection clone = VerifyConnection cfg0 ∧
    (∀ cert rest, Certificates cfg0 = cert :: rest →
       ∃ g, GetClientCertificate clone = Some g ∧
         ∀ h cri, g h cri = Ret (Some cert)) ∧
    (Certificates cfg0 = [] →
       GetClientCertificate clone = GetClientCertificate cfg0).
Proof.
  exact (configureTLS_forces_first_certificate 1%positive obj0 cfg0 eq_refl).
Defined.

Lemma configureTLS_offers_h2_witness :
  ∃ t o' clone,
    configureTLS 1%positive obj0 = (o', Ret t) ∧
    cfgs o' !! t = Some clone ∧
    NextProtoTLS ∈ slice_elems (arrs o') (NextProtos clone) ∧
    ∀ x, x ∈ slice_elems (arrs o') (NextProtos clone) ↔
         x ∈ slice_elems (arrs obj0) (NextProtos cfg0) ∨ x = NextProtoTLS.
Proof.
  assert (slice_wf (arrs obj0) (NextProtos cfg0)) as Hwf.
  { split; [simpl; lia|]. right. exists ["http/1.1"; ""].
    split; [reflexivity|simpl; lia]. }
  exact (configureTLS_offers_h2 1%positive obj0 cfg0 eq_refl Hwf
           toy_Deduplicate_keeps_members).
Defined.

Example configureTLS_protocols :
  let o' := (configureTLS 1%positive obj0).1 in
  (λ c, slice_elems (arrs o') (NextProtos c)) <$> cfgs o' !! 2%positive
  = Some ["http/1.1"; "h2"].
Proof. reflexivity. Qed.

Lemma configureTLS_twice_witness :
  ∃ t1 o1 clone t2 o2 s,
    configureTLS 1%positive obj0 = (o1, Ret t1) ∧
    cfgs o1 !! t1 = Some clone ∧
    configureTLS t1 o1 = (o2, Ret t2) ∧
    t2 ≠ t1 ∧
    cfgs o2 !! t2 = Some (set_NextProtos s clone) ∧
    cfgs o2 !! t1 = Some clone.
Proof.
  exact (configureTLS_twice 1%positive obj0 cfg0 eq_refl).
Defined.

(** The key pair credentials on their three files, and with the CA file
    gone. *)
Example keypair_TLSConfig_runs :
  (keypairCreds.TLSConfig carol emptyObj keypairFS).2 = Ret 2%positive ∧
  (RootCAs <$> cfgs (keypairCreds.TLSConfig carol emptyObj keypairFS).1 !! 2%positive)
  = Some (Some [("root", "root")]) ∧
  keypairCreds.TLSConfig carol emptyObj (delete "/ca" keypairFS)
  = (emptyObj, Fail (mkError NotFound "open: no such file or directory" 1)) ∧
  keypairCreds.TLSConfig carol emptyObj (<["/ca" := "bad-pem"]> keypairFS)
  = (emptyObj, Fail (mkError BadParameter "invalid TLS CA cert PEM" 1)).
Proof. repeat split; reflexivity. Qed.

(** The profile credentials after a first [SSHClientConfig]. *)
Lemma profile_read_at_most_once_witness :
  ∃ p,
    profileCreds.profile daveLoaded = Some p ∧
    (profileCreds.profile dave = None →
       FromDir (profileCreds.dir dave) (profileCreds.name dave) (fs (w0 profileFS))
         = Ok p ∧
       reads (mkWorld profileFS ["/tsh"]) = profileCreds.dir dave :: reads (w0 profileFS)) ∧
    ∀ (cfg : client.Config) (o' : ObjHeap) (w' : World),
      profileCreds.TLSConfig daveLoaded o' w' =
        (daveLoaded, (tls_from_profile p o').1, w', (tls_from_profile p o').2) ∧
      profileCreds.SSHClientConfig daveLoaded w' = (daveLoaded, w', ssh_from_profile p) ∧
      profileCreds.Dialer daveLoaded cfg o' w' =
        (daveLoaded, (dialer_from_profile p cfg o').1, w',
         (dialer_from_profile p cfg o').2).
Proof.
  exact (profile_read_at_most_once dave daveLoaded (w0 profileFS)
           (mkWorld profileFS ["/tsh"])
           (profile_ssh_succeeds dave (w0 profileFS) daveLoaded
              (mkWorld profileFS ["/tsh"]) "dave" eq_refl)).
Defined.

Example profile_Dialer_runs :
  (profileCreds.Dialer dave clientCfg emptyObj (w0 profileFS)).2
  = Ret ("dave", 30%Z, 10%Z, "dave.example.com:3080", false, 1%positive) ∧
  (profileCreds.Dialer dave clientCfg emptyObj (w0 ∅)).2
  = Fail (mkError BadParameter "profile could not be decoded: no such profile" 3) ∧
  (ServerName <$> cfgs (profileCreds.Dialer dave clientCfg emptyObj (w0 profileFS)).1.1.2
                    !! 1%positive) = Some "".
Proof. repeat split; reflexivity. Qed.

(** One reload and one connection, at the start and after eleven rounds. *)
Lemma reloads_and_reads_never_deadlock_witness :
  ∃ n c', n < 2 ∧
    Concurrent.step_thread n
      (Concurrent.init stA [mB] [[Concurrent.GetClientCertificate_cb]]) = Some c'.
Proof.
  refine (reloads_and_reads_never_deadlock stA [mB]
            [[Concurrent.GetClientCertificate_cb]] [] _).
  exists 0, (Concurrent.mkThread (Concurrent.Reload_locked mB) []).
  split; [reflexivity|discriminate].
Defined.

Lemma finished_runs_leave_a_whole_generation_witness :
  let c := Concurrent.run (round_robin 2 11)
             (Concurrent.init stA [mB] [[Concurrent.GetClientCertificate_cb]]) in
  Concurrent.writer (Concurrent.mu c) = false ∧
  Concurrent.pending (Concurrent.mu c) = false ∧
  Concurrent.readers (Concurrent.mu c) = 0 ∧
  last (Concurrent.history c) = Some (Concurrent.store c) ∧
  ([mB] ≠ [] → ∃ m, m ∈ [mB] ∧ Concurrent.store c = of_material (Path stA) m) ∧
  ([mB] = [] → Concurrent.store c = stA).
Proof.
  refine (finished_runs_leave_a_whole_generation stA [mB]
            [[Concurrent.GetClientCertificate_cb]] (round_robin 2 11) _).
  vm_compute. repeat constructor.
Defined.

(** The configuration that the key pair credentials hand out. *)
Lemma every_TLSConfig_names_a_server_witness :
  ∃ clone,
    cfgs (keypairCreds.TLSConfig carol emptyObj keypairFS).1 !! 2%positive
      = Some clone ∧
    ServerName clone ≠ "" ∧ Certificates clone = [].
Proof.
  exact (proj1 (proj2 every_TLSConfig_names_a_server) carol emptyObj keypairFS
           (keypairCreds.TLSConfig carol emptyObj keypairFS).1 2%positive eq_refl).
Defined.

(** A provider made from the file that holds alice's identity. *)
Lemma constructed_provider_is_ready_witness :
  ∃ cert pool c k,
    (∀ cri, DynamicIdentityFileCreds.getClientCertificate 1%positive hA cri
            = Ret (Some cert)) ∧
    (∀ state leaf rest, cs_PeerCertificates state = leaf :: rest →
       DynamicIdentityFileCreds.verifyConnection 1%positive hA state =
         verdict leaf (mkVerifyOptions (cs_ServerName state) rest (Some pool))) ∧
    DynamicIdentityFileCreds.publicKeysCallback 1%positive hA =
      match SSHSigner (Some c) (Some k) with
      | Ok s => Ret [s]
      | Err err => Fail (Wrap err)
      end.
Proof.
  exact (proj1 constructed_provider_is_ready "/id" ∅ hA (w0 fsA)
           (mkWorld fsA ["/id"]) 1%positive eq_refl).
Defined.

(** The key pair credentials with all three files in place. *)
Lemma keypair_TLSConfig_cases_witness :
  ∃ t o' clone g,
    keypairCreds.TLSConfig carol emptyObj keypairFS = (o', Ret t) ∧
    cfgs emptyObj !! t = None ∧
    cfgs o' !! t = Some clone ∧
    (∀ c', is_Some (cfgs emptyObj !! c') → cfgs o' !! c' = cfgs emptyObj !! c') ∧
    GetClientCertificate clone = Some g ∧
    (∀ h cri, g h cri = Ret (Some "carol")) ∧
    Certificates clone = [] ∧
    RootCAs clone = Some (CertsFromPEM "root") ∧
    ServerName clone = APIDomain ∧
    InsecureSkipVerify clone = false ∧
    VerifyConnection clone = None.
Proof.
  refine (proj2 (proj2 (proj2 (keypair_TLSConfig_cases carol emptyObj keypairFS)))
            "carol" "root" eq_refl eq_refl _).
  discriminate.
Defined.

(** The file credentials called while the file is missing, then with the
    file in place. *)
Lemma failed_load_is_retried_witness :
  let c1 := (identityCredsFile.TLSConfig
               (identityCredsFile.LoadIdentityFile "/id") emptyObj (w0 ∅)).1.1.1 in
  identityCredsFile.identityFile c1 = None ∧
  identityCredsFile.SSHClientConfig c1 (w0 fsB) =
    (identityCredsFile.mk (Some idB) "/id", mkWorld (fs (w0 fsB)) ("/id" :: reads (w0 fsB)),
     ssh_from_identity idB) ∧
  identityCredsFile.TLSConfig c1 emptyObj (w0 fsB) =
    (identityCredsFile.mk (Some idB) "/id", (tls_from_identity idB emptyObj).1,
     mkWorld (fs (w0 fsB)) ("/id" :: reads (w0 fsB)),
     (tls_from_identity idB emptyObj).2).
Proof.
  exact (proj1 failed_load_is_retried "/id" emptyObj (w0 ∅) (w0 fsB)
           (mkError NotFound "no such file or directory" 1) idB eq_refl eq_refl).
Defined.

(** The dialer of the profile credentials on a directory that holds a
    profile. *)
Lemma profile_Dialer_cases_witness :
  (profileCreds.Dialer dave clientCfg emptyObj (w0 profileFS)).2 =
    Ret (NewProxyDialer "dave" (client.KeepAlivePeriod clientCfg)
           (client.DialTimeout clientCfg) (WebProxyAddr "dave")
           (client.InsecureAddressDiscovery clientCfg) 1%positive) ∧
  (profileCreds.Dialer dave clientCfg emptyObj (w0 profileFS)).1.1.2 =
    (profileTLSConfig "dave" emptyObj).1 ∧
  profileCreds.profile (profileCreds.Dialer dave clientCfg emptyObj (w0 profileFS)).1.1.1
    = Some "dave".
Proof.
  exact (proj2 (proj2 (proj1 (proj2 (proj2
           (profile_Dialer_cases dave clientCfg emptyObj (w0 profileFS))))
           "dave" (or_intror (conj eq_refl eq_refl))))
           "dave" (profileTLSConfig "dave" emptyObj).1 1%positive eq_refl eq_refl).
Defined.
